(** * Plan normalisation and enrichment: a shallow embedding

    This development embeds the plan post-processing code of the video
    backend and checks the properties its specification states about it.

    - [python-be/plan_generation/enrich_plan.py]: the highlight spacing
      resolver, pruning, trimming, B-roll and motion-cue assignment;
    - [plan_generation/make_plan.py]: the schema normaliser.

    Conventions of the embedding.
    - Python floats are exact rationals ([Q]); [round(x, n)] is rounding to
      the nearest multiple of [10^-n], ties to even.
    - Python strings are byte strings; case mapping and character classes are
      the ASCII ones.
    - The dictionaries of the enrichment passes are used as structs and
      become records with optional fields; the raw input of the normaliser
      is untyped JSON and stays a JSON value.
    - A pass that mutates [plan] in place returns the new plan.

    Part I holds the definitions, Part II the lemmas and theorems. *)

From Stdlib Require Import List Bool Arith ZArith QArith Qround Qabs Lia Lqa.
From Stdlib Require Import String Ascii Permutation Sorted.
Import ListNotations.
Open Scope string_scope.
Open Scope list_scope.
Open Scope Q_scope.

(* ===================================================================== *)
(** * Part I: definitions *)
(* ===================================================================== *)

(* --------------------------------------------------------------------- *)
(** ** Numbers *)
(* --------------------------------------------------------------------- *)

Definition Qleb (a b : Q) : bool := Qle_bool a b.
Definition Qltb (a b : Q) : bool := negb (Qle_bool b a).
Definition Qeqb (a b : Q) : bool := Qeq_bool a b.

(** Python's [max(a, b)] returns [b] only when [b > a]; [min(a, b)] returns
    [b] only when [b < a]. *)
Definition fmax (a b : Q) : Q := if Qltb a b then b else a.
Definition fmin (a b : Q) : Q := if Qltb b a then b else a.

(** Nearest integer, ties to even. *)
Definition round_half_even (q : Q) : Z :=
  let f := Qfloor q in
  match Qcompare (q - inject_Z f) (1 # 2) with
  | Lt => f
  | Gt => (f + 1)%Z
  | Eq => if Z.even f then f else (f + 1)%Z
  end.

(** [round(q, n)] with [scale = 10^n]. *)
Definition round_at (scale : positive) (q : Q) : Q :=
  Qmake (round_half_even (q * inject_Z (Zpos scale))) scale.

Definition round2 : Q -> Q := round_at 100.
Definition round3 : Q -> Q := round_at 1000.

(** A value is on the two-decimal grid when it is a whole number of
    hundredths. *)
Definition on_grid (scale : positive) (q : Q) : Prop :=
  exists n : Z, q == Qmake n scale.

(** [math.ceil] on a non-negative product, as a natural number. *)
Definition ceil_nat (q : Q) : nat := Z.to_nat (Qceiling q).

(** [value or default] / [dict.get(key, default)] on an optional number. *)
Definition numd (o : option Q) (d : Q) : Q :=
  match o with Some q => q | None => d end.

(* --------------------------------------------------------------------- *)
(** ** Strings *)
(* --------------------------------------------------------------------- *)

Definition is_upper_ascii (c : ascii) : bool :=
  let n := nat_of_ascii c in (65 <=? n)%nat && (n <=? 90)%nat.
Definition is_lower_ascii (c : ascii) : bool :=
  let n := nat_of_ascii c in (97 <=? n)%nat && (n <=? 122)%nat.
Definition is_digit_ascii (c : ascii) : bool :=
  let n := nat_of_ascii c in (48 <=? n)%nat && (n <=? 57)%nat.
Definition is_alpha_ascii (c : ascii) : bool :=
  is_upper_ascii c || is_lower_ascii c.
Definition is_alnum_ascii (c : ascii) : bool :=
  is_alpha_ascii c || is_digit_ascii c.
(** The characters [str.strip()] and [str.split()] treat as white space. *)
Definition is_space_ascii (c : ascii) : bool :=
  let n := nat_of_ascii c in
  ((9 <=? n)%nat && (n <=? 13)%nat) || ((28 <=? n)%nat && (n <=? 32)%nat).

Definition lower_ascii (c : ascii) : ascii :=
  if is_upper_ascii c then ascii_of_nat (nat_of_ascii c + 32) else c.
Definition upper_ascii (c : ascii) : ascii :=
  if is_lower_ascii c then ascii_of_nat (nat_of_ascii c - 32) else c.

Fixpoint map_string (f : ascii -> ascii) (s : string) : string :=
  match s with
  | EmptyString => EmptyString
  | String c r => String (f c) (map_string f r)
  end.

(** [s.lower()], [s.upper()] *)
Definition lower (s : string) : string := map_string lower_ascii s.
Definition upper (s : string) : string := map_string upper_ascii s.

Fixpoint existsb_string (p : ascii -> bool) (s : string) : bool :=
  match s with
  | EmptyString => false
  | String c r => p c || existsb_string p r
  end.

Fixpoint lstrip (s : string) : string :=
  match s with
  | EmptyString => EmptyString
  | String c r => if is_space_ascii c then lstrip r else s
  end.

Fixpoint string_rev_app (s acc : string) : string :=
  match s with
  | EmptyString => acc
  | String c r => string_rev_app r (String c acc)
  end.
Definition string_rev (s : string) : string := string_rev_app s EmptyString.

(** [s.strip()] *)
Definition strip (s : string) : string :=
  string_rev (lstrip (string_rev (lstrip s))).

(** [prefix in s] at the front, [needle in s] anywhere. *)
Fixpoint startswith (p s : string) : bool :=
  match p, s with
  | EmptyString, _ => true
  | String a p', String b s' => Ascii.eqb a b && startswith p' s'
  | String _ _, EmptyString => false
  end.

Fixpoint contains (needle s : string) : bool :=
  startswith needle s ||
  match s with
  | EmptyString => false
  | String _ r => contains needle r
  end.

Definition endswith (suffix s : string) : bool :=
  startswith (string_rev suffix) (string_rev s).

Definition mem_string (s : string) (l : list string) : bool :=
  existsb (String.eqb s) l.

(** [" ".join(parts)] *)
Fixpoint join (sep : string) (parts : list string) : string :=
  match parts with
  | [] => EmptyString
  | [p] => p
  | p :: rest => append p (append sep (join sep rest))
  end.

(** [filter(None, parts)] on optional strings: absent and empty ones go. *)
Definition truthy_str (o : option string) : bool :=
  match o with
  | Some s => negb (String.eqb s EmptyString)
  | None => false
  end.

Definition str_or (o : option string) (d : string) : string :=
  if truthy_str o then match o with Some s => s | None => d end else d.

(** [re.findall(r"[A-Za-z0-9]+", text)]: the maximal alphanumeric runs. *)
Fixpoint alnum_tokens_aux (s : string) (cur : string) : list string :=
  match s with
  | EmptyString =>
      if String.eqb cur EmptyString then [] else [string_rev cur]
  | String c r =>
      if is_alnum_ascii c then alnum_tokens_aux r (String c cur)
      else if String.eqb cur EmptyString then alnum_tokens_aux r EmptyString
      else string_rev cur :: alnum_tokens_aux r EmptyString
  end.
Definition alnum_tokens (s : string) : list string :=
  alnum_tokens_aux s EmptyString.

(* --------------------------------------------------------------------- *)
(** ** Stable sorting *)
(* --------------------------------------------------------------------- *)

(** [sorted(l, key=...)] and [list.sort(key=...)] are stable. [leb a b]
    says that the key of [a] is at most the key of [b]; an element is put in
    front of the first element it does not exceed, so equal keys keep their
    order. *)
Section StableSort.
Variable A : Type.
Variable leb : A -> A -> bool.

Fixpoint insert_sorted (x : A) (l : list A) : list A :=
  match l with
  | [] => [x]
  | y :: r => if leb x y then x :: l else y :: insert_sorted x r
  end.

Fixpoint stable_sort (l : list A) : list A :=
  match l with
  | [] => []
  | x :: r => insert_sorted x (stable_sort r)
  end.
End StableSort.
Arguments insert_sorted {A} leb x l.
Arguments stable_sort {A} leb l.

Definition sort_by_key {A : Type} (key : A -> Q) (l : list A) : list A :=
  stable_sort (fun a b => Qleb (key a) (key b)) l.

(* --------------------------------------------------------------------- *)
(** ** JSON values *)
(* --------------------------------------------------------------------- *)

(** What [json.load] yields. A dictionary keeps its insertion order; a key
    is looked up at its first binding. *)
#[local] Set Warnings "-register-all".
Inductive value : Type :=
| VNone
| VBool (b : bool)
| VNum (q : Q)
| VStr (s : string)
| VList (l : list value)
| VDict (d : list (string * value)).

Definition dict : Type := list (string * value).

(* --------------------------------------------------------------------- *)
(** ** The plan of the enrichment passes (enrich_plan.py) *)
(* --------------------------------------------------------------------- *)

(** The [metadata] entry of a highlight as the sound passes read it: absent,
    a value that is not a dictionary (null included), or a dictionary, with
    its [audio] entry: absent, a value that is not a string (null, a number
    or a boolean), or a string. *)
Inductive metadata_entry : Type :=
  | NoMetadata
  | OtherMetadata
  | Metadata (audio : option (option string)).

(** A highlight dictionary, with the keys the passes read or write. A timing
    field is [None] when the key is absent, null or not a number. *)
Record highlight : Type := mkHighlight {
  hl_id : option string;
  hl_type : option string;
  hl_start : option Q;
  hl_duration : option Q;
  hl_text : option string;
  hl_keyword : option string;
  hl_title : option string;
  hl_importance : option string;
  hl_animation : option string;
  hl_supporting : list (string * string);   (* supportingTexts, in order *)
  hl_sfx : option string;
  hl_gain : option Q;
  hl_ducking : option Q;
  hl_metadata : metadata_entry
}.

(** The B-roll assignment written onto a segment. *)
Record broll : Type := mkBroll {
  br_id : option string;
  br_file : option string;
  br_mode : string;
  br_confidence : Q;
  br_reasons : list string;
  br_duration : option Q
}.

(** A segment dictionary. [seg_sourceStart] and [seg_duration] are [None]
    when the key is absent (the passes then read [0.0]). The transitions
    are the entries [transitionIn] and [transitionOut] as the plan file
    gives them; no pass of the enrichment reads them. *)
Record segment : Type := mkSegment {
  seg_id : option string;
  seg_sourceStart : option Q;
  seg_duration : option Q;
  seg_label : option string;
  seg_title : option string;
  seg_kind : option string;
  seg_broll : option broll;
  seg_motionCue : option string;
  seg_notes : list string;
  seg_sfxHints : option (list string);
  seg_transitionIn : option value;
  seg_transitionOut : option value
}.

Record plan : Type := mkPlan {
  plan_segments : list segment;
  plan_highlights : list highlight
}.

Definition set_highlights (p : plan) (hs : list highlight) : plan :=
  mkPlan (plan_segments p) hs.
Definition set_segments (p : plan) (ss : list segment) : plan :=
  mkPlan ss (plan_highlights p).

(** [highlight["start"] = s; highlight["duration"] = d] *)
Definition set_hl_duration (h : highlight) (d : Q) : highlight :=
  mkHighlight (hl_id h) (hl_type h) (hl_start h) (Some d) (hl_text h)
    (hl_keyword h) (hl_title h) (hl_importance h) (hl_animation h)
    (hl_supporting h) (hl_sfx h) (hl_gain h) (hl_ducking h) (hl_metadata h).
Definition set_hl_start (h : highlight) (s : Q) : highlight :=
  mkHighlight (hl_id h) (hl_type h) (Some s) (hl_duration h) (hl_text h)
    (hl_keyword h) (hl_title h) (hl_importance h) (hl_animation h)
    (hl_supporting h) (hl_sfx h) (hl_gain h) (hl_ducking h) (hl_metadata h).
Definition set_hl_audio_fields (h : highlight)
    (sfx : option string) (gain ducking : option Q)
    (metadata : metadata_entry) : highlight :=
  mkHighlight (hl_id h) (hl_type h) (hl_start h) (hl_duration h) (hl_text h)
    (hl_keyword h) (hl_title h) (hl_importance h) (hl_animation h)
    (hl_supporting h) sfx gain ducking metadata.

(** [(item.get("type") or "").lower()] *)
Definition hl_type_lower (h : highlight) : string :=
  lower (str_or (hl_type h) "").
Definition is_section_title (h : highlight) : bool :=
  String.eqb (hl_type_lower h) "sectiontitle".

(** The sort key [item.get("start", 0.0) or 0.0]. *)
Definition start_key (h : highlight) : Q := numd (hl_start h) 0.

(* --------------------------------------------------------------------- *)
(** ** enforce_highlight_spacing *)
(* --------------------------------------------------------------------- *)

Definition MIN_GAP : Q := 2 # 10.
Definition MIN_DURATION : Q := 6 # 10.

(** The [while filtered:] loop for one [current] highlight. [filtered] is
    kept as a stack: its head is Python's [filtered[-1]]. The result is the
    stack when the loop is left, by [break] or because it became empty. *)
Fixpoint resolve_against (min_gap min_duration : Q)
    (start duration : Q) (current_is_section : bool)
    (filtered : list highlight) : list highlight :=
  match filtered with
  | [] => []
  | previous :: rest =>
      let prev_start := numd (hl_start previous) 0 in
      let prev_duration :=
        fmax min_duration (numd (hl_duration previous) min_duration) in
      let prev_end := prev_start + prev_duration in
      if Qleb (prev_end + min_gap) start then filtered
      else
        let available := start - min_gap - prev_start in
        let previous_is_section := is_section_title previous in
        if Qleb min_duration available then
          set_hl_duration previous (round2 available) :: rest
        else if current_is_section && negb previous_is_section then
          resolve_against min_gap min_duration start duration
            current_is_section rest
        else if negb current_is_section && previous_is_section then
          filtered
        else if Qltb (4 # 10) available then
          set_hl_duration previous (round2 (fmax min_duration available))
            :: rest
        else if Qltb prev_duration duration then
          resolve_against min_gap min_duration start duration
            current_is_section rest
        else filtered
  end.

(** One iteration of [for current in ordered:]. *)
Definition spacing_step (min_gap min_duration : Q)
    (filtered : list highlight) (current : highlight) : list highlight :=
  match hl_start current, hl_duration current with
  | Some start, Some d =>
      let duration := fmax min_duration d in
      let filtered' :=
        resolve_against min_gap min_duration start duration
          (is_section_title current) filtered in
      let blocked :=
        match filtered' with
        | [] => false
        | prev_last :: _ =>
            Qltb start
              (numd (hl_start prev_last) 0
               + numd (hl_duration prev_last) min_duration + min_gap)
        end in
      if blocked then filtered'
      else
        set_hl_duration (set_hl_start current (round2 start))
          (round2 duration) :: filtered'
  | _, _ => filtered
  end.

Definition spacing_loop (min_gap min_duration : Q)
    (ordered : list highlight) : list highlight :=
  rev (fold_left (spacing_step min_gap min_duration) ordered []).

Definition enforce_highlight_spacing_with (min_gap min_duration : Q)
    (p : plan) : plan :=
  match plan_highlights p with
  | [] => p
  | highlights =>
      set_highlights p
        (spacing_loop min_gap min_duration (sort_by_key start_key highlights))
  end.

Definition enforce_highlight_spacing : plan -> plan :=
  enforce_highlight_spacing_with MIN_GAP MIN_DURATION.

(* --------------------------------------------------------------------- *)
(** ** prune_highlights *)
(* --------------------------------------------------------------------- *)

Definition MAX_TOTAL_HIGHLIGHTS : nat := 20.

Definition ALLOWED_CONNECTORS_UPPER : list string :=
  ["OF"; "FOR"; "AND"; "&"; "IN"; "ON"; "VS"; "VERSUS"; "TO"; "WITH"]%string.

Definition COMMON_VERB_TOKENS_LOWER : list string :=
  ["be";"am";"is";"are";"was";"were";"being";"been";"do";"does";"did";
   "doing";"have";"has";"had";"having";"make";"makes";"making";"made";
   "watch";"watches";"watching";"interact";"interacts";"interacting";
   "discuss";"discusses";"discussing";"explain";"explains";"explaining";
   "stand";"stands";"standing";"tell";"tells";"telling";"catch";"catches";
   "catching";"let";"lets";"letting";"take";"takes";"taking";"know";"knows";
   "knowing";"think";"thinks";"thinking";"feel";"feels";"feeling";"see";
   "sees";"seeing";"talk";"talks";"talking";"say";"says";"saying";"look";
   "looks";"looking";"get";"gets";"getting";"give";"gives";"giving";"keep";
   "keeps";"keeping";"want";"wants";"wanting";"need";"needs";"needing";
   "allow";"allows";"allowing";"may";"might";"should";"could";"would";
   "will";"can";"now";"today";"tonight";"already";"maybe";"just"]%string.

(** [str(item.get("keyword") or item.get("text") or "")] *)
Definition hl_label_text (h : highlight) : string :=
  if truthy_str (hl_keyword h) then str_or (hl_keyword h) ""
  else str_or (hl_text h) "".

Definition score_highlight (item : highlight) : Q :=
  let h_type := hl_type_lower item in
  let base :=
    if String.eqb h_type "sectiontitle" then 120
    else if String.eqb h_type "icon" then 40
    else if String.eqb h_type "cta" then 80
    else 0 in
  let base :=
    if String.eqb (lower (str_or (hl_importance item) "")) "primary"
    then base + 12 else base in
  let text := hl_label_text item in
  let tokens := alnum_tokens text in
  match tokens with
  | [] => base - 25
  | _ =>
      let content_tokens :=
        filter (fun t => negb (mem_string (upper t) ALLOWED_CONNECTORS_UPPER))
          tokens in
      let noun_like :=
        List.length
          (filter (fun t => negb (mem_string (lower t) COMMON_VERB_TOKENS_LOWER))
             content_tokens) in
      let base := base + fmin (inject_Z (Z.of_nat (noun_like * 4))) 20 in
      let base :=
        if existsb_string is_digit_ascii text then base + 10 else base in
      let duration := numd (hl_duration item) 0 in
      let base := base + fmin duration 5 in
      let start := numd (hl_start item) 0 in
      let base := base + fmax 0 (8 - start * (5 # 100)) in
      match content_tokens with
      | [] => base
      | [t] => if (6 <=? String.length t)%nat then base + 2 else base - 12
      | _ => base + 10
      end
  end.

(** An entry [(score, start, idx, item)] of [scored]. *)
Definition scored_entry : Type := (Q * Q * nat * highlight)%type.

Definition entry_item (e : scored_entry) : highlight := snd e.

(** The order of [(-score, start, idx)] tuples. *)
Definition scored_leb (a b : scored_entry) : bool :=
  match a, b with
  | (sa, ta, ia, _), (sb, tb, ib, _) =>
      if Qltb (- sa) (- sb) then true
      else if Qltb (- sb) (- sa) then false
      else if Qltb ta tb then true
      else if Qltb tb ta then false
      else (ia <=? ib)%nat
  end.

Fixpoint enumerate_from {A : Type} (n : nat) (l : list A) : list (nat * A) :=
  match l with
  | [] => []
  | x :: r => (n, x) :: enumerate_from (S n) r
  end.

Definition score_entries (highlights : list highlight) : list scored_entry :=
  map (fun ix => (score_highlight (snd ix), numd (hl_start (snd ix)) 0,
                  fst ix, snd ix))
    (enumerate_from 0 highlights).

Definition id_eqb (a b : option string) : bool :=
  match a, b with
  | Some x, Some y => String.eqb x y
  | None, None => true
  | _, _ => false
  end.

(** [retained = {entry[3].get("id") for entry in scored[:max_total]}] *)
Definition retained_ids (max_total : nat) (highlights : list highlight)
    : list (option string) :=
  map (fun e => hl_id (entry_item e))
    (firstn max_total (stable_sort scored_leb (score_entries highlights))).

Definition prune_highlights_with (max_total : nat) (p : plan) : plan :=
  let highlights := plan_highlights p in
  if (List.length highlights <=? max_total)%nat then p
  else
    let retained := retained_ids max_total highlights in
    set_highlights p
      (sort_by_key start_key
         (filter (fun item => existsb (id_eqb (hl_id item)) retained)
            highlights)).

Definition prune_highlights : plan -> plan :=
  prune_highlights_with MAX_TOTAL_HIGHLIGHTS.

(* --------------------------------------------------------------------- *)
(** ** trim_highlights_to_segments *)
(* --------------------------------------------------------------------- *)

Definition TRIM_MARGIN : Q := 25 # 100.

(** [latest_end] after the loop over the segments. *)
Definition latest_end (segments : list segment) : Q :=
  fold_left
    (fun acc seg =>
       fmax acc (numd (seg_sourceStart seg) 0
                 + fmax 0 (numd (seg_duration seg) 0)))
    segments 0.

Definition within_cutoff (cutoff : Q) (h : highlight) : bool :=
  match hl_start h with
  | Some s => Qleb s cutoff
  | None => false
  end.

Definition trim_highlights_to_segments_with (margin : Q) (p : plan) : plan :=
  match plan_segments p, plan_highlights p with
  | [], _ => p
  | _, [] => p
  | segments, highlights =>
      let cutoff := latest_end segments + margin in
      set_highlights p
        (sort_by_key start_key (filter (within_cutoff cutoff) highlights))
  end.

Definition trim_highlights_to_segments : plan -> plan :=
  trim_highlights_to_segments_with TRIM_MARGIN.

(* --------------------------------------------------------------------- *)
(** ** ensure_highlight_sfx and strip_non_section_sfx *)
(* --------------------------------------------------------------------- *)

(** A rule of [HIGHLIGHT_SFX_RULES]: keywords, file, gain. *)
Definition HIGHLIGHT_SFX_RULES : list (list string * string * Q) :=
  [ (["sweet"; "honest"], "assets/sfx/emotion/applause.mp3", - (25 # 10));
    (["high school"; "sweetheart"; "sweethearts"], "assets/sfx/ui/pop.mp3",
     - (25 # 10));
    (["clientele"; "client"; "clients"], "assets/sfx/ui/pop.mp3", - (25 # 10));
    (["loyalty"; "day one"], "assets/sfx/emphasis/ding.mp3", - (25 # 10));
    (["relationship"; "relationships"], "assets/sfx/ui/bubble-pop.mp3", - 3);
    (["consistency"; "consistent"], "assets/sfx/emphasis/ding.mp3", - 3)
  ]%string.

(** An item of the SFX catalog: its [file] and [id]. *)
Definition sfx_item : Type := (option string * option string)%type.

(** The set [available] of lower-cased catalog paths. *)
Definition sfx_available (sfx_catalog : option (list sfx_item)) : list string :=
  match sfx_catalog with
  | None => []
  | Some items =>
      flat_map
        (fun it : sfx_item =>
           if truthy_str (fst it) then [lower (str_or (fst it) "")]
           else match snd it with
                | Some s => [lower s]
                | None => []
                end)
        items
  end.

(** The first rule that matches [combined] and is available. *)
Fixpoint pick_sfx_rule (available : list string) (combined : string)
    (rules : list (list string * string * Q)) : option (string * Q) :=
  match rules with
  | [] => None
  | (keywords, sfx_path, gain) :: rest =>
      if existsb (fun k => contains k combined) keywords then
        match available with
        | _ :: _ =>
            if mem_string (lower sfx_path) available
            then Some (sfx_path, gain)
            else pick_sfx_rule available combined rest
        | [] => Some (sfx_path, gain)
        end
      else pick_sfx_rule available combined rest
  end.

Definition truthy_parts (parts : list (option string)) : list string :=
  flat_map (fun o => if truthy_str o then [str_or o ""] else []) parts.

(** [metadata = highlight.setdefault("metadata", {})] and, when that is a
    dictionary, [metadata.setdefault("audio", "auto")]. *)
Definition mark_audio_auto (m : metadata_entry) : metadata_entry :=
  match m with
  | NoMetadata => Metadata (Some (Some "auto"%string))
  | OtherMetadata => OtherMetadata
  | Metadata None => Metadata (Some (Some "auto"%string))
  | Metadata (Some audio) => Metadata (Some audio)
  end.

Definition sfx_for_highlight (available : list string) (h : highlight)
    : highlight :=
  if truthy_str (hl_sfx h) then h
  else
    let combined :=
      lower (join " " (truthy_parts [hl_text h; hl_keyword h; hl_title h])) in
    if String.eqb combined "" then h
    else
      match pick_sfx_rule available combined HIGHLIGHT_SFX_RULES with
      | Some (sfx_path, gain) =>
          set_hl_audio_fields h (Some sfx_path) (Some gain) (hl_ducking h)
            (mark_audio_auto (hl_metadata h))
      | None => h
      end.

Definition ensure_highlight_sfx (sfx_catalog : option (list sfx_item))
    (p : plan) : plan :=
  set_highlights p
    (map (sfx_for_highlight (sfx_available sfx_catalog)) (plan_highlights p)).

(** [isinstance(metadata, dict) and
    metadata.get('audio') in {'auto', 'keep', 'accent'}] *)
Definition audio_kept (m : metadata_entry) : bool :=
  match m with
  | Metadata (Some (Some audio)) =>
      mem_string audio ["auto"; "keep"; "accent"]%string
  | _ => false
  end.

Definition strip_sfx_of (h : highlight) : highlight :=
  if id_eqb (hl_type h) (Some "sectionTitle"%string) then h
  else if audio_kept (hl_metadata h) then h
  else set_hl_audio_fields h None None None (hl_metadata h).

Definition strip_non_section_sfx (p : plan) : plan :=
  set_highlights p (map strip_sfx_of (plan_highlights p)).

(* --------------------------------------------------------------------- *)
(** ** B-roll from highlight keywords: ensure_broll_from_highlights *)
(* --------------------------------------------------------------------- *)

(** An item of the B-roll catalog. *)
Record broll_item : Type := mkBrollItem {
  bi_id : option string;
  bi_file : option string;
  bi_mediaType : option string;
  bi_orientation : option string;
  bi_topics : list string;
  bi_keywords : list string;
  bi_mood : list string;
  bi_duration : option Q;
  bi_durationHintSeconds : option Q
}.

Definition DEFAULT_BROLL_DURATION : Q := 6.
Definition MAX_BROLL_REUSE : nat := 2.

Definition BROLL_RULES : list (list string * string) :=
  [ (["digital marketing"; "marketing"; "online marketing"], "creative_brainstorm");
    (["strategy"; "tactics"; "plan"; "framework"], "presentation_speaker");
    (["seo"; "search engine optimization"], "data_analysis");
    (["social media"; "facebook"; "instagram"; "linkedin"], "remote_call");
    (["ppc"; "paid ads"; "google ads"], "data_analysis");
    (["email marketing"; "email campaigns"], "typing_laptop");
    (["web optimization"; "website"; "landing page"], "coding_screen");
    (["audience"; "segmentation"; "target"; "customer"], "teamwork_meeting");
    (["learning"; "education"; "course"; "training"], "training_workshop");
    (["caffeine"; "coffee"; "cup of coffee"], "typing_laptop");
    (["career"; "job"; "growth"; "specialise"], "office_motion");
    (["credibility"; "authority"; "expert"], "presentation_speaker");
    (["data"; "analytics"; "metrics"; "insights"], "data_analysis");
    (["content"; "blog"; "video"; "post"], "creative_brainstorm");
    (["organic"; "paid"; "promotion"], "data_analysis");
    (["brand awareness"; "direct response"], "presentation_speaker");
    (["products"; "services"], "office_motion");
    (["b2b"; "b2c"; "business to business"; "business to consumer"],
     "teamwork_meeting");
    (["loyal"; "loyalty"; "loyal clients"], "handshake_success");
    (["sweet"; "honest"; "heartwarming"], "celebration_success");
    (["favorite memory"; "favourite memory"; "memory"; "family"; "grandkids"],
     "celebration_success");
    (["high school"; "sweetheart"; "sweethearts"], "training_workshop");
    (["clientele"; "clients"; "client"], "teamwork_meeting");
    (["partnership"; "still with"; "day one"], "office_motion");
    (["relationship"; "relationships"; "friendships"], "startup_team");
    (["consistency"; "consistent"], "office_motion");
    (["mail room"; "mailroom"], "office_motion");
    (["industry"; "business owner"; "company"], "startup_team");
    (["personality"; "psychology"; "traits"; "introvert"; "extrovert"],
     "training_workshop");
    (["mind"; "brain"; "thought"; "thinking"], "digital_brain");
    (["people"; "audience"; "social"; "crowd"; "group"], "teamwork_meeting")
  ]%string.

Definition BROLL_NOTES : list (string * string) :=
  [ ("handshake_success", "B-roll: handshake_success underscores loyalty anecdote.");
    ("celebration_success", "B-roll: celebration_success adds warmth during character description.");
    ("training_workshop", "B-roll: training_workshop illustrates the high-school group setup.");
    ("teamwork_meeting", "B-roll: teamwork_meeting spotlights established clientele.");
    ("presentation_speaker", "B-roll: presentation_speaker fits the talk-style explanation.");
    ("creative_brainstorm", "B-roll: creative_brainstorm adds energetic collaboration context.");
    ("data_analysis", "B-roll: data_analysis visualises metric-heavy commentary.");
    ("remote_call", "B-roll: remote_call reinforces digital social interaction.");
    ("typing_laptop", "B-roll: typing_laptop underscores analytical focus.");
    ("coding_screen", "B-roll: coding_screen mirrors technical optimisation themes.");
    ("digital_brain", "B-roll: digital_brain supports references to cognitive science.");
    ("startup_team", "B-roll: startup_team reinforces loyal friendships with clients.");
    ("office_motion", "B-roll: office_motion underscores consistent client relationships.")
  ]%string.

Definition BROLL_REASONS : list (string * list string) :=
  [ ("handshake_success", ["Handshake moment reinforces loyalty description."]);
    ("celebration_success", ["Celebration visual supports the heartfelt moment."]);
    ("training_workshop", ["Group setting mirrors the meeting story energy."]);
    ("teamwork_meeting", ["Team huddle echoes long-term client relationships."]);
    ("presentation_speaker", ["Stage speaker visual reinforces the narrated insight."]);
    ("creative_brainstorm", ["Creative session footage keeps the discussion lively."]);
    ("data_analysis", ["Analytics dashboard imagery matches the metric-focused commentary."]);
    ("remote_call", ["Video call vignette highlights social/audience engagement."]);
    ("typing_laptop", ["Typing closeup mirrors detailed analytical thinking."]);
    ("coding_screen", ["Code view emphasises technical problem solving."]);
    ("digital_brain", ["Digital brain animation echoes cognitive references in the script."]);
    ("startup_team", ["Collaborative workspace visualises loyal friendships with clients."]);
    ("office_motion", ["Office walkthrough mirrors consistent client presence."])
  ]%string.

Fixpoint assoc {B : Type} (k : string) (l : list (string * B)) : option B :=
  match l with
  | [] => None
  | (k', v) :: r => if String.eqb k k' then Some v else assoc k r
  end.

Definition match_broll_candidates (text : string) : list string :=
  let lowered := lower text in
  flat_map
    (fun rule : list string * string =>
       if existsb (fun keyword => contains keyword lowered) (fst rule)
       then [snd rule] else [])
    BROLL_RULES.

(** [locate_segment]: the position of the first segment whose range holds
    the timecode. *)
Fixpoint locate_segment_from (i : nat) (segments : list segment) (timecode : Q)
    : option nat :=
  match segments with
  | [] => None
  | seg :: rest =>
      let start := numd (seg_sourceStart seg) 0 in
      let end_ := start + numd (seg_duration seg) 0 in
      if Qleb start timecode && Qleb timecode end_ then Some i
      else locate_segment_from (S i) rest timecode
  end.
Definition locate_segment : list segment -> Q -> option nat :=
  locate_segment_from 0.

Fixpoint update_nth {A : Type} (i : nat) (x : A) (l : list A) : list A :=
  match l, i with
  | [], _ => []
  | _ :: r, O => x :: r
  | y :: r, S j => y :: update_nth j x r
  end.

Definition set_seg_broll (s : segment) (b : broll) (notes : list string)
    : segment :=
  mkSegment (seg_id s) (seg_sourceStart s) (seg_duration s) (seg_label s)
    (seg_title s) (seg_kind s) (Some b) (seg_motionCue s) notes
    (seg_sfxHints s) (seg_transitionIn s) (seg_transitionOut s).

Definition set_seg_motion (s : segment) (cue : string) (notes : list string)
    : segment :=
  mkSegment (seg_id s) (seg_sourceStart s) (seg_duration s) (seg_label s)
    (seg_title s) (seg_kind s) (seg_broll s) (Some cue) notes
    (seg_sfxHints s) (seg_transitionIn s) (seg_transitionOut s).

(** [catalog_items = {item.get("id"): item for item in items}]: a later item
    with the same id replaces an earlier one. *)
Definition catalog_lookup (items : list broll_item) (cid : string)
    : option broll_item :=
  find (fun it => id_eqb (bi_id it) (Some cid)) (rev items).

Definition VIDEO_SUFFIXES : list string :=
  [".mp4"; ".mov"; ".m4v"; ".webm"; ".mpg"; ".mpeg"]%string.

(** The media-type test that makes the loops skip an item. *)
Definition not_a_video (item : broll_item) : bool :=
  let file_path := str_or (bi_file item) "" in
  let media_type := lower (str_or (bi_mediaType item) "") in
  negb (String.eqb media_type "")
  && negb (String.eqb media_type "video")
  && negb (existsb (fun suf => endswith suf (lower file_path)) VIDEO_SUFFIXES).

(** The ids of the segments that hold the start of a section title. *)
Definition section_locked_segments (segments : list segment)
    (highlights : list highlight) : list string :=
  flat_map
    (fun h =>
       if is_section_title h then
         match hl_start h with
         | Some start =>
             match locate_segment segments start with
             | Some i =>
                 match nth_error segments i with
                 | Some seg =>
                     if truthy_str (seg_id seg) then [str_or (seg_id seg) ""]
                     else []
                 | None => []
                 end
             | None => []
             end
         | None => []
         end
       else [])
    highlights.

(** The order of the keys [(assigned_counts[cid], cid)]. *)
Definition candidate_leb (counts : string -> nat) (a b : string) : bool :=
  if (counts a <? counts b)%nat then true
  else if (counts b <? counts a)%nat then false
  else String.leb a b.

(** The [for candidate_id in sorted(...)] loop: the first usable item. *)
Fixpoint choose_candidate (items : list broll_item) (counts : string -> nat)
    (candidates : list string) : option (string * broll_item) :=
  match candidates with
  | [] => None
  | candidate_id :: rest =>
      match catalog_lookup items candidate_id with
      | None => choose_candidate items counts rest
      | Some item =>
          if not_a_video item then choose_candidate items counts rest
          else if (MAX_BROLL_REUSE <=? counts candidate_id)%nat
          then choose_candidate items counts rest
          else Some (candidate_id, item)
      end
  end.

Definition bump (counts : string -> nat) (cid : string) : string -> nat :=
  fun x => if String.eqb x cid then S (counts x) else counts x.

Definition highlight_broll_text (h : highlight) (seg : segment) : string :=
  let label :=
    if truthy_str (seg_label seg) then seg_label seg else seg_title seg in
  join " "
    (truthy_parts
       (Some (str_or (hl_keyword h) "")
        :: map (fun kv => Some (snd kv)) (hl_supporting h) ++ [label])).

(** The body of the second [for highlight in highlights:] loop; the state is
    the segment list and [assigned_counts]. *)
Definition broll_step (items : list broll_item) (locked : list string)
    (st : list segment * (string -> nat)) (h : highlight)
    : list segment * (string -> nat) :=
  let '(segments, counts) := st in
  match hl_start h with
  | None => st
  | Some start =>
      match locate_segment segments start with
      | None => st
      | Some i =>
          match nth_error segments i with
          | None => st
          | Some seg =>
              match seg_broll seg with
              | Some _ => st
              | None =>
                  if match seg_id seg with
                     | Some sid => mem_string sid locked
                     | None => false
                     end then st
                  else if is_section_title h then st
                  else
                    let full_text := highlight_broll_text h seg in
                    if String.eqb full_text "" then st
                    else
                      let candidates := match_broll_candidates full_text in
                      match
                        choose_candidate items counts
                          (stable_sort (candidate_leb counts) candidates)
                      with
                      | None => st
                      | Some (chosen_id, chosen_item) =>
                          let reasons :=
                            match assoc (str_or (bi_id chosen_item) "")
                                    BROLL_REASONS with
                            | Some r => r
                            | None => ["Highlight keyword match"%string]
                            end in
                          let duration_hint :=
                            match bi_durationHintSeconds chosen_item with
                            | Some q =>
                                if Qeqb q 0 then DEFAULT_BROLL_DURATION else q
                            | None => DEFAULT_BROLL_DURATION
                            end in
                          let max_duration :=
                            round3
                              (fmin duration_hint
                                 (numd (seg_duration seg) duration_hint)) in
                          let notes :=
                            filter
                              (fun note =>
                                 negb (startswith "no b-roll match"
                                         (lower note)))
                              (seg_notes seg) in
                          let note_text :=
                            match assoc (str_or (bi_id chosen_item) "")
                                    BROLL_NOTES with
                            | Some n => n
                            | None =>
                                append
                                  "B-roll injected via highlight keyword: "
                                  (str_or (bi_id chosen_item) "None")
                            end in
                          let notes :=
                            if mem_string note_text notes then notes
                            else notes ++ [note_text] in
                          (update_nth i
                             (set_seg_broll seg
                                (mkBroll (bi_id chosen_item)
                                   (bi_file chosen_item) "full" 3 reasons
                                   (Some max_duration))
                                notes)
                             segments,
                           bump counts chosen_id)
                      end
              end
          end
      end
  end.

Definition ensure_broll_from_highlights
    (broll_catalog : option (list broll_item)) (p : plan) : plan :=
  match broll_catalog with
  | None => p
  | Some [] => p
  | Some items =>
      match plan_segments p, plan_highlights p with
      | [], _ => p
      | _, [] => p
      | segments, highlights =>
          let locked := section_locked_segments segments highlights in
          set_segments p
            (fst (fold_left (broll_step items locked) highlights
                    (segments, fun _ => O)))
      end
  end.

(* --------------------------------------------------------------------- *)
(** ** Motion cues from highlights: ensure_motion_from_highlights *)
(* --------------------------------------------------------------------- *)

(** The keys of [motion_rules.json] the code reads. *)
Record motion_rules : Type := mkMotionRules {
  mr_motion_frequency : option Q;
  mr_highlight_rate : option Q;
  mr_zoom_out_keywords : list string
}.

Definition EMPTY_MOTION_RULES : motion_rules := mkMotionRules None None [].

Definition MOTION_ZOOM_IN_KEYWORDS : list string :=
  ["loyal"; "loyalty"; "sweet"; "honest"; "memory"; "favorite memory";
   "favourite memory"; "sweetheart"; "sweethearts"; "clientele"; "client";
   "clients"; "relationship"; "relationships"; "consistency"; "consistent"
  ]%string.

Definition MOTION_ANIMATION_HINTS : list string :=
  ["zoom"; "pulse"; "bounce"; "fade"]%string.
Definition ALLOWED_MOTIONS : list string := ["zoomIn"; "zoomOut"]%string.

(** The cue chosen for one highlight (the [if]/[elif] chain). *)
Definition decide_motion (rules : motion_rules) (h : highlight)
    (existing_cue last_motion : option string) : string :=
  let combined_text :=
    lower
      (join " "
         (truthy_parts
            (Some (str_or (hl_keyword h) "")
             :: map (fun kv => Some (snd kv)) (hl_supporting h)))) in
  let animation_hint := lower (str_or (hl_animation h) "") in
  let zoom_out_hit :=
    existsb (fun word => contains word combined_text)
      (mr_zoom_out_keywords rules) in
  let has_number := existsb_string is_digit_ascii combined_text in
  let last_is_zoom_in := id_eqb last_motion (Some "zoomIn"%string) in
  if id_eqb (hl_importance h) (Some "primary"%string) then
    if zoom_out_hit && last_is_zoom_in then "zoomOut"%string
    else if has_number then "zoomIn"%string
    else if last_is_zoom_in then "zoomOut"%string
    else "zoomIn"%string
  else if has_number then "zoomIn"%string
  else if existsb (fun keyword => contains keyword combined_text)
            MOTION_ZOOM_IN_KEYWORDS then "zoomIn"%string
  else if mem_string animation_hint MOTION_ANIMATION_HINTS then "zoomIn"%string
  else if zoom_out_hit then "zoomOut"%string
  else
    match existing_cue with
    | Some cue =>
        if mem_string cue ALLOWED_MOTIONS then cue
        else if last_is_zoom_in then "zoomOut"%string else "zoomIn"%string
    | None => if last_is_zoom_in then "zoomOut"%string else "zoomIn"%string
    end.

(** The one-character string that holds a double quote. *)
Definition DOUBLE_QUOTE : string := String (ascii_of_nat 34) EmptyString.

(** The loop state: segments, [assigned], [last_motion]. *)
Definition motion_state : Type := (list segment * nat * option string)%type.

(** One iteration; [inr] is [break], [inl] goes on (also after [continue]). *)
Definition motion_step (rules : motion_rules) (max_motions : nat)
    (st : motion_state) (h : highlight) : motion_state + motion_state :=
  let '(segments, assigned, last_motion) := st in
  match hl_start h with
  | None => inl st
  | Some start =>
      match locate_segment segments start with
      | None => inl st
      | Some i =>
          match nth_error segments i with
          | None => inl st
          | Some seg =>
              let existing_cue := seg_motionCue seg in
              let has_cue := truthy_str existing_cue in
              if (max_motions <=? assigned)%nat && negb has_cue then inr st
              else
                let motion :=
                  decide_motion rules h existing_cue last_motion in
                let skip :=
                  has_cue
                  && (id_eqb existing_cue (Some motion)
                      || negb
                           ((negb (mem_string (str_or existing_cue "")
                                     ALLOWED_MOTIONS)
                             && mem_string motion ALLOWED_MOTIONS)
                            || (mem_string (str_or existing_cue "")
                                  ALLOWED_MOTIONS
                                && negb (id_eqb existing_cue (Some motion)))))
                in
                if skip then inl st
                else
                  let notes :=
                    filter
                      (fun note =>
                         negb (startswith "motion cue assigned" (lower note)))
                      (seg_notes seg) in
                  let description :=
                    strip
                      (if truthy_str (hl_text h) then str_or (hl_text h) ""
                       else if truthy_str (hl_keyword h)
                       then str_or (hl_keyword h) ""
                       else str_or (hl_title h) "") in
                  let gist :=
                    if String.eqb description "" then "highlight context"
                    else append DOUBLE_QUOTE
                           (append description DOUBLE_QUOTE) in
                  let note_text :=
                    append "Motion cue: "
                      (append motion
                         (append " emphasises " (append gist "."))) in
                  let notes :=
                    if mem_string note_text notes then notes
                    else notes ++ [note_text] in
                  inl (update_nth i (set_seg_motion seg motion notes) segments,
                       (if has_cue then assigned else S assigned),
                       Some motion)
          end
      end
  end.

Fixpoint motion_loop (rules : motion_rules) (max_motions : nat)
    (highlights : list highlight) (st : motion_state) : motion_state :=
  match highlights with
  | [] => st
  | h :: rest =>
      match motion_step rules max_motions st h with
      | inl st' => motion_loop rules max_motions rest st'
      | inr st' => st'
      end
  end.

Definition ensure_motion_from_highlights (rules : option motion_rules)
    (p : plan) : plan :=
  let rules := match rules with Some r => r | None => EMPTY_MOTION_RULES end in
  match plan_segments p, plan_highlights p with
  | [], _ => p
  | _, [] => p
  | segments, highlights =>
      let max_motions :=
        Nat.max 1
          (ceil_nat (inject_Z (Z.of_nat (List.length segments))
                     * numd (mr_motion_frequency rules) (5 # 10))) in
      let assigned :=
        List.length
          (filter (fun seg => truthy_str (seg_motionCue seg)) segments) in
      set_segments p
        (fst (fst (motion_loop rules max_motions highlights
                     (segments, assigned, None))))
  end.

(* --------------------------------------------------------------------- *)
(** ** The scene-driven loop of enrich_plan *)
(* --------------------------------------------------------------------- *)

(** An entry of the scene map. *)
Record scene : Type := mkScene {
  sc_start : option Q;
  sc_end : option Q;
  sc_topics : list string;
  sc_motionCandidates : list string;
  sc_tokens : list string;
  sc_sfxHints : list string;
  sc_highlightScore : option Q;
  sc_textOneLine : option string;
  sc_cta : bool
}.

Record SceneSummary : Type := mkSceneSummary {
  ss_start : Q;
  ss_end : Q;
  ss_topics : list string;
  ss_highlight_score : Q;
  ss_motion_candidates : list string;
  ss_tokens : list string;
  ss_text : string;
  ss_cta : bool;
  ss_sfx_hints : list string
}.

(** The [duration] property. *)
Definition ss_duration (s : SceneSummary) : Q :=
  fmax 0 (ss_end s - ss_start s).

Definition overlap_seconds (a_start a_end b_start b_end : Q) : Q :=
  fmax 0 (fmin a_end b_end - fmax a_start b_start).

Fixpoint replace_char (a b : ascii) (s : string) : string :=
  match s with
  | EmptyString => EmptyString
  | String c r => String (if Ascii.eqb c a then b else c) (replace_char a b r)
  end.

(** [s.split(sep)] for a one-character separator. *)
Fixpoint split_on_aux (sep : ascii) (s : string) (cur : string) : list string :=
  match s with
  | EmptyString => [string_rev cur]
  | String c r =>
      if Ascii.eqb c sep then string_rev cur :: split_on_aux sep r EmptyString
      else split_on_aux sep r (String c cur)
  end.
Definition split_on (sep : ascii) (s : string) : list string :=
  split_on_aux sep s EmptyString.

(** [s.title()]: a letter is upper-cased after a non-letter, lower-cased
    after a letter. *)
Fixpoint title_aux (after_letter : bool) (s : string) : string :=
  match s with
  | EmptyString => EmptyString
  | String c r =>
      if is_alpha_ascii c then
        String (if after_letter then lower_ascii c else upper_ascii c)
          (title_aux true r)
      else String c (title_aux false r)
  end.
Definition title (s : string) : string := title_aux false s.

Definition camel_case_motion (name : string) : string :=
  let normalized :=
    lower (replace_char " " "_" (replace_char "-" "_" (strip name))) in
  let parts :=
    filter (fun part => negb (String.eqb part ""))
      (split_on "_" normalized) in
  match parts with
  | [] => ""
  | first :: rest => append first (join "" (map title rest))
  end.

(** [collections.Counter]: counts in order of first insertion. *)
Definition counter : Type := list (string * nat).

Fixpoint counter_add (k : string) (c : counter) : counter :=
  match c with
  | [] => [(k, 1%nat)]
  | (k', n) :: r =>
      if String.eqb k k' then (k', S n) :: r else (k', n) :: counter_add k r
  end.

Definition counter_update (c : counter) (keys : list string) : counter :=
  fold_left (fun c k => counter_add k c) keys c.

Definition most_common (n : nat) (c : counter) : list string :=
  map fst
    (firstn n
       (stable_sort (fun a b : string * nat => (snd b <=? snd a)%nat) c)).

Definition add_new (x : string) (l : list string) : list string :=
  if mem_string x l then l else l ++ [x].

(** The accumulators of [aggregate_scene_for_segment]. *)
Record scene_acc : Type := mkSceneAcc {
  acc_topics : counter;
  acc_motion : list string;
  acc_tokens : counter;
  acc_sfx : counter;
  acc_score_total : Q;
  acc_weight : Q;
  acc_texts : list string;
  acc_cta : bool
}.

Definition aggregate_step (start end_ : Q) (a : scene_acc) (sc : scene)
    : scene_acc :=
  let scene_start := numd (sc_start sc) 0 in
  let scene_end := numd (sc_end sc) scene_start in
  let weight := overlap_seconds start end_ scene_start scene_end in
  if Qleb weight 0 then a
  else
    mkSceneAcc
      (counter_update (acc_topics a) (sc_topics sc))
      (fold_left
         (fun l candidate =>
            let motion_name := camel_case_motion candidate in
            if String.eqb motion_name "" then l else add_new motion_name l)
         (sc_motionCandidates sc) (acc_motion a))
      (counter_update (acc_tokens a) (sc_tokens sc))
      (counter_update (acc_sfx a) (sc_sfxHints sc))
      (acc_score_total a + numd (sc_highlightScore sc) 0 * weight)
      (acc_weight a + weight)
      (if truthy_str (sc_textOneLine sc)
       then acc_texts a ++ [str_or (sc_textOneLine sc) ""]
       else acc_texts a)
      (acc_cta a || sc_cta sc).

Definition aggregate_scene_for_segment (plan_segment : segment)
    (scene_segments : list scene) : option SceneSummary :=
  let start := numd (seg_sourceStart plan_segment) 0 in
  let end_ := start + numd (seg_duration plan_segment) 0 in
  if Qleb end_ start then None
  else
    let a :=
      fold_left (aggregate_step start end_) scene_segments
        (mkSceneAcc [] [] [] [] 0 0 [] false) in
    if Qeqb (acc_weight a) 0 then None
    else
      Some
        (mkSceneSummary start end_
           (most_common 6 (acc_topics a))
           (acc_score_total a / acc_weight a)
           (acc_motion a)
           (most_common 24 (acc_tokens a))
           (join " " (acc_texts a))
           (acc_cta a)
           (most_common 8 (acc_sfx a))).

(** The elements of [set(a) & set(b)], sorted. *)
Definition sorted_overlap (a b : list string) : list string :=
  stable_sort String.leb
    (nodup string_dec (filter (fun x => mem_string x b) a)).

(** [repr] of a list of plain strings. *)
Definition list_repr (l : list string) : string :=
  append "[" (append (join ", " (map (fun s => append "'" (append s "'")) l))
                "]").

Definition score_broll_item (item : broll_item) (sc : SceneSummary)
    : Q * list string :=
  let topic_overlap :=
    sorted_overlap (map lower (bi_topics item)) (map lower (ss_topics sc)) in
  let '(score, reasons) :=
    match topic_overlap with
    | [] => (0, [])
    | _ =>
        ((25 # 10) * inject_Z (Z.of_nat (List.length topic_overlap)),
         [append "topics match " (list_repr topic_overlap)])
    end in
  let token_hits :=
    sorted_overlap (ss_tokens sc) (map lower (bi_keywords item)) in
  let '(score, reasons) :=
    match token_hits with
    | [] => (score, reasons)
    | _ =>
        (score + 1 * inject_Z (Z.of_nat (List.length token_hits)),
         reasons ++ [append "keywords hit " (list_repr token_hits)])
    end in
  let '(score, reasons) :=
    match bi_mood item with
    | [] => (score, reasons)
    | _ =>
        if Qleb (7 # 10) (ss_highlight_score sc)
        then (score + (4 # 10),
              reasons ++ ["highlight scene prefers mood assets"])
        else (score, reasons)
    end in
  let score :=
    if id_eqb (bi_mediaType item) (Some "video") then score + (3 # 10)
    else score in
  let score :=
    if id_eqb (bi_orientation item) (Some "landscape") then score + (1 # 10)
    else score in
  (score, match reasons with [] => ["fallback"] | _ => reasons end).

(** The best-scoring item of the loop in [select_broll]. *)
Fixpoint best_broll (sc : SceneSummary) (items : list broll_item)
    (best : option broll_item) (best_score : Q) (best_reasons : list string)
    : option broll_item * Q * list string :=
  match items with
  | [] => (best, best_score, best_reasons)
  | item :: rest =>
      let '(score, reasons) := score_broll_item item sc in
      if Qltb best_score score then best_broll sc rest (Some item) score reasons
      else best_broll sc rest best best_score best_reasons
  end.

(** [select_broll]: the id, file, confidence and reasons of the choice. *)
Definition select_broll (sc : SceneSummary) (items : list broll_item)
    (threshold : Q) : option (option string * option string * Q * list string) :=
  match items with
  | [] => None
  | _ =>
      let filtered_items :=
        filter
          (fun item =>
             Qleb (ss_duration sc * (8 # 10)) (numd (bi_duration item) 0))
          items in
      match filtered_items with
      | [] => None
      | _ =>
          match best_broll sc filtered_items None 0 [] with
          | (Some best_item, best_score, best_reasons) =>
              if Qltb best_score threshold
                 || Qltb (ss_highlight_score sc) (6 # 10)
              then None
              else Some (bi_id best_item, bi_file best_item,
                         round2 best_score, best_reasons)
          | (None, _, _) => None
          end
      end
  end.

Definition select_motion_cue (sc : SceneSummary) (rules : motion_rules)
    (assigned_so_far total_segments : nat) : option string :=
  let frequency := numd (mr_motion_frequency rules) 0 in
  let max_segments :=
    if Qltb 0 frequency
    then Qceiling (inject_Z (Z.of_nat total_segments) * frequency)
    else Z.of_nat total_segments in
  if (max_segments <=? Z.of_nat assigned_so_far)%Z then None
  else
    match ss_motion_candidates sc with
    | candidate :: _ => Some candidate
    | [] =>
        if Qleb (numd (mr_highlight_rate rules) 0) (ss_highlight_score sc)
        then Some "zoomIn"
        else if Qleb (4 # 10) (ss_highlight_score sc)
                && Qltb 5 (ss_duration sc)
        then Some "pan"
        else if Qltb (ss_highlight_score sc) (4 # 10)
                && Qltb 3 (ss_duration sc)
        then Some "zoomOut"
        else None
    end.

(** The body of [for segment in segments:] in [enrich_plan]; the state is
    [assigned_motion]. *)
Definition enrich_segment (scene_segments : list scene)
    (broll_catalog : option (list broll_item))
    (rules : option motion_rules) (broll_threshold : Q)
    (total_segments : nat) (assigned_motion : nat) (seg : segment)
    : segment * nat :=
  let kind :=
    match seg_kind seg with Some k => Some k | None => Some "normal" end in
  match aggregate_scene_for_segment seg scene_segments with
  | None =>
      (mkSegment (seg_id seg) (seg_sourceStart seg) (seg_duration seg)
         (seg_label seg) (seg_title seg) kind (seg_broll seg)
         (seg_motionCue seg)
         (seg_notes seg
          ++ ["No matching scene metadata; skipped B-roll and motion cue."])
         (seg_sfxHints seg) (seg_transitionIn seg) (seg_transitionOut seg),
       assigned_motion)
  | Some scene_summary =>
      let '(broll_value, notes) :=
        match broll_catalog with
        | None => (seg_broll seg, [])
        | Some items =>
            match select_broll scene_summary items broll_threshold with
            | Some (bid, bfile, confidence, reasons) =>
                (Some (mkBroll bid bfile "full" confidence reasons None),
                 [append "B-roll assigned: "
                    (append (str_or bid "None")
                       (append " (" (append (join ", " reasons) ")")))])
            | None => (seg_broll seg, ["No B-roll match above threshold."])
            end
        end in
      let '(cue, assigned_motion', notes) :=
        match rules with
        | None => (seg_motionCue seg, assigned_motion, notes)
        | Some r =>
            match
              select_motion_cue scene_summary r assigned_motion total_segments
            with
            | Some motion_cue =>
                if String.eqb motion_cue "" then
                  (seg_motionCue seg, assigned_motion, notes)
                else
                  (Some motion_cue, S assigned_motion,
                   notes ++ [append "Motion cue assigned: " motion_cue])
            | None => (seg_motionCue seg, assigned_motion, notes)
            end
        end in
      let '(hints, notes) :=
        match ss_sfx_hints scene_summary, seg_sfxHints seg with
        | _ :: _, None =>
            (Some (ss_sfx_hints scene_summary),
             notes ++ [append "SFX hints propagated: "
                         (join ", " (ss_sfx_hints scene_summary))])
        | _, _ => (seg_sfxHints seg, notes)
        end in
      (mkSegment (seg_id seg) (seg_sourceStart seg) (seg_duration seg)
         (seg_label seg) (seg_title seg) kind broll_value cue
         (seg_notes seg ++ notes) hints (seg_transitionIn seg)
         (seg_transitionOut seg),
       assigned_motion')
  end.

Fixpoint enrich_segments_loop (scene_segments : list scene)
    (broll_catalog : option (list broll_item))
    (rules : option motion_rules) (broll_threshold : Q)
    (total_segments : nat) (assigned_motion : nat) (segments : list segment)
    : list segment :=
  match segments with
  | [] => []
  | seg :: rest =>
      let '(seg', assigned') :=
        enrich_segment scene_segments broll_catalog rules broll_threshold
          total_segments assigned_motion seg in
      seg' :: enrich_segments_loop scene_segments broll_catalog rules
                broll_threshold total_segments assigned' rest
  end.

(** What [enrich_plan] does to the segments. The CTA highlight and the
    section cards it then injects only touch [plan["highlights"]]; they are
    not part of this model. *)
Definition enrich_plan_segments (p : plan) (scene_segments : list scene)
    (broll_catalog : option (list broll_item))
    (rules : option motion_rules) (broll_threshold : Q) : plan :=
  set_segments p
    (enrich_segments_loop scene_segments broll_catalog rules broll_threshold
       (List.length (plan_segments p)) 0 (plan_segments p)).

(** The passes [main] runs on the enriched plan, from the spacing resolver
    on. *)
Definition finalize_plan (broll_catalog : option (list broll_item))
    (rules : option motion_rules) (sfx_catalog : option (list sfx_item))
    (p : plan) : plan :=
  strip_non_section_sfx
    (ensure_highlight_sfx sfx_catalog
       (ensure_motion_from_highlights rules
          (ensure_broll_from_highlights broll_catalog
             (trim_highlights_to_segments
                (prune_highlights (enforce_highlight_spacing p)))))).

(* --------------------------------------------------------------------- *)
(** ** Raw JSON values and Python's handling of them (make_plan.py) *)
(* --------------------------------------------------------------------- *)

Inductive exn : Type := ValueError | TypeError | AttributeError.

Inductive result (A : Type) : Type :=
| Ok (a : A)
| Raise (e : exn).
Arguments Ok {A} a.
Arguments Raise {A} e.

Definition bind {A B : Type} (m : result A) (k : A -> result B) : result B :=
  match m with
  | Ok a => k a
  | Raise e => Raise e
  end.

Notation "x <- m ;; k" := (bind m (fun x => k))
  (at level 61, m at next level, right associativity).

(** [d.get(k)], [d.get(k, default)], [k in d], [d[k] = v],
    [d.setdefault(k, v)]. *)
Definition dict_find (k : string) (d : dict) : option value := assoc k d.

Definition get (d : dict) (k : string) : value :=
  match dict_find k d with Some v => v | None => VNone end.

Definition get_default (d : dict) (k : string) (dflt : value) : value :=
  match dict_find k d with Some v => v | None => dflt end.

Definition has_key (d : dict) (k : string) : bool :=
  match dict_find k d with Some _ => true | None => false end.

Fixpoint dict_set (k : string) (v : value) (d : dict) : dict :=
  match d with
  | [] => [(k, v)]
  | (k', v') :: r =>
      if String.eqb k k' then (k', v) :: r else (k', v') :: dict_set k v r
  end.

Definition setdefault (k : string) (v : value) (d : dict) : dict :=
  if has_key d k then d else dict_set k v d.

(** Truth value of an object; [a or b]. *)
Definition truthy (v : value) : bool :=
  match v with
  | VNone => false
  | VBool b => b
  | VNum q => negb (Qeqb q 0)
  | VStr s => negb (String.eqb s "")
  | VList l => match l with [] => false | _ => true end
  | VDict d => match d with [] => false | _ => true end
  end.

Definition py_or (a b : value) : value := if truthy a then a else b.

(** [isinstance(v, str)] and the string methods, which raise
    [AttributeError] on any other object. *)
Definition as_str (v : value) : result string :=
  match v with
  | VStr s => Ok s
  | _ => Raise AttributeError
  end.

Definition is_dict (v : value) : bool :=
  match v with VDict _ => true | _ => false end.

Definition is_none (v : value) : bool :=
  match v with VNone => true | _ => false end.

(** [(a or b or "").strip()] *)
Definition strip_of (v : value) : result string :=
  s <- as_str v ;; Ok (strip s).
Definition lower_of (v : value) : result string :=
  s <- as_str v ;; Ok (lower s).

(** Removing the characters [" "], ["-"] and ["_"], as the chained
    [replace] calls do. *)
Fixpoint remove_chars (p : ascii -> bool) (s : string) : string :=
  match s with
  | EmptyString => EmptyString
  | String c r => if p c then remove_chars p r else String c (remove_chars p r)
  end.
Definition is_separator (c : ascii) : bool :=
  Ascii.eqb c " " || Ascii.eqb c "-" || Ascii.eqb c "_".
Definition squash_key (s : string) : string :=
  remove_chars is_separator (lower (strip s)).

(** [s.split()]: the runs of non-blank characters. *)
Fixpoint split_ws_aux (s : string) (cur : string) : list string :=
  match s with
  | EmptyString => if String.eqb cur "" then [] else [string_rev cur]
  | String c r =>
      if is_space_ascii c then
        if String.eqb cur "" then split_ws_aux r ""
        else string_rev cur :: split_ws_aux r ""
      else split_ws_aux r (String c cur)
  end.
Definition split_ws (s : string) : list string := split_ws_aux s "".

(** [s.isupper()]: some cased character, none of them lower case. *)
Definition isupper (s : string) : bool :=
  existsb_string is_upper_ascii s && negb (existsb_string is_lower_ascii s).

(** [s.capitalize()] *)
Definition capitalize (s : string) : string :=
  match s with
  | EmptyString => EmptyString
  | String c r => String (upper_ascii c) (lower r)
  end.

(** Decimal digits of a natural number; [f"{n:02d}"]. *)
Fixpoint digits_aux (fuel n : nat) (acc : string) : string :=
  match fuel with
  | O => acc
  | S f =>
      let d := String (ascii_of_nat (48 + n mod 10)) acc in
      if (n <? 10)%nat then d else digits_aux f (n / 10) d
  end.
Definition nat_to_string (n : nat) : string := digits_aux (S n) n "".
Definition pad2 (n : nat) : string :=
  if (n <? 10)%nat then append "0" (nat_to_string n) else nat_to_string n.

(** [int(s)] for a string of decimal digits. *)
Fixpoint digits_value (s : string) (acc : Z) : option Z :=
  match s with
  | EmptyString => Some acc
  | String c r =>
      if is_digit_ascii c
      then digits_value r (acc * 10 + Z.of_nat (nat_of_ascii c - 48))%Z
      else None
  end.
Definition int_of_digits (s : string) : option Z :=
  match s with
  | EmptyString => None
  | _ => digits_value s 0%Z
  end.

(* --------------------------------------------------------------------- *)
(** ** The phrase sanitiser: sanitize_highlight_text *)
(* --------------------------------------------------------------------- *)

Definition HIGHLIGHT_STOPWORDS : list string :=
  ["a";"an";"the";"and";"or";"but";"so";"yet";"nor";"to";"of";"in";"on";"at";
   "by";"for";"from";"with";"without";"into";"onto";"about";"around";"over";
   "under";"after";"before";"between";"among";"through";"during";"within";
   "across";"against";"toward";"towards";"upon";"via";"this";"that";"these";
   "those";"there";"here";"then";"than";"when";"where";"while";"because";
   "since";"if";"though";"although";"unless";"until";"very";"really";"just";
   "maybe";"perhaps";"quite";"rather";"some";"any";"each";"every";"either";
   "neither";"both";"many";"much";"few";"little";"more";"most";"less";
   "least";"own";"same";"such";"i";"me";"my";"mine";"myself";"we";"us";"our";
   "ours";"ourselves";"you";"your";"yours";"yourself";"yourselves";"he";
   "him";"his";"himself";"she";"her";"hers";"herself";"it";"its";"itself";
   "they";"them";"their";"theirs";"themselves";"who";"whom";"whose";"which";
   "what";"whatever";"whoever";"whichever";"someone";"something";"anyone";
   "anything";"everyone";"everything";"not";"no";"yes";"ok";"okay";"uh";"um";
   "hmm";"ve";"re";"ll";"d";"s";"m"].

Definition ALLOWED_CONNECTORS : list string :=
  ["of"; "for"; "and"; "&"; "in"; "on"; "vs"; "versus"; "to"; "with"].

Definition NORMALIZER_VERB_TOKENS : list string :=
  ["be";"am";"is";"are";"was";"were";"being";"been";"do";"does";"did";
   "doing";"have";"has";"had";"having";"will";"would";"shall";"should";"can";
   "could";"may";"might";"must";"need"].

Definition SECTION_TITLE_SUFFIXES : list string :=
  ["Overview"; "Insights"; "Focus"; "Spotlight"; "Framework"; "Recap";
   "Summary"].

(** [_TOKEN_SANITIZER.sub(" ", token.strip())] *)
Definition clean_token (token : string) : string :=
  join " " (split_ws token).

Fixpoint drop_connectors (tokens : list string) : list string :=
  match tokens with
  | [] => []
  | t :: r => if mem_string (lower t) ALLOWED_CONNECTORS
              then drop_connectors r else tokens
  end.

Definition trim_edge_connectors (tokens : list string) : list string :=
  rev (drop_connectors (rev (drop_connectors tokens))).

(** [_has_future_content(start)] on the tokens from [start] on. *)
Definition has_future_content (future : list string) : bool :=
  existsb
    (fun token =>
       let candidate := strip token in
       negb (String.eqb candidate "")
       && negb (mem_string (lower candidate) NORMALIZER_VERB_TOKENS)
       && existsb_string is_alnum_ascii candidate)
    future.

(** The loop of [_filter_tokens_to_noun_phrase]; [selected] grows at its
    end. *)
Fixpoint select_noun_tokens (tokens : list string) (selected : list string)
    : list string :=
  match tokens with
  | [] => selected
  | token :: rest =>
      let normalized := clean_token token in
      if String.eqb normalized "" then select_noun_tokens rest selected
      else
        let lower_token := lower normalized in
        if mem_string lower_token ALLOWED_CONNECTORS then
          match selected with
          | _ :: _ =>
              if has_future_content rest
              then select_noun_tokens rest (selected ++ [lower_token])
              else select_noun_tokens rest selected
          | [] => select_noun_tokens rest selected
          end
        else if mem_string lower_token NORMALIZER_VERB_TOKENS
        then select_noun_tokens rest selected
        else if negb (existsb_string is_alnum_ascii normalized)
        then select_noun_tokens rest selected
        else select_noun_tokens rest (selected ++ [normalized])
  end.

(** The loop that keeps tokens until [max_tokens] content words are in. *)
Fixpoint limit_tokens (max_tokens : nat) (tokens : list string)
    (content_count : nat) : list string :=
  match tokens with
  | [] => []
  | token :: rest =>
      let content_count :=
        if mem_string (lower token) ALLOWED_CONNECTORS then content_count
        else S content_count in
      if (max_tokens <=? content_count)%nat then [token]
      else token :: limit_tokens max_tokens rest content_count
  end.

Definition filter_tokens_to_noun_phrase (tokens : list string)
    (max_tokens : option nat) : list string :=
  let cleaned :=
    filter (fun t => negb (String.eqb t "")) (map clean_token tokens) in
  match cleaned with
  | [] => []
  | _ =>
      let filtered :=
        match trim_edge_connectors (select_noun_tokens cleaned []) with
        | [] => cleaned
        | l => l
        end in
      match max_tokens with
      | Some (S m) =>
          match trim_edge_connectors (limit_tokens (S m) filtered 0) with
          | [] => filtered
          | l => l
          end
      | _ => filtered
      end
  end.

Definition sanitize_highlight_text (value : string) : string :=
  if String.eqb value "" then value
  else
    let original := join " " (split_ws value) in
    if String.eqb original "" then original
    else
      let tokens := alnum_tokens original in
      match tokens with
      | [] => original
      | _ =>
          let filtered :=
            filter (fun t => negb (mem_string (lower t) HIGHLIGHT_STOPWORDS))
              tokens in
          let candidate_tokens :=
            match filtered with [] => tokens | _ => filtered end in
          let candidate_tokens :=
            match filter_tokens_to_noun_phrase candidate_tokens (Some 6%nat)
            with
            | [] => candidate_tokens
            | noun_tokens => noun_tokens
            end in
          let candidate_tokens :=
            if (List.length candidate_tokens <? 2)%nat then
              let fallback_tokens :=
                filter
                  (fun t =>
                     negb (mem_string (lower t)
                             ["uh"; "um"; "ok"; "okay"; "hmm"]))
                  tokens in
              if (2 <=? List.length fallback_tokens)%nat
              then firstn 4 fallback_tokens
              else firstn 4 tokens
            else candidate_tokens in
          let phrase := strip (join " " candidate_tokens) in
          let phrase := if String.eqb phrase "" then original else phrase in
          if isupper phrase then phrase
          else
            let normalized :=
              join " "
                (map (fun word => if isupper word then word
                                  else capitalize word)
                   (split_ws phrase)) in
            if (String.length normalized <=? 1)%nat then original
            else if (List.length (split_ws normalized) =? 1)%nat
                    && (2 <=? List.length (split_ws original))%nat
            then
              match join " " (map capitalize (firstn 2 tokens)) with
              | "" => normalized
              | fallback => fallback
              end
            else normalized
      end.

(** [sum(ord(ch) for ch in highlight_id)] *)
Fixpoint ord_sum (s : string) : nat :=
  match s with
  | EmptyString => O
  | String c r => (nat_of_ascii c + ord_sum r)%nat
  end.

Definition format_section_title (highlight_id base_phrase : string)
    : string * string :=
  let sanitized :=
    if String.eqb base_phrase "" then ""
    else sanitize_highlight_text base_phrase in
  let sanitized := if String.eqb sanitized "" then "Key Theme" else sanitized in
  let suffix :=
    nth (ord_sum highlight_id mod List.length SECTION_TITLE_SUFFIXES)
      SECTION_TITLE_SUFFIXES "" in
  let display :=
    if contains (lower suffix) (lower sanitized) then sanitized
    else append sanitized (append " " suffix) in
  (display, upper display).

(* --------------------------------------------------------------------- *)
(** ** The schema normaliser (make_plan.py) *)
(* --------------------------------------------------------------------- *)

Definition TRANSITION_TYPES : list string :=
  ["cut"; "crossfade"; "slide"; "zoom"; "scale"; "rotate"; "blur"].
Definition TRANSITION_DIRECTIONS : list string :=
  ["left"; "right"; "up"; "down"].
Definition HIGHLIGHT_POSITIONS : list string := ["bottom"; "center"].
Definition HIGHLIGHT_VARIANTS : list string :=
  ["callout"; "blurred"; "brand"; "cutaway"; "typewriter"].
Definition MAX_HIGHLIGHTS : nat := 18.
Definition DEFAULT_HIGHLIGHT_DURATION : Q := 26 # 10.

Definition HIGHLIGHT_TYPE_MAP : list (string * string) :=
  [ ("highlight", "noteBox"); ("caption", "noteBox"); ("callout", "noteBox");
    ("notebox", "noteBox"); ("notecard", "noteBox"); ("quote", "noteBox");
    ("typewriter", "typewriter"); ("section", "sectionTitle");
    ("sectiontitle", "sectionTitle"); ("titlecard", "sectionTitle");
    ("chapter", "sectionTitle"); ("icon", "icon"); ("iconhighlight", "icon") ].

Definition ANIMATION_MAP : list (string * string) :=
  [ ("fade", "fade"); ("fadein", "fade"); ("zoom", "zoom"); ("zoomin", "zoom");
    ("punch", "pop"); ("punchin", "pop"); ("pop", "pop"); ("popin", "pop");
    ("bounce", "bounce"); ("float", "float"); ("floating", "float");
    ("flip", "flip"); ("spin", "spin"); ("rotate", "spin");
    ("typewriter", "typewriter"); ("pulse", "pulse"); ("breath", "pulse");
    ("beat", "pulse"); ("slide", "slide"); ("slideup", "slide");
    ("slidedown", "slide"); ("slideleft", "slide"); ("slideright", "slide") ].

Definition VARIANT_MAP : list (string * string) :=
  [ ("callout", "callout"); ("default", "callout"); ("bubble", "callout");
    ("blur", "blurred"); ("blurred", "blurred");
    ("blurredbackdrop", "blurred"); ("brand", "brand");
    ("brandpanel", "brand"); ("cutaway", "cutaway"); ("black", "cutaway");
    ("typewriter", "typewriter") ].

(** A parsed subtitle entry. *)
Record SrtEntry : Type := mkSrtEntry {
  srt_index : Z;
  srt_start : string;
  srt_end : string;
  srt_text : string
}.

Definition is_linebreak (c : ascii) : bool :=
  let n := nat_of_ascii c in
  ((10 <=? n)%nat && (n <=? 13)%nat) || ((28 <=? n)%nat && (n <=? 30)%nat).

Fixpoint split_lines_aux (s : string) (cur : string) : list string :=
  match s with
  | EmptyString => [string_rev cur]
  | String c r =>
      if is_linebreak c then string_rev cur :: split_lines_aux r ""
      else split_lines_aux r (String c cur)
  end.

(** The [text_one_line] property: the non-blank lines, stripped and joined. *)
Definition text_one_line (e : SrtEntry) : string :=
  join " "
    (filter (fun l => negb (String.eqb l ""))
       (map strip (split_lines_aux (srt_text e) ""))).

(** [int(s)]: blanks around an optional sign and decimal digits. *)
Definition py_int (s : string) : option Z :=
  match strip s with
  | String "-" r => option_map Z.opp (int_of_digits r)
  | String "+" r => int_of_digits r
  | r => int_of_digits r
  end.

(** [seconds_from_timecode]: [ValueError] when the value does not unpack
    into [HH:MM:SS,mmm] or a part is not an integer. *)
Definition seconds_from_timecode (v : string) : result Q :=
  match split_on ":" v with
  | [hours; minutes; remainder] =>
      match split_on "," remainder with
      | [seconds; millis] =>
          match py_int hours, py_int minutes, py_int seconds, py_int millis with
          | Some h, Some m, Some s, Some ms =>
              Ok (inject_Z (h * 3600 + m * 60 + s)%Z + inject_Z ms / 1000)
          | _, _, _, _ => Raise ValueError
          end
      | _ => Raise ValueError
      end
  | _ => Raise ValueError
  end.

Fixpoint string_drop (n : nat) (s : string) : string :=
  match n, s with
  | O, _ => s
  | S m, String _ r => string_drop m r
  | S _, EmptyString => EmptyString
  end.

(** [SRT_HIGHLIGHT_ID_RE.match(s)]: [srt-] and digits up to the end, or up
    to a final line feed. *)
Definition srt_id_index (s : string) : option Z :=
  if startswith "srt-" s then
    let rest := string_drop 4 s in
    match string_rev rest with
    | String c r =>
        if Ascii.eqb c (ascii_of_nat 10) then int_of_digits (string_rev r)
        else int_of_digits rest
    | EmptyString => None
    end
  else None.

Definition srt_find (srt_lookup : list SrtEntry) (i : Z) : option SrtEntry :=
  find (fun e => Z.eqb (srt_index e) i) (rev srt_lookup).

Definition opt_str_truthy (o : option string) : option string :=
  match o with
  | Some s => if String.eqb s "" then None else Some s
  | None => None
  end.

Definition set_if (c : bool) (k : string) (v : value) (d : dict) : dict :=
  if c then dict_set k v d else d.

Definition set_nonempty (k : string) (s : string) (d : dict) : dict :=
  set_if (negb (String.eqb s "")) k (VStr s) d.

Section Normalizer.

(** Python built-ins and the asset lookup the normaliser calls:
    [float(s)] of a string ([None] is [ValueError]), [str(v)] of an object
    that is not a string, and [normalize_sfx_name], which consults the table
    of sound files found on disk. *)
Variable float_of_string : string -> option Q.
Variable repr_of : value -> string.
Variable normalize_sfx_name : value -> option string.

Definition py_str (v : value) : string :=
  match v with
  | VStr s => s
  | _ => repr_of v
  end.

(** [float(v)] *)
Definition float_of (v : value) : result Q :=
  match v with
  | VNum q => Ok q
  | VBool b => Ok (if b then 1 else 0)
  | VStr s =>
      match float_of_string s with
      | Some q => Ok q
      | None => Raise ValueError
      end
  | _ => Raise TypeError
  end.

Definition ensure_float (v : value) (default : Q) : Q :=
  match float_of v with
  | Ok q => q
  | Raise _ => default
  end.

Definition ensure_bool (v : value) (default : bool) : bool :=
  match v with
  | VBool b => b
  | VNum q => negb (Qeqb q 0)
  | VStr s =>
      let normalized := lower (strip s) in
      if String.eqb normalized "" then default
      else if mem_string normalized ["true"; "1"; "yes"; "y"; "on"] then true
      else if mem_string normalized ["false"; "0"; "no"; "n"; "off"] then false
      else default
  | VNone => default
  | _ => truthy v
  end.

Definition normalize_camera_movement (v : value) : option string :=
  match v with
  | VNone => None
  | _ =>
      let normalized := squash_key (py_str v) in
      if mem_string normalized ["zoomin"; "pushin"; "push"] then Some "zoomIn"
      else if mem_string normalized ["zoomout"; "pullback"; "pull"]
      then Some "zoomOut"
      else None
  end.

(** The part of [normalize_transition] after the raw fields are read. *)
Definition finish_transition (transition_type : string)
    (direction : option string) (duration_value intensity_value : option Q)
    : dict :=
  let '(transition_type, direction) :=
    if mem_string transition_type ["fade"; "dissolve"]
    then ("crossfade", direction)
    else if mem_string transition_type
              ["slide-left"; "slide-right"; "slide-up"; "slide-down"]
    then ("slide",
          match find (fun c => contains c transition_type)
                  TRANSITION_DIRECTIONS with
          | Some c => Some c
          | None => direction
          end)
    else if mem_string transition_type
              ["zoom-in"; "zoom-out"; "push"; "push-in"; "push-out"; "punch";
               "punch-in"; "punch-out"]
    then ("zoom", direction)
    else if mem_string transition_type
              ["scale-up"; "scale-down"; "grow"; "shrink"]
    then ("scale", direction)
    else if mem_string transition_type ["spin"; "twist"; "turn"]
    then ("rotate", direction)
    else if mem_string transition_type
              ["focus"; "defocus"; "dream"; "soft-focus"; "soften"]
    then ("blur", direction)
    else (transition_type, direction) in
  let transition_type :=
    if mem_string transition_type TRANSITION_TYPES then transition_type
    else "cut" in
  if String.eqb transition_type "cut" then [("type", VStr "cut")]
  else
    let duration_value :=
      match duration_value with
      | Some d => if Qltb 0 d then d else 6 # 10
      | None => 6 # 10
      end in
    let duration_value := fmax (1 # 10) (fmin duration_value 3) in
    let intensity_value :=
      match intensity_value with
      | Some i =>
          if Qleb i 0 then None
          else Some (round3 (fmax (5 # 100) (fmin i (6 # 10))))
      | None => None
      end in
    let transition :=
      [("type", VStr transition_type);
       ("duration", VNum (round3 duration_value))] in
    let transition :=
      match direction with
      | Some dir =>
          set_if (String.eqb transition_type "slide"
                  && mem_string dir TRANSITION_DIRECTIONS)
            "direction" (VStr dir) transition
      | None => transition
      end in
    match intensity_value with
    | Some i =>
        set_if (mem_string transition_type ["zoom"; "scale"; "rotate"; "blur"]
                && negb (Qeqb i 0))
          "intensity" (VNum i) transition
    | None => transition
    end.

Definition normalize_transition (v : value) : result (option dict) :=
  match v with
  | VStr s => Ok (Some (finish_transition (lower s) None None None))
  | VDict d =>
      transition_type <-
        lower_of (py_or (py_or (get d "type") (get d "style")) (VStr "")) ;;
      direction <-
        lower_of (py_or (py_or (get d "direction") (get d "dir")) (VStr "")) ;;
      let duration_value :=
        ensure_float
          (get_default d "duration" (get_default d "length" (VNum 0))) 0 in
      let intensity_value :=
        ensure_float
          (get_default d "intensity" (get_default d "strength" (VNum 0))) 0 in
      Ok (Some (finish_transition transition_type
                  (opt_str_truthy (Some direction))
                  (Some duration_value) (Some intensity_value)))
  | _ => Ok None
  end.

(** [a or b or ""] then [.strip()] *)
Definition strip_field2 (raw : dict) (a b : string) : result string :=
  strip_of (py_or (py_or (get raw a) (get raw b)) (VStr "")).
Definition strip_field1 (raw : dict) (a : string) : result string :=
  strip_of (py_or (get raw a) (VStr "")).

(** The canonical type of a raw highlight, [None] when the raw type is not a
    string. *)
Definition resolve_highlight_type (raw : dict) : option string :=
  match py_or (get raw "type") (get raw "kind") with
  | VStr s =>
      Some (match assoc (squash_key s) HIGHLIGHT_TYPE_MAP with
            | Some t => t
            | None => strip s
            end)
  | _ => None
  end.

(** The subtitle entry a highlight id of the form [srt-N] points to. *)
Definition linked_srt_entry (srt_lookup : list SrtEntry)
    (highlight_id : string) : option SrtEntry :=
  match srt_lookup with
  | [] => None
  | _ =>
      match srt_id_index (lower highlight_id) with
      | Some i => srt_find srt_lookup i
      | None => None
      end
  end.

(** Start and duration of a highlight before the subtitle entry is looked
    at. *)
Definition raw_highlight_timing (raw : dict) : Q * Q :=
  let start :=
    ensure_float (get_default raw "start" (get_default raw "time" (VNum 0)))
      0 in
  let start := fmax 0 start in
  let duration :=
    ensure_float
      (get_default raw "duration" (get_default raw "length" (VNum 0)))
      DEFAULT_HIGHLIGHT_DURATION in
  let duration :=
    if Qleb duration 0 then
      let end_time := ensure_float (get raw "end") 0 in
      if Qltb start end_time then end_time - start else duration
    else duration in
  let duration :=
    if Qleb duration 0 then DEFAULT_HIGHLIGHT_DURATION else duration in
  (start, fmax (15 # 10) (fmin duration 5)).

(** Start and duration once the linked subtitle entry has been applied. *)
Definition highlight_timing (raw : dict) (srt_entry : option SrtEntry)
    : result (Q * Q) :=
  let '(start, duration) := raw_highlight_timing raw in
  match srt_entry with
  | Some e =>
      srt_start <- seconds_from_timecode (srt_start e) ;;
      srt_end <- seconds_from_timecode (srt_end e) ;;
      let srt_duration := fmax 0 (srt_end - srt_start) in
      if Qltb 0 srt_duration
      then Ok (fmax 0 srt_start, fmax (15 # 10) (fmin srt_duration 5))
      else Ok (fmax 0 start, duration)
  | None => Ok (fmax 0 start, duration)
  end.

(** The first candidate whose sanitised form is not empty. *)
Fixpoint first_sanitized (candidates : list string) : string :=
  match candidates with
  | [] => ""
  | c :: rest =>
      if String.eqb c "" then first_sanitized rest
      else
        let s := sanitize_highlight_text c in
        if String.eqb s "" then first_sanitized rest else s
  end.

Definition first_nonempty (l : list string) : string :=
  match find (fun s => negb (String.eqb s "")) l with
  | Some s => s
  | None => ""
  end.

(** [coerce_supporting] *)
Definition coerce_supporting (v : value) : option string :=
  match v with
  | VStr s => opt_str_truthy (Some (sanitize_highlight_text (strip s)))
  | _ => None
  end.

(** [a or b or ... or z]: the first true operand, else the last one. *)
Fixpoint or_list (vs : list value) : value :=
  match vs with
  | [] => VNone
  | [v] => v
  | v :: rest => if truthy v then v else or_list rest
  end.

Definition set_opt (k : string) (o : option string) (d : dict) : dict :=
  match o with
  | Some s => dict_set k (VStr s) d
  | None => d
  end.

Definition setdefault_opt (k : string) (o : option string) (d : dict) : dict :=
  match o with
  | Some s => setdefault k (VStr s) d
  | None => d
  end.

(** The [supporting_texts] dictionary built from the alternative raw
    shapes. *)
Definition normalize_supporting (raw : dict) : dict :=
  let supporting_texts : dict :=
    match get raw "supportingTexts" with
    | VDict rs =>
        set_opt "topRight"
          (coerce_supporting
             (or_list [get rs "topRight"; get rs "top_right"; get rs "right";
                       get rs "secondary"]))
          (set_opt "topLeft"
             (coerce_supporting
                (or_list [get rs "topLeft"; get rs "top_left"; get rs "left";
                          get rs "primary"]))
             [])
    | _ => []
    end in
  let supporting_texts :=
    match supporting_texts with
    | [] =>
        match get raw "items" with
        | VList (a :: b :: _) =>
            set_opt "topRight" (coerce_supporting b)
              (set_opt "topLeft" (coerce_supporting a) [])
        | VList [a] => set_opt "topLeft" (coerce_supporting a) []
        | _ => []
        end
    | _ => supporting_texts
    end in
  let left_text :=
    coerce_supporting
      (or_list [get raw "supportingLeft"; get raw "supportLeft";
                get raw "supporting"; get raw "keywordSecondary";
                get raw "left"]) in
  let right_text :=
    coerce_supporting
      (or_list [get raw "supportingRight"; get raw "supportRight";
                get raw "right"]) in
  setdefault_opt "topRight" right_text
    (setdefault_opt "topLeft" left_text supporting_texts).

(** [float(v)] inside [try ... except (TypeError, ValueError)]. *)
Definition try_float (v : value) : option Q :=
  match float_of v with
  | Ok q => Some q
  | Raise _ => None
  end.

(** The text block of a highlight, by assigned type: a note box gets its
    phrase, importance and bottom insets, a section title its decorated
    title, an icon its raw text. *)
Definition add_typed_text (raw : dict) (assigned_type : option string)
    (highlight_id sanitized_text text_raw title_raw keyword_text srt_text
       : string)
    (highlight : dict) : dict :=
  if id_eqb assigned_type (Some "noteBox") then
    let highlight := dict_set "text" (VStr sanitized_text) highlight in
    let highlight := dict_set "keyword" (VStr sanitized_text) highlight in
    let highlight :=
      match get raw "importance" with
      | VStr s =>
          if String.eqb (strip s) ""
          then setdefault "importance" (VStr "primary") highlight
          else dict_set "importance" (VStr (lower (strip s))) highlight
      | _ => setdefault "importance" (VStr "primary") highlight
      end in
    let highlight := dict_set "showBottom" (VBool true) highlight in
    let highlight := setdefault "safeBottom" (VNum (18 # 100)) highlight in
    setdefault "safeInsetHorizontal" (VNum (8 # 100)) highlight
  else if id_eqb assigned_type (Some "sectionTitle") then
    let base_phrase :=
      first_nonempty [title_raw; text_raw; keyword_text; sanitized_text;
                      srt_text] in
    let '(display_text, keyword_value) :=
      format_section_title highlight_id base_phrase in
    dict_set "keyword" (VStr keyword_value)
      (dict_set "text" (VStr display_text) highlight)
  else
    set_if (id_eqb assigned_type (Some "icon")
            && negb (String.eqb text_raw ""))
      "text" (VStr text_raw) highlight.

(** [# Normalize and add variant] *)
Definition add_variant (raw : dict) (highlight : dict) : dict :=
  let variant_raw := py_or (get raw "variant") (get raw "styleVariant") in
  match assoc (squash_key (py_str variant_raw)) VARIANT_MAP with
  | Some nv =>
      set_if (truthy variant_raw && mem_string nv HIGHLIGHT_VARIANTS)
        "variant" (VStr nv) highlight
  | None => highlight
  end.

(** [# Normalize and add SFX] *)
Definition add_sfx (raw : dict) (highlight : dict) : dict :=
  match opt_str_truthy
          (normalize_sfx_name
             (or_list [get raw "sfx"; get raw "asset"; get raw "sound"])) with
  | Some sfx_name =>
      let sfx_name :=
        if startswith "assets/" (lower sfx_name) then sfx_name
        else if startswith "sfx/" (lower sfx_name)
        then append "assets/" sfx_name
        else append "assets/sfx/" sfx_name in
      dict_set "sfx" (VStr sfx_name) highlight
  | None => highlight
  end.

(** [# Add color properties if present] *)
Definition add_color (raw : dict) (keys : list string) (k : string)
    (highlight : dict) : dict :=
  match or_list (map (get raw) keys) with
  | VStr s => set_nonempty k (strip s) highlight
  | _ => highlight
  end.

(** The [layout] of a highlight: the raw one when it is known, else the one
    the supporting texts call for. *)
Definition resolve_layout (raw : dict) (supporting_texts : dict)
    (is_icon_highlight : bool) (sanitized_text : string) : option string :=
  let layout_value :=
    match or_list [get raw "layout"; get raw "arrangement";
                   get raw "alignment"] with
    | VStr s =>
        let layout_candidate := lower (strip s) in
        if mem_string layout_candidate ["left"; "right"; "dual"; "bottom"]
        then Some layout_candidate
        else if mem_string layout_candidate ["pair"; "split"]
        then Some "dual"
        else None
    | _ => None
    end in
  match layout_value with
  | Some l => Some l
  | None =>
      match has_key supporting_texts "topLeft",
            has_key supporting_texts "topRight" with
      | true, true => Some "dual"
      | true, false => Some "left"
      | false, true => Some "right"
      | false, false =>
          if negb is_icon_highlight && negb (String.eqb sanitized_text "")
          then Some "bottom" else None
      end
  end.

Definition add_layout (layout_value : option string) (sanitized_text : string)
    (highlight : dict) : dict :=
  match layout_value with
  | Some l =>
      set_if (mem_string l ["left"; "right"; "dual"]
              && negb (String.eqb sanitized_text ""))
        "showBottom" (VBool true)
        (dict_set "layout" (VStr l) highlight)
  | None => highlight
  end.

(** The stagger of the supporting texts. *)
Definition add_stagger (raw : dict) (supporting_texts : dict)
    (highlight : dict) : dict :=
  match supporting_texts with
  | [] => highlight
  | _ =>
      let highlight := setdefault "staggerLeft" (VNum 0) highlight in
      let sr := ensure_float (get raw "staggerRight") 2 in
      set_if (has_key supporting_texts "topRight") "staggerRight"
        (VNum (if Qeqb sr 0 then 2 else sr)) highlight
  end.

(** [# Add radius if valid], [# Add volume if valid] *)
Definition add_radius (raw : dict) (highlight : dict) : dict :=
  match try_float (get raw "radius") with
  | Some r =>
      set_if (negb (is_none (get raw "radius")) && Qltb 0 r) "radius"
        (VNum (round3 r)) highlight
  | None => highlight
  end.

Definition add_volume (raw : dict) (highlight : dict) : dict :=
  match try_float (get raw "volume") with
  | Some v =>
      set_if (negb (is_none (get raw "volume"))) "volume"
        (VNum (round3 (fmax 0 (fmin v 1)))) highlight
  | None => highlight
  end.

(** [normalize_highlight_item]. The statements that can raise keep their
    order; the dictionary is then built by the blocks above, in the order of
    the source. *)
Definition normalize_highlight_item (raw_value : value) (index : nat)
    (srt_lookup : list SrtEntry) : result (option dict) :=
  match raw_value with
  | VDict raw =>
      let highlight_id :=
        py_str (py_or (get raw "id")
                  (VStr (append "highlight-" (pad2 (index + 1))))) in
      let highlight_type := resolve_highlight_type raw in
      text_raw <- strip_field2 raw "text" "caption" ;;
      title_raw <- strip_field1 raw "title" ;;
      subtitle_raw <- strip_field1 raw "subtitle" ;;
      badge_raw <- strip_field1 raw "badge" ;;
      name_raw <- strip_field2 raw "name" "label" ;;
      icon_value <- strip_field2 raw "icon" "iconName" ;;
      let srt_entry := linked_srt_entry srt_lookup highlight_id in
      let srt_text :=
        match srt_entry with
        | Some e => strip (text_one_line e)
        | None => ""
        end in
      let has_icon_marker :=
        negb (String.eqb icon_value "")
        || (negb (String.eqb name_raw "")
            && match opt_str_truthy highlight_type with
               | Some _ => false
               | None => true
               end) in
      let resolved_highlight_type :=
        match opt_str_truthy highlight_type with
        | Some t => Some t
        | None => if has_icon_marker then Some "icon" else None
        end in
      if String.eqb
           (first_nonempty [text_raw; title_raw; subtitle_raw; badge_raw;
                            name_raw; icon_value; srt_text]) ""
      then Ok None
      else
        let text_raw := if String.eqb text_raw "" then srt_text else text_raw in
        timing <- highlight_timing raw srt_entry ;;
        let is_icon_highlight := id_eqb resolved_highlight_type (Some "icon") in
        let default_position :=
          if is_icon_highlight then "center" else "bottom" in
        position <-
          lower_of (or_list [get raw "position"; get raw "placement";
                             VStr default_position]) ;;
        let position :=
          if negb (mem_string position HIGHLIGHT_POSITIONS)
             || negb is_icon_highlight
          then default_position else position in
        let animation_default := if is_icon_highlight then "pop" else "fade" in
        let animation_key :=
          match or_list [get raw "animation"; get raw "style";
                         get raw "motion"] with
          | VStr s => squash_key s
          | _ => ""
          end in
        let animation :=
          match assoc animation_key ANIMATION_MAP with
          | Some a => a
          | None => animation_default
          end in
        let keyword_text :=
          match get raw "keyword" with VStr s => strip s | _ => "" end in
        let sanitized_text :=
          if is_icon_highlight then ""
          else first_sanitized [text_raw; srt_text; keyword_text; title_raw;
                                subtitle_raw] in
        let assigned_type :=
          match resolved_highlight_type with
          | Some t => Some t
          | None =>
              if negb (String.eqb sanitized_text "")
                 || negb (String.eqb text_raw "")
              then Some "noteBox" else None
          end in
        if id_eqb assigned_type (Some "noteBox")
           && String.eqb sanitized_text ""
        then Ok None
        else
          asset <- strip_field2 raw "asset" "media" ;;
          side <- strip_field1 raw "side" ;;
          let side := lower side in
          let supporting_texts := normalize_supporting raw in
          let highlight : dict :=
            [("id", VStr highlight_id);
             ("start", VNum (round3 (fst timing)));
             ("duration", VNum (round3 (snd timing)));
             ("position", VStr position);
             ("animation", VStr animation)] in
          let highlight := set_opt "type" assigned_type highlight in
          let highlight :=
            add_typed_text raw assigned_type highlight_id sanitized_text
              text_raw title_raw keyword_text srt_text highlight in
          let highlight := set_nonempty "title" title_raw highlight in
          let highlight := set_nonempty "subtitle" subtitle_raw highlight in
          let highlight := set_nonempty "badge" badge_raw highlight in
          let highlight := set_nonempty "name" name_raw highlight in
          let highlight := set_nonempty "icon" icon_value highlight in
          let highlight := set_nonempty "asset" asset highlight in
          let highlight := add_variant raw highlight in
          let highlight := add_sfx raw highlight in
          let highlight :=
            add_color raw ["accentColor"; "accent"] "accentColor" highlight in
          let highlight :=
            add_color raw ["backgroundColor"; "background"; "bg"]
              "backgroundColor" highlight in
          let highlight :=
            add_color raw ["iconColor"; "iconColour"] "iconColor" highlight in
          let highlight :=
            set_if (truthy (VDict supporting_texts)) "supportingTexts"
              (VDict supporting_texts) highlight in
          let highlight :=
            add_layout
              (resolve_layout raw supporting_texts is_icon_highlight
                 sanitized_text)
              sanitized_text highlight in
          let highlight :=
            set_if (mem_string side ["top"; "bottom"; "left"; "right"])
              "side" (VStr side) highlight in
          let highlight := add_stagger raw supporting_texts highlight in
          let highlight := add_radius raw highlight in
          let highlight := add_volume raw highlight in
          Ok (Some highlight)
  | _ => Ok None
  end.

(** [sourceStart] of a raw segment. *)
Definition segment_source_start (raw : dict) : Q :=
  ensure_float
    (get_default raw "sourceStart" (get_default raw "start" (VNum 0))) 0.

(** The duration of a raw segment; [None] when the loop skips the segment
    because no positive duration is found. *)
Definition segment_duration (raw : dict) : option Q :=
  let source_start := segment_source_start raw in
  let duration := ensure_float (get raw "duration") 0 in
  let duration :=
    if Qleb duration 0 then
      let end_value := ensure_float (get raw "end") 0 in
      let start_value :=
        ensure_float (get_default raw "start" (VNum source_start)) 0 in
      if Qltb start_value end_value then end_value - start_value
      else duration
    else duration in
  let duration :=
    if Qleb duration 0 then
      let length_value := ensure_float (get raw "length") 0 in
      if Qltb 0 length_value then length_value else duration
    else duration in
  if Qleb duration 0 then None else Some duration.

(** [for key in (a, b): if key in raw: value = raw.get(key); break] *)
Definition first_present (raw : dict) (a b : string) : value :=
  if has_key raw a then get raw a
  else if has_key raw b then get raw b
  else VNone.

(** [if transition: segment_plan[key] = transition] *)
Definition set_opt_dict (k : string) (o : option dict) (d : dict) : dict :=
  match o with
  | Some t => set_if (truthy (VDict t)) k (VDict t) d
  | None => d
  end.

(** The body of the loop over the raw segments: [None] for a skipped
    segment, else the pair [(timeline_start, segment_plan)]. The statements
    that can raise keep their order; the dictionary is then built key by
    key, in the order of the source. *)
Definition normalize_segment (raw_value : value) (index : nat)
    : result (option (Q * dict)) :=
  match raw_value with
  | VDict raw =>
      let source_start := segment_source_start raw in
      match segment_duration raw with
      | None => Ok None
      | Some duration =>
          label <- strip_field2 raw "label" "title" ;;
          transition_in <-
            normalize_transition
              (or_list [get raw "transitionIn"; get raw "transition_in";
                        get raw "enterTransition"]) ;;
          transition_out <-
            normalize_transition
              (or_list [get raw "transitionOut"; get raw "transition_out";
                        get raw "exitTransition"]) ;;
          let segment_plan : dict :=
            [("id",
              VStr (py_str (py_or (get raw "id")
                              (VStr (append "segment-" (pad2 (index + 1)))))));
             ("sourceStart", VNum (round3 source_start));
             ("duration", VNum (round3 duration))] in
          let segment_plan := set_nonempty "label" label segment_plan in
          let segment_plan :=
            set_nonempty "title"
              (match get raw "title" with VStr s => strip s | _ => "" end)
              segment_plan in
          let silence_after_raw :=
            first_present raw "silenceAfter" "silence_after" in
          let segment_plan :=
            dict_set "silenceAfter"
              (VBool (if is_none silence_after_raw then false
                      else ensure_bool silence_after_raw false))
              segment_plan in
          let gap_after_raw := first_present raw "gapAfter" "gap_after" in
          let segment_plan :=
            set_if (negb (is_none gap_after_raw)) "gapAfter"
              (VBool (ensure_bool gap_after_raw false)) segment_plan in
          let playback_raw :=
            get_default raw "playbackRate" (get raw "speed") in
          let playback_rate := ensure_float playback_raw 1 in
          let playback_rate :=
            if Qleb playback_rate 0 then 1 else playback_rate in
          let segment_plan :=
            set_if (negb (is_none playback_raw)
                    && Qltb (1 # 1000) (Qabs (playback_rate - 1)))
              "playbackRate" (VNum (round3 playback_rate)) segment_plan in
          let segment_plan :=
            set_opt_dict "transitionIn" transition_in segment_plan in
          let segment_plan :=
            set_opt_dict "transitionOut" transition_out segment_plan in
          let metadata_raw := get raw "metadata" in
          let metadata_camera :=
            match metadata_raw with
            | VDict m => get m "cameraMovement"
            | _ => VNone
            end in
          let segment_plan :=
            set_opt "cameraMovement"
              (normalize_camera_movement
                 (or_list [get raw "cameraMovement"; get raw "camera_movement";
                           metadata_camera]))
              segment_plan in
          let segment_plan :=
            set_if (is_dict metadata_raw && truthy metadata_raw) "metadata"
              metadata_raw segment_plan in
          let timeline_start :=
            ensure_float
              (get_default raw "timelineStart" (get raw "timeline_start"))
              source_start in
          Ok (Some (timeline_start, segment_plan))
      end
  | _ => Ok None
  end.

Fixpoint normalize_segments_loop (raw_segments : list value) (index : nat)
    : result (list (Q * dict)) :=
  match raw_segments with
  | [] => Ok []
  | raw_segment :: rest =>
      item <- normalize_segment raw_segment index ;;
      items <- normalize_segments_loop rest (S index) ;;
      Ok (match item with Some it => it :: items | None => items end)
  end.

(** [float(d["sourceStart"])] of a normalised segment. *)
Definition num_of (v : value) : Q :=
  match v with VNum q => q | _ => 0 end.

(** The order of the keys [(item[0], item[1]["sourceStart"])]. *)
Definition segment_item_leb (a b : Q * dict) : bool :=
  if Qltb (fst a) (fst b) then true
  else if Qltb (fst b) (fst a) then false
  else Qleb (num_of (get (snd a) "sourceStart"))
         (num_of (get (snd b) "sourceStart")).

(** The segment half of [normalize_plan]: [normalized_segments]. *)
Definition normalize_segments (raw_segments : value) : result (list dict) :=
  match raw_segments with
  | VList l =>
      segment_items <- normalize_segments_loop l 0 ;;
      Ok (map snd (stable_sort segment_item_leb segment_items))
  | _ => Ok []
  end.

Definition LEGACY_ACTION_TYPES : list string :=
  ["caption"; "highlight"; "icon"; "notebox"; "typewriter"; "section";
   "sectiontitle"].

(** The highlights taken from a legacy [actions] list. *)
Fixpoint legacy_highlights (actions : list value) : result (list value) :=
  match actions with
  | [] => Ok []
  | VDict a :: rest =>
      action_type <-
        lower_of (or_list [get a "type"; get a "kind"; VStr ""]) ;;
      more <- legacy_highlights rest ;;
      Ok (if mem_string action_type LEGACY_ACTION_TYPES
          then VDict a :: more else more)
  | _ :: rest => legacy_highlights rest
  end.

Definition raw_highlights_of (plan : dict) : result (list value) :=
  match get plan "highlights" with
  | VList l => Ok l
  | _ =>
      match get plan "actions" with
      | VList actions => legacy_highlights actions
      | _ => Ok []
      end
  end.

(** The loop that normalises the raw highlights and stops at
    [MAX_HIGHLIGHTS]. *)
Fixpoint normalize_highlights_loop (srt_lookup : list SrtEntry)
    (raw_highlights : list value) (idx : nat) (acc : list dict)
    : result (list dict) :=
  match raw_highlights with
  | [] => Ok acc
  | raw_highlight :: rest =>
      normalized <- normalize_highlight_item raw_highlight idx srt_lookup ;;
      let acc :=
        match normalized with
        | Some h => if truthy (VDict h) then acc ++ [h] else acc
        | None => acc
        end in
      if (MAX_HIGHLIGHTS <=? List.length acc)%nat then Ok acc
      else normalize_highlights_loop srt_lookup rest (S idx) acc
  end.

Definition normalize_plan (plan : value) (srt_entries : list SrtEntry)
    : result dict :=
  match plan with
  | VDict p =>
      normalized_segments <- normalize_segments (get p "segments") ;;
      raw_highlights <- raw_highlights_of p ;;
      normalized_highlights <-
        normalize_highlights_loop srt_entries raw_highlights 0 [] ;;
      let normalized_highlights :=
        stable_sort
          (fun a b : dict =>
             Qleb (num_of (get_default a "start" (VNum 0)))
               (num_of (get_default b "start" (VNum 0))))
          normalized_highlights in
      let normalized_plan : dict :=
        [("segments", VList (map VDict normalized_segments));
         ("highlights", VList (map VDict normalized_highlights))] in
      Ok (set_if (has_key p "meta") "meta" (get p "meta") normalized_plan)
  | _ => Raise ValueError
  end.

End Normalizer.

(* --------------------------------------------------------------------- *)
(** ** Predicates of the specification *)
(* --------------------------------------------------------------------- *)

(** Start and duration as a plan stores them. *)
Definition stored_start (h : highlight) : Q := numd (hl_start h) 0.
Definition stored_duration (h : highlight) : Q := numd (hl_duration h) 0.

(** A highlight as the spacing resolver leaves it: numeric timing on the
    two-decimal grid and a duration of at least [min_duration]. *)
Definition resolved (min_duration : Q) (h : highlight) : Prop :=
  exists s d,
    hl_start h = Some s /\ hl_duration h = Some d /\
    on_grid 100 s /\ on_grid 100 d /\ min_duration <= d.

(** [b] starts no earlier than [min_gap] after the end of [a]. *)
Definition clear_of (min_gap : Q) (a b : highlight) : Prop :=
  stored_start a + stored_duration a + min_gap <= stored_start b.

(** The [filtered] stack of the resolver: every entry is resolved and clear
    of the entry below it. *)
Fixpoint spaced_stack (min_gap min_duration : Q) (stack : list highlight)
    : Prop :=
  match stack with
  | [] => True
  | top :: below =>
      resolved min_duration top
      /\ match below with
         | [] => True
         | previous :: _ => clear_of min_gap previous top
         end
      /\ spaced_stack min_gap min_duration below
  end.

(** The minimum-spacing invariant of a highlight list, with tolerance
    [eps]: of two different entries, the one that starts later starts at
    least [MIN_GAP - eps] after the end of the other. *)
Definition min_spacing (eps : Q) (hs : list highlight) : Prop :=
  forall i j a b,
    i <> j -> nth_error hs i = Some a -> nth_error hs j = Some b ->
    stored_start a <= stored_start b ->
    stored_start a + stored_duration a + MIN_GAP - eps <= stored_start b.

(** What the resolver establishes: all entries are resolved and every entry
    is clear of all later ones. *)
Definition well_spaced (hs : list highlight) : Prop :=
  Forall (resolved MIN_DURATION) hs
  /\ StronglySorted (clear_of MIN_GAP) hs.

(** The timing fields of a highlight. *)
Definition timing (h : highlight) : option Q * option Q :=
  (hl_start h, hl_duration h).

(* --------------------------------------------------------------------- *)
(** ** Example inputs *)
(* --------------------------------------------------------------------- *)

(** A note box with an id and its timing. *)
Definition note_box (id : string) (start duration : Q) : highlight :=
  mkHighlight (Some id) (Some "noteBox") (Some start) (Some duration)
    None None None None None [] None None None NoMetadata.

(** Two overlapping highlights, at 10 s and at 12 s, of 3 s each. *)
Definition overlapping_plan : plan :=
  mkPlan [] [note_box "a" 10 3; note_box "b" 12 3].

(** The end of the last accepted highlight as the resolver computes it. *)
Definition previous_end (min_duration : Q) (previous : highlight) : Q :=
  numd (hl_start previous) 0
  + fmax min_duration (numd (hl_duration previous) min_duration).

(** The highlight the resolver stores when it accepts [current], whose start
    is [s] and duration [d]. *)
Definition accepted (min_duration : Q) (current : highlight) (s d : Q)
    : highlight :=
  set_hl_duration (set_hl_start current (round2 s))
    (round2 (fmax min_duration d)).

(** "The new highlight is accepted unchanged." *)
Definition accepted_unchanged (min_gap min_duration : Q)
    (previous current : highlight) (rest : list highlight) : Prop :=
  spacing_step min_gap min_duration (previous :: rest) current
  = current :: previous :: rest.

(** Far from the first highlight, a second one of 0.3 s. *)
Definition short_second_plan : plan :=
  mkPlan [] [note_box "a" 10 3; note_box "b" 20 (3 # 10)].

(** Two highlights one second apart. *)
Definition tight_plan : plan :=
  mkPlan [] [note_box "a" 10 3; note_box "b" 11 3].

(** A normalised transition dictionary: a cut without a duration, or a
    duration within [lo, hi]. *)
Definition transition_within (lo hi : Q) (t : dict) : Prop :=
  (get t "type" = VStr "cut" /\ get t "duration" = VNone)
  \/ exists q, get t "duration" = VNum q /\ lo <= q /\ q <= hi.

(** The value under a transition key of a normalised segment: absent, or a
    transition dictionary within the bounds. *)
Definition transition_value_within (lo hi : Q) (v : value) : Prop :=
  v = VNone \/ exists t, v = VDict t /\ transition_within lo hi t.

(** The duration stored in a normalised highlight lies within [lo, hi]. *)
Definition duration_within (lo hi : Q) (h : dict) : Prop :=
  exists q, get h "duration" = VNum q /\ lo <= q /\ q <= hi.

(** Stand-ins for the built-ins of the normaliser in worked examples: no
    string parses as a number, every object prints as [?], no sound file is
    known. *)
Definition no_float (s : string) : option Q := None.
Definition plain_repr (v : value) : string := "?".
Definition no_sfx (v : value) : option string := None.

(** A raw plan with one segment given by [start] and [end], a crossfade,
    and one highlight that lasts too long. *)
Definition raw_plan_example : value :=
  VDict
    [("segments",
      VList
        [VDict [("start", VNum 0); ("end", VNum 5);
                ("transitionIn",
                 VDict [("type", VStr "fade"); ("duration", VNum 9)])]]);
     ("highlights",
      VList
        [VDict [("text", VStr "epic launch day"); ("start", VNum 3);
                ("duration", VNum 9)]])].

(** The end of a segment and the end of the segment timeline as the
    specification words it: the maximum of [sourceStart + duration] over the
    segments ([None] when there is no segment). *)
Definition segment_end (seg : segment) : Q :=
  numd (seg_sourceStart seg) 0 + numd (seg_duration seg) 0.

Fixpoint timeline_end (segments : list segment) : option Q :=
  match segments with
  | [] => None
  | seg :: rest =>
      match timeline_end rest with
      | None => Some (segment_end seg)
      | Some m => Some (fmax m (segment_end seg))
      end
  end.

(** A highlight without a start, and one that starts at 100 s. *)
Definition timeless_highlight : highlight :=
  mkHighlight (Some "x") (Some "noteBox") None (Some 3) None None None None
    None [] None None None NoMetadata.

Definition segmentless_plan : plan :=
  mkPlan [] [timeless_highlight; note_box "late" 100 3].

(** A segment given by its id, start and duration. *)
Definition plain_segment (id : string) (start duration : Q) : segment :=
  mkSegment (Some id) (Some start) (Some duration) None None None None None
    [] None None None.

(** One segment of ten seconds; highlights at 12 s, at 3 s and at 10.2 s. *)
Definition overrun_plan : plan :=
  mkPlan [plain_segment "s1" 0 10]
    [note_box "late" 12 3; note_box "early" 3 3; note_box "edge" (102 # 10) 3].

(** What a segment adds to [latest_end]: a negative duration counts as 0. *)
Definition counted_end (seg : segment) : Q :=
  numd (seg_sourceStart seg) 0 + fmax 0 (numd (seg_duration seg) 0).

(** Twenty-one note boxes ten seconds apart with the ids [h0] to [h19]; the
    last one reuses the id [h0]. *)
Definition shared_id_plan : plan :=
  mkPlan []
    (map (fun n => note_box (append "h" (nat_to_string n))
                     (inject_Z (Z.of_nat (10 * n))) 3)
       (seq 0 20)
     ++ [note_box "h0" 200 3]).

(** The test by which [prune_highlights] keeps a highlight. *)
Definition retained (max_total : nat) (highlights : list highlight)
    (item : highlight) : bool :=
  existsb (id_eqb (hl_id item)) (retained_ids max_total highlights).

(** The entries [scored[:max_total]]. *)
Definition top_entries (max_total : nat) (hs : list highlight)
    : list scored_entry :=
  firstn max_total (stable_sort scored_leb (score_entries hs)).

(** Whether a segment carries the catalog item [cid] as B-roll, and the
    number of segments that do. *)
Definition uses_broll (cid : string) (seg : segment) : bool :=
  match seg_broll seg with
  | Some b => id_eqb (br_id b) (Some cid)
  | None => false
  end.

Definition broll_use_count (cid : string) (segments : list segment) : nat :=
  List.length (filter (uses_broll cid) segments).

(** Three segments of ten seconds under one scene about marketing, and a
    catalog with a single marketing clip. *)
Definition three_segment_plan : plan :=
  mkPlan
    [plain_segment "s1" 0 10; plain_segment "s2" 10 10;
     plain_segment "s3" 20 10]
    [].

Definition marketing_scene : scene :=
  mkScene (Some 0) (Some 30) ["marketing"] [] [] [] (Some (9 # 10)) None
    false.

(** A closing scene that asks the viewer to act. *)
Definition closing_scene : scene :=
  mkScene (Some 12) (Some 14) ["outro"] [] [] [] (Some (5 # 10))
    (Some "Subscribe now") true.

Definition marketing_clip : broll_item :=
  mkBrollItem (Some "creative_brainstorm") (Some "broll/brainstorm.mp4")
    (Some "video") None ["marketing"] [] [] (Some 60) None.

(** The plan [main] writes for these inputs: the scene-driven loop of
    [enrich_plan] and then the passes from the spacing resolver on. *)
Definition enriched_three_segment_plan : plan :=
  finalize_plan (Some [marketing_clip]) None None
    (enrich_plan_segments three_segment_plan [marketing_scene]
       (Some [marketing_clip]) None (15 # 10)).

(** The invariant of the keyword B-roll loop: an item is on at most as many
    more segments as the loop has counted for it, and the count never
    passes the cap. *)
Definition broll_loop_inv (segments0 : list segment)
    (st : list segment * (string -> nat)) : Prop :=
  forall cid,
    (broll_use_count cid (fst st)
     <= broll_use_count cid segments0 + snd st cid)%nat
    /\ (snd st cid <= MAX_BROLL_REUSE)%nat.

(** The motion cue of [after] is the one of [before] or one of the two
    allowed cues. *)
Definition cue_kept_or_allowed (before after : segment) : Prop :=
  seg_motionCue after = seg_motionCue before
  \/ seg_motionCue after = Some "zoomIn"
  \/ seg_motionCue after = Some "zoomOut".

(** One segment of six seconds under a scene of moderate score, and motion
    rules that ask for a cue on half of the segments. *)
Definition one_segment_plan : plan := mkPlan [plain_segment "s1" 0 6] [].

Definition moderate_scene : scene :=
  mkScene (Some 0) (Some 6) [] [] [] [] (Some (5 # 10)) None false.

Definition sparse_rules : motion_rules :=
  mkMotionRules (Some (5 # 10)) (Some (9 # 10)) [].

(** The plan [main] writes for these inputs. *)
Definition panned_plan : plan :=
  finalize_plan None (Some sparse_rules) None
    (enrich_plan_segments one_segment_plan [moderate_scene] None
       (Some sparse_rules) (15 # 10)).

(** A highlight inside that segment, for the motion pass. *)
Definition cued_plan : plan :=
  mkPlan [plain_segment "s1" 0 6] [note_box "a" 2 3].

(** The duration of a raw segment as the specification words it: the first
    positive value among the candidates, none when no candidate is
    positive. *)
Definition first_positive (candidates : list Q) : option Q :=
  find (fun q => Qltb 0 q) candidates.

(** The candidates in the order of the specification: the [duration] field,
    [end - start] and the [length] field. A field that is absent or is not a
    number reads as 0; [start] reads as the source start when absent. *)
Definition duration_candidates (float_of_string : string -> option Q)
    (raw : dict) : list Q :=
  [ensure_float float_of_string (get raw "duration") 0;
   ensure_float float_of_string (get raw "end") 0
   - ensure_float float_of_string
       (get_default raw "start"
          (VNum (segment_source_start float_of_string raw))) 0;
   ensure_float float_of_string (get raw "length") 0].

(** A raw plan whose only segment runs from [start] 0 to [end] 5. *)
Definition start_end_segment : dict := [("start", VNum 0); ("end", VNum 5)].
Definition start_end_plan : value :=
  VDict [("segments", VList [VDict start_end_segment])].

(** A raw plan whose only segment has a number as its label. *)
Definition numeric_label_plan : value :=
  VDict
    [("segments", VList [VDict [("duration", VNum 1); ("label", VNum 5)]])].

(** The segments and highlights of a normalised plan. *)
Definition value_items (v : value) : list value :=
  match v with VList l => l | _ => [] end.
Definition value_dict (v : value) : dict :=
  match v with VDict d => d | _ => [] end.
Definition plan_segment_dicts (p : dict) : list dict :=
  map value_dict (value_items (get p "segments")).


(** A raw segment without a timeline position of its own. *)
Definition no_timeline_start (raw : value) : Prop :=
  match raw with
  | VDict d =>
      has_key d "timelineStart" = false /\ has_key d "timeline_start" = false
  | _ => True
  end.



(** Two segments in source order, the second given by [start] and [end]. *)
Definition source_ordered_plan : dict :=
  [("segments",
    VList
      [VDict [("id", VStr "a"); ("sourceStart", VNum 0);
              ("duration", VNum 4)];
       VDict [("start", VNum 4); ("end", VNum 9); ("label", VStr "Demo")]])].

(** Shapes of the entries of a normalised segment: a key that is absent or
    holds a string, and a transition as [normalize_transition] builds it. *)
Definition absent_or_string (o : option value) : Prop :=
  o = None \/ exists s, o = Some (VStr s).

Definition normal_transition (t : dict) : Prop :=
  (exists s, dict_find "type" t = Some (VStr s))
  /\ dict_find "style" t = None
  /\ absent_or_string (dict_find "direction" t)
  /\ dict_find "dir" t = None.

Definition absent_or_transition (o : option value) : Prop :=
  o = None \/ exists t, o = Some (VDict t) /\ normal_transition t.

(** The keys a raw segment may use for its transitions and its timeline
    position that a normalised segment never carries. *)
Definition RAW_ONLY_SEGMENT_KEYS : list string :=
  ["transition_in"; "enterTransition"; "transition_out"; "exitTransition";
   "timelineStart"; "timeline_start"].


(** An item of the segment loop whose sort key is its source start. *)
Definition keyed_by_source_start (it : Q * dict) : Prop :=
  dict_find "sourceStart" (snd it) = Some (VNum (round3 (fst it))).

(* --------------------------------------------------------------------- *)
(** ** Further predicates and example inputs *)
(* --------------------------------------------------------------------- *)

(** [h'] is [h] with its start rounded to two decimals and some duration;
    every other key is the one of [h]. *)
Definition retimed (h h' : highlight) : Prop :=
  exists s d,
    hl_start h = Some s
    /\ h' = set_hl_duration (set_hl_start h (round2 s)) d.

(** The highlights [strip_non_section_sfx] leaves alone: section titles and
    highlights whose metadata asks to keep the sound. *)
Definition sfx_preserved (h : highlight) : Prop :=
  hl_type h = Some "sectionTitle"
  \/ exists audio,
       hl_metadata h = Metadata (Some (Some audio))
       /\ In audio ["auto"; "keep"; "accent"].

(** What [ensure_highlight_sfx] does to one highlight: nothing, or it writes
    the file and gain of a rule whose file the catalog lists (when the
    catalog lists any file) and marks the audio as automatic when the
    highlight has no metadata or its metadata is a dictionary without an
    audio entry. *)
Definition sfx_assigned (available : list string) (h h' : highlight) : Prop :=
  h' = h
  \/ (truthy_str (hl_sfx h) = false
      /\ exists keywords sfx_path gain,
           In (keywords, sfx_path, gain) HIGHLIGHT_SFX_RULES
           /\ (available = [] \/ mem_string (lower sfx_path) available = true)
           /\ h' = set_hl_audio_fields h (Some sfx_path) (Some gain)
                     (hl_ducking h)
                     (mark_audio_auto (hl_metadata h))).

(** Twenty-one note boxes ten seconds apart with the ids [h0] to [h20]. *)
Definition distinct_id_plan : plan :=
  mkPlan []
    (map (fun n => note_box (append "h" (nat_to_string n))
                     (inject_Z (Z.of_nat (10 * n))) 3)
       (seq 0 21)).

(** A note box whose text matches the first sound rule. *)
Definition sweet_note : highlight :=
  mkHighlight (Some "n1") (Some "noteBox") (Some 1) (Some 2)
    (Some "Sweet and honest") None None None None [] None None None
    NoMetadata.

(** The same note box with [metadata] set to null. *)
Definition sweet_note_null_metadata : highlight :=
  set_hl_audio_fields sweet_note None None None OtherMetadata.

(** The keys of a segment that the B-roll and motion passes never write. *)
Definition segment_core (s : segment)
    : option string * option Q * option Q * option string * option string
      * option string * option (list string) * option value * option value :=
  (seg_id s, seg_sourceStart s, seg_duration s, seg_label s, seg_title s,
   seg_kind s, seg_sfxHints s, seg_transitionIn s, seg_transitionOut s).

(** What the keyword B-roll pass does to a segment: nothing, or it gives a
    segment without B-roll an item of the catalog that its media test lets
    through (an item without a media type, with the media type video, or
    with a file that has a video suffix), full frame. *)
Definition broll_added (items : list broll_item) (s s' : segment) : Prop :=
  segment_core s' = segment_core s
  /\ seg_motionCue s' = seg_motionCue s
  /\ (s' = s
      \/ (seg_broll s = None
          /\ exists item b,
               In item items /\ not_a_video item = false
               /\ seg_broll s' = Some b
               /\ br_id b = bi_id item /\ br_file b = bi_file item
               /\ br_mode b = "full")).

(** What the highlight motion pass does to a segment. *)
Definition motion_added (s s' : segment) : Prop :=
  segment_core s' = segment_core s
  /\ seg_broll s' = seg_broll s
  /\ cue_kept_or_allowed s s'.

(** The segments that carry a motion cue, and the cap of the highlight
    motion pass: [max(1, ceil(len(segments) * motion_frequency))]. *)
Definition has_cue (s : segment) : bool := truthy_str (seg_motionCue s).

Definition cued_segments (segments : list segment) : nat :=
  List.length (filter has_cue segments).

Definition highlight_motion_cap (rules : option motion_rules)
    (segments : list segment) : nat :=
  Nat.max 1
    (ceil_nat
       (inject_Z (Z.of_nat (List.length segments))
        * numd (mr_motion_frequency
                  (match rules with
                   | Some r => r
                   | None => EMPTY_MOTION_RULES
                   end))
            (5 # 10))).

(** A scene that [aggregate_scene_for_segment] counts for the segment range
    [start .. end_]: its overlap with the range is positive. *)
Definition scene_overlaps (start end_ : Q) (sc : scene) : Prop :=
  0 < overlap_seconds start end_ (numd (sc_start sc) 0)
        (numd (sc_end sc) (numd (sc_start sc) 0)).

(** The range of a segment as [locate_segment] tests it, both ends
    included. *)
Definition in_segment (seg : segment) (timecode : Q) : Prop :=
  numd (seg_sourceStart seg) 0 <= timecode
  /\ timecode
     <= numd (seg_sourceStart seg) 0 + numd (seg_duration seg) 0.

(** The cap of [select_motion_cue]: [ceil(total * frequency)] when the
    frequency is positive, else the number of segments. *)
Definition scene_motion_cap (rules : motion_rules) (total_segments : nat)
    : Z :=
  if Qltb 0 (numd (mr_motion_frequency rules) 0)
  then Qceiling (inject_Z (Z.of_nat total_segments)
                 * numd (mr_motion_frequency rules) 0)
  else Z.of_nat total_segments.

(** The number of positions at which two segment lists differ in their
    motion cue. *)
Definition cue_changes (before after : list segment) : nat :=
  List.length
    (filter
       (fun ss : segment * segment =>
          negb (id_eqb (seg_motionCue (fst ss)) (seg_motionCue (snd ss))))
       (combine before after)).

(** What the scene-driven loop of [enrich_plan] does to a segment: it sets
    the kind when there is none, may replace B-roll, motion cue and sound
    hints, only appends notes and leaves the transitions as they are. *)
Definition scene_enriched (s s' : segment) : Prop :=
  seg_id s' = seg_id s /\ seg_sourceStart s' = seg_sourceStart s
  /\ seg_duration s' = seg_duration s /\ seg_label s' = seg_label s
  /\ seg_title s' = seg_title s
  /\ seg_kind s' = match seg_kind s with
                   | Some k => Some k
                   | None => Some "normal"
                   end
  /\ (exists added, seg_notes s' = seg_notes s ++ added)
  /\ (seg_broll s <> None -> seg_broll s' <> None)
  /\ (seg_motionCue s <> None -> seg_motionCue s' <> None)
  /\ (seg_sfxHints s <> None -> seg_sfxHints s' = seg_sfxHints s)
  /\ seg_transitionIn s' = seg_transitionIn s
  /\ seg_transitionOut s' = seg_transitionOut s.

(* --------------------------------------------------------------------- *)
(** ** Helpers of the highlight builders (enrich_plan.py) *)
(* --------------------------------------------------------------------- *)

Definition SUPPORTING_SPLIT_TOKENS : list string :=
  ["and"; "but"; "versus"; "vs"; "while"; "because"; "so"; "then"; "what";
   "that"; "which"; "where"; "who"].

(** The [for idx, token in enumerate(words)] loop of
    [split_words_for_supporting]: the first position from 2 to
    [len(words) - 3] that holds a split token. *)
Fixpoint find_split_index (words : list string) (idx len : nat)
    : option nat :=
  match words with
  | [] => None
  | token :: rest =>
      if mem_string (lower token) SUPPORTING_SPLIT_TOKENS
         && (2 <=? idx)%nat && (idx <=? len - 3)%nat
      then Some idx
      else find_split_index rest (S idx) len
  end.

Definition split_words_for_supporting (words : list string)
    : list string * list string :=
  if (List.length words <=? 3)%nat then (words, [])
  else
    match find_split_index words 0 (List.length words) with
    | Some idx => (firstn idx words, skipn idx words)
    | None =>
        let midpoint := Nat.max 2 (List.length words / 2) in
        (firstn midpoint words, skipn midpoint words)
    end.

(** [sanitize_text]: the stripped string, nothing for other objects and for
    blank strings. *)
Definition sanitize_text (v : value) : option string :=
  match v with
  | VStr s => opt_str_truthy (Some (strip s))
  | _ => None
  end.

(** [isinstance(candidate, (int, float)) and candidate > 0], with the value
    of [float(candidate)]; a Python [bool] is an [int]. *)
Definition positive_number (v : value) : option Q :=
  match v with
  | VNum q => if Qltb 0 q then Some q else None
  | VBool true => Some 1
  | _ => None
  end.

(** The inner loop of [derive_duration_seconds] over the keys of one
    container. *)
Fixpoint first_positive_key (container : dict) (keys : list string)
    : option Q :=
  match keys with
  | [] => None
  | key :: rest =>
      match positive_number (get container key) with
      | Some q => Some q
      | None => first_positive_key container rest
      end
  end.

Definition DURATION_KEYS : list string :=
  ["duration_seconds"; "duration"; "length"].

Definition derive_duration_seconds (entry element : dict) (fallback : Q)
    : Q :=
  let base_duration :=
    match first_positive_key element DURATION_KEYS with
    | Some q => q
    | None => fallback
    end in
  let base_duration :=
    if negb (Qeqb base_duration fallback) then base_duration
    else
      match first_positive_key entry DURATION_KEYS with
      | Some q => q
      | None => base_duration
      end in
  let text_content :=
    match sanitize_text (get element "content") with
    | Some t => Some t
    | None => sanitize_text (get entry "text")
    end in
  match text_content with
  | Some t =>
      let word_count := List.length (split_ws t) in
      let dynamic_duration :=
        fmax (15 # 10)
          (fmin (inject_Z (Z.of_nat word_count) * (5 # 10)) 5) in
      fmax base_duration dynamic_duration
  | None => base_duration
  end.

(** [int(s)] of a run of decimal digits, as [parse_srt_timestamp] uses it
    on the groups of its pattern. *)
Definition digit_value (c : ascii) : Z := Z.of_nat (nat_of_ascii c - 48).

(** [parse_srt_timestamp]: the pattern [^(\d{2}):(\d{2}):(\d{2}),(\d{3})$],
    whose [$] also matches before a final line feed. *)
Definition parse_srt_timestamp (value : string) : option Q :=
  let body :=
    match string_rev value with
    | String c r =>
        if Ascii.eqb c (ascii_of_nat 10) then string_rev r else value
    | EmptyString => value
    end in
  match list_ascii_of_string body with
  | [h1; h2; c1; m1; m2; c2; s1; s2; c3; k1; k2; k3] =>
      if forallb is_digit_ascii [h1; h2; m1; m2; s1; s2; k1; k2; k3]
         && Ascii.eqb c1 ":" && Ascii.eqb c2 ":" && Ascii.eqb c3 ","
      then
        let hours := (digit_value h1 * 10 + digit_value h2)%Z in
        let minutes := (digit_value m1 * 10 + digit_value m2)%Z in
        let seconds := (digit_value s1 * 10 + digit_value s2)%Z in
        let milliseconds :=
          ((digit_value k1 * 10 + digit_value k2) * 10 + digit_value k3)%Z in
        Some (inject_Z (hours * 3600 + minutes * 60 + seconds)
              + inject_Z milliseconds / 1000)
      else None
  | _ => None
  end.

Section TimingWarnings.

(** [f"{x:.2f}"], which only shapes the text of a warning. *)
Variable format_2f : Q -> string.

Definition id_text (s : segment) : string :=
  match seg_id s with Some i => i | None => "None" end.

(** The gap between two consecutive segments. *)
Definition segment_gap (prev current : segment) : Q :=
  numd (seg_sourceStart current) 0
  - (numd (seg_sourceStart prev) 0 + numd (seg_duration prev) 0).

(** The body of the loop over [zip(segments, segments[1:])]. *)
Definition timing_warning (tolerance : Q) (pair : segment * segment)
    : list string :=
  let '(prev, current) := pair in
  let gap := segment_gap prev current in
  if Qltb tolerance gap then
    [append "Gap of "
       (append (format_2f gap)
          (append "s between "
             (append (id_text prev)
                (append " and "
                   (append (id_text current)
                      "; consider extending previous duration.")))))]
  else if Qltb gap (- tolerance) then
    [append "Overlap of "
       (append (format_2f (- gap))
          (append "s between "
             (append (id_text prev)
                (append " and "
                   (append (id_text current)
                      "; verify segment timings.")))))]
  else [].

Definition compute_timing_warnings (segments : list segment) (tolerance : Q)
    : list string :=
  flat_map (timing_warning tolerance) (combine segments (tl segments)).

End TimingWarnings.

Section TimestampParser.

Variable float_of_string : string -> option Q.

(** [[float(part) for part in parts]], nothing when a part does not
    parse. *)
Fixpoint float_parts (parts : list string) : option (list Q) :=
  match parts with
  | [] => Some []
  | part :: rest =>
      match float_of_string part, float_parts rest with
      | Some q, Some qs => Some (q :: qs)
      | _, _ => None
      end
  end.

Definition parse_timestamp_to_seconds (v : value) : option Q :=
  let non_negative (q : Q) := if Qleb 0 q then Some q else None in
  match v with
  | VNone => None
  | VBool b => non_negative (if b then 1 else 0)
  | VNum q => non_negative q
  | VStr s =>
      let token := strip s in
      if String.eqb token "" then None
      else
        match float_parts (split_on ":" token) with
        | Some [seconds] => non_negative seconds
        | Some [minutes; seconds] => non_negative (seconds + minutes * 60)
        | Some [hours; minutes; seconds] =>
            non_negative (seconds + (minutes * 60 + hours * 3600))
        | _ => None
        end
  | _ => None
  end.

End TimestampParser.

(** The contiguity of a segment list within a tolerance. *)
Definition gaps_within (tolerance : Q) (segments : list segment) : Prop :=
  Forall
    (fun pair : segment * segment =>
       - tolerance <= segment_gap (fst pair) (snd pair)
       /\ segment_gap (fst pair) (snd pair) <= tolerance)
    (combine segments (tl segments)).

(** The form of a transition the normaliser returns: one of the seven
    types; a cut has no other key; a direction only on a slide, an intensity
    only on a zoom, scale, rotate or blur, within [0.05, 0.6]. *)
Definition canonical_transition (t : dict) : Prop :=
  exists ty,
    get t "type" = VStr ty
    /\ In ty TRANSITION_TYPES
    /\ (ty = "cut" -> t = [("type", VStr "cut")])
    /\ (get t "direction" = VNone
        \/ exists d, get t "direction" = VStr d /\ ty = "slide"
                     /\ In d TRANSITION_DIRECTIONS)
    /\ (get t "intensity" = VNone
        \/ exists i, get t "intensity" = VNum i
                     /\ In ty ["zoom"; "scale"; "rotate"; "blur"]
                     /\ 5 # 100 <= i /\ i <= 6 # 10).

(** The animations a normalised highlight can carry. *)
Definition HIGHLIGHT_ANIMATIONS : list string :=
  ["fade"; "zoom"; "pop"; "bounce"; "float"; "flip"; "spin"; "typewriter";
   "pulse"; "slide"].

(** What every highlight of the normaliser carries: an id, a start that is
    not negative, a position and an animation out of the fixed sets; the
    centre position is for icons only, and a note box has a phrase that is
    not empty as its text and its keyword. *)
Definition normal_highlight (h : dict) : Prop :=
  (exists id, get h "id" = VStr id)
  /\ (exists s, get h "start" = VNum s /\ 0 <= s)
  /\ (exists p, get h "position" = VStr p /\ In p HIGHLIGHT_POSITIONS
                /\ (p = "center" -> get h "type" = VStr "icon"))
  /\ (exists a, get h "animation" = VStr a /\ In a HIGHLIGHT_ANIMATIONS)
  /\ (get h "type" = VStr "noteBox" ->
      exists phrase,
        phrase <> "" /\ get h "text" = VStr phrase
        /\ get h "keyword" = VStr phrase).

(** The order of the segments of a normalised plan by source start. *)
Definition source_start_le (a b : dict) : Prop :=
  num_of (get a "sourceStart") <= num_of (get b "sourceStart").

(** The order of the highlights of a normalised plan by start. *)
Definition highlight_start_le (a b : dict) : Prop :=
  num_of (get_default a "start" (VNum 0))
  <= num_of (get_default b "start" (VNum 0)).

(** What every segment of the normaliser carries, whatever the raw timing
    fields hold. *)
Definition normal_segment (seg : dict) : Prop :=
  (exists id, get seg "id" = VStr id)
  /\ (exists b, get seg "silenceAfter" = VBool b)
  /\ (get seg "cameraMovement" = VNone
      \/ get seg "cameraMovement" = VStr "zoomIn"
      \/ get seg "cameraMovement" = VStr "zoomOut")
  /\ (get seg "playbackRate" = VNone
      \/ exists r, get seg "playbackRate" = VNum r /\ 0 <= r).

(** A raw segment whose timing fields are finite JSON numbers, null or
    absent: no string that [float] would have to read. *)
Definition numeric_timing (raw : value) : Prop :=
  match raw with
  | VDict d =>
      Forall (fun k => get d k = VNone \/ exists q, get d k = VNum q)
        ["sourceStart"; "start"; "duration"; "end"; "length"]
  | _ => True
  end.

(** The timing a normalised segment stores. *)
Definition stored_timing (seg : dict) : Prop :=
  (exists s, get seg "sourceStart" = VNum s)
  /\ (exists d, get seg "duration" = VNum d /\ 0 <= d).

(** A raw plan with twenty highlights. *)
Definition crowded_raw_plan : dict :=
  [("highlights",
    VList
      (map (fun n =>
              VDict [("text", VStr "Growth plan");
                     ("start", VNum (inject_Z (Z.of_nat (40 - 2 * n))))])
         (seq 0 20)));
   ("meta", VStr "draft")].

(* --------------------------------------------------------------------- *)
(** ** Snapping highlights to the transcript (enrich_plan.py) *)
(* --------------------------------------------------------------------- *)

(** [float(entry.get("start", 0.0))] and
    [float(entry.get("end", seg_start))]. *)
Definition scene_start (entry : scene) : Q := numd (sc_start entry) 0.
Definition scene_end (entry : scene) : Q :=
  numd (sc_end entry) (scene_start entry).

(** [collect_scene_window]: the entries that overlap the window by at least
    [min_overlap], in the order of their starts. *)
Definition collect_scene_window (scene_segments : list scene)
    (start end_ min_overlap : Q) : list scene :=
  sort_by_key scene_start
    (filter
       (fun entry =>
          negb (Qleb (scene_end entry) (scene_start entry))
          && Qleb min_overlap
               (overlap_seconds start end_ (scene_start entry)
                  (scene_end entry)))
       scene_segments).

(** The search for [best_entry] when the window is empty. *)
Fixpoint best_overlap_entry (start end_ : Q) (entries : list scene)
    (best_entry : option scene) (best_overlap : Q) : option scene :=
  match entries with
  | [] => best_entry
  | entry :: rest =>
      if Qleb (scene_end entry) (scene_start entry) then
        best_overlap_entry start end_ rest best_entry best_overlap
      else
        let ov :=
          overlap_seconds start end_ (scene_start entry) (scene_end entry) in
        if Qltb best_overlap ov then
          best_overlap_entry start end_ rest (Some entry) ov
        else best_overlap_entry start end_ rest best_entry best_overlap
  end.

(** The body of [for idx, highlight in enumerate(highlights):]: the
    highlight as the loop leaves it and the window stored for it. *)
Definition snap_highlight (scene_segments : list scene)
    (min_overlap min_duration : Q) (h : highlight)
    : highlight * option (list scene) :=
  match hl_start h, hl_duration h with
  | Some start, Some d =>
      let duration := if Qeqb d 0 then min_duration else d in
      let duration := if Qleb duration 0 then min_duration else duration in
      let end_ := start + duration in
      let end_ := if Qleb end_ start then start + min_duration else end_ in
      let window :=
        collect_scene_window scene_segments start end_ min_overlap in
      let window :=
        match window with
        | [] =>
            match best_overlap_entry start end_ scene_segments None 0 with
            | Some best_entry => [best_entry]
            | None => []
            end
        | _ => window
        end in
      match window with
      | [] => (h, None)
      | first :: _ =>
          let snapped_start := numd (sc_start first) start in
          let snapped_end := numd (sc_end (last window first)) end_ in
          if Qleb snapped_end snapped_start then (h, None)
          else
            (set_hl_duration (set_hl_start h (round2 snapped_start))
               (round2 (fmax min_duration (snapped_end - snapped_start))),
             Some window)
      end
  | _, _ => (h, None)
  end.

(** [highlight_windows]: the windows by the index of their highlight. *)
Fixpoint windows_from (idx : nat) (windows : list (option (list scene)))
    : list (nat * list scene) :=
  match windows with
  | [] => []
  | Some window :: rest => (idx, window) :: windows_from (S idx) rest
  | None :: rest => windows_from (S idx) rest
  end.

(** [snap_highlights_to_transcript]: the plan as it is left and the windows
    returned. *)
Definition snap_highlights_to_transcript_with (min_overlap min_duration : Q)
    (p : plan) (scene_segments : list scene)
    : plan * list (nat * list scene) :=
  match plan_highlights p, scene_segments with
  | [], _ => (p, [])
  | _, [] => (p, [])
  | highlights, _ =>
      let snapped :=
        map (snap_highlight scene_segments min_overlap min_duration)
          highlights in
      let highlight_windows := windows_from 0 (map snd snapped) in
      match highlight_windows with
      | [] => (set_highlights p (map fst snapped), [])
      | _ =>
          (set_highlights p (sort_by_key start_key (map fst snapped)),
           highlight_windows)
      end
  end.

Definition snap_highlights_to_transcript
    : plan -> list scene -> plan * list (nat * list scene) :=
  snap_highlights_to_transcript_with (6 # 100) (6 # 10).

(* --------------------------------------------------------------------- *)
(** ** Durations and transitions through the enrichment *)
(* --------------------------------------------------------------------- *)

(** Two segments with the same transitions. *)
Definition same_transitions (s s' : segment) : Prop :=
  seg_transitionIn s' = seg_transitionIn s
  /\ seg_transitionOut s' = seg_transitionOut s.

(** [hf] is the highlight [h] as the final passes leave it: the same id and
    type, the start rounded to two decimals, and a duration between
    [min_duration] and [round(max(min_duration, d), 2)], where [d] is the
    duration of [h]; so a highlight that came in with at most 5 s leaves
    with at most 5 s. *)
Definition final_duration_of (h hf : highlight) : Prop :=
  hl_id hf = hl_id h /\ hl_type hf = hl_type h
  /\ exists s d d',
       hl_start h = Some s /\ hl_duration h = Some d
       /\ hl_start hf = Some (round2 s) /\ hl_duration hf = Some d'
       /\ MIN_DURATION <= d' /\ d' <= round2 (fmax MIN_DURATION d)
       /\ (d <= 5 -> d' <= 5).

(** A call to action of two seconds, a transcript entry of ten, and the
    plan that holds the first over a segment of twenty seconds. *)
Definition call_to_action : highlight :=
  mkHighlight (Some "cta_1") (Some "noteBox") (Some 0) (Some 2)
    (Some "Subscribe Now") (Some "Subscribe Now") None None None [] None
    None None NoMetadata.

Definition long_entry : scene :=
  mkScene (Some 0) (Some 10) [] [] [] [] None
    (Some "welcome to the channel") false.

Definition stretched_plan : plan :=
  mkPlan [plain_segment "s1" 0 20] [call_to_action].

(** An entry of the resolver's stack that stems from a highlight of
    [input]: re-timed, and no longer than [round(max(min_duration, d), 2)]
    for the duration [d] it came with. *)
Definition bounded_from (input : list highlight) (e : highlight) : Prop :=
  exists h s d d',
    In h input /\ hl_start h = Some s /\ hl_duration h = Some d
    /\ e = set_hl_duration (set_hl_start h (round2 s)) d'
    /\ d' <= round2 (fmax MIN_DURATION d).

(* ===================================================================== *)
(** * Part II: lemmas and theorems *)
(* ===================================================================== *)

(* --------------------------------------------------------------------- *)
(** ** Comparisons, [max] and [min] *)
(* --------------------------------------------------------------------- *)

Lemma Qleb_true (a b : Q) : Qleb a b = true <-> a <= b.
Proof. unfold Qleb. apply Qle_bool_iff. Qed.

Lemma Qleb_false (a b : Q) : Qleb a b = false <-> b < a.
Proof.
  unfold Qleb. split; intro H.
  - apply Qnot_le_lt. intro Hle. apply Qle_bool_iff in Hle. congruence.
  - destruct (Qle_bool a b) eqn:E; [|reflexivity].
    apply Qle_bool_iff in E. exfalso. lra.
Qed.

Lemma Qltb_true (a b : Q) : Qltb a b = true <-> a < b.
Proof.
  unfold Qltb. rewrite negb_true_iff. apply (Qleb_false b a).
Qed.

Lemma Qltb_false (a b : Q) : Qltb a b = false <-> b <= a.
Proof.
  unfold Qltb. rewrite negb_false_iff. apply (Qleb_true b a).
Qed.

Lemma Qeqb_true (a b : Q) : Qeqb a b = true <-> a == b.
Proof. unfold Qeqb. apply Qeq_bool_iff. Qed.

Lemma fmax_cases (a b : Q) :
  (a < b /\ fmax a b = b) \/ (b <= a /\ fmax a b = a).
Proof.
  unfold fmax. destruct (Qltb a b) eqn:E.
  - left. apply Qltb_true in E. auto.
  - right. apply Qltb_false in E. auto.
Qed.

Lemma fmin_cases (a b : Q) :
  (b < a /\ fmin a b = b) \/ (a <= b /\ fmin a b = a).
Proof.
  unfold fmin. destruct (Qltb b a) eqn:E.
  - left. apply Qltb_true in E. auto.
  - right. apply Qltb_false in E. auto.
Qed.

Lemma fmax_lub_l a b : a <= fmax a b.
Proof. destruct (fmax_cases a b) as [[H ->]|[H ->]]; lra. Qed.
Lemma fmax_lub_r a b : b <= fmax a b.
Proof. destruct (fmax_cases a b) as [[H ->]|[H ->]]; lra. Qed.

(* --------------------------------------------------------------------- *)
(** ** Rounding *)
(* --------------------------------------------------------------------- *)

Lemma floor_bounds (q : Q) :
  inject_Z (Qfloor q) <= q /\ q < inject_Z (Qfloor q) + 1.
Proof.
  split. apply Qfloor_le.
  pose proof (Qlt_floor q) as H. rewrite inject_Z_plus in H. exact H.
Qed.

Lemma round_half_even_cases (q : Q) :
  let f := Qfloor q in
  (round_half_even q = f /\ q - inject_Z f <= 1 # 2) \/
  (round_half_even q = (f + 1)%Z /\ 1 # 2 <= q - inject_Z f).
Proof.
  intro f. unfold round_half_even. fold f.
  destruct (Qcompare_spec (q - inject_Z f) (1 # 2)) as [H|H|H].
  - destruct (Z.even f); [left|right]; split; auto; lra.
  - left. split; auto. lra.
  - right. split; auto. lra.
Qed.

Lemma round_half_even_near (q : Q) :
  inject_Z (round_half_even q) - (1 # 2) <= q /\
  q <= inject_Z (round_half_even q) + (1 # 2).
Proof.
  destruct (floor_bounds q) as [H1 H2].
  destruct (round_half_even_cases q) as [[-> H]|[-> H]].
  - lra.
  - rewrite inject_Z_plus. change (inject_Z 1) with 1. lra.
Qed.

Lemma round_half_even_mono (a b : Q) :
  a <= b -> (round_half_even a <= round_half_even b)%Z.
Proof.
  intro Hab.
  pose proof (Qfloor_resp_le _ _ Hab) as Hf.
  destruct (floor_bounds a) as [Ha1 Ha2].
  destruct (floor_bounds b) as [Hb1 Hb2].
  destruct (Z.eq_dec (Qfloor a) (Qfloor b)) as [E|NE].
  - unfold round_half_even. rewrite <- E.
    destruct (Qcompare_spec (a - inject_Z (Qfloor a)) (1 # 2)) as [H|H|H];
    destruct (Qcompare_spec (b - inject_Z (Qfloor a)) (1 # 2)) as [H'|H'|H'];
    try destruct (Z.even (Qfloor a)); try lia; try lra.
  - assert (Qfloor a + 1 <= Qfloor b)%Z by lia.
    destruct (round_half_even_cases a) as [[-> _]|[-> _]];
    destruct (round_half_even_cases b) as [[-> _]|[-> _]]; lia.
Qed.

Lemma round_half_even_int (q : Q) (n : Z) :
  q == inject_Z n -> round_half_even q = n.
Proof.
  intro H.
  assert (Hf : Qfloor q = n).
  { rewrite H. apply Qfloor_Z. }
  unfold round_half_even. rewrite Hf.
  destruct (Qcompare_spec (q - inject_Z n) (1 # 2)) as [E|E|E]; try lra; auto.
Qed.

Lemma Qmake_as_div (n : Z) (p : positive) :
  Qmake n p == inject_Z n / inject_Z (Zpos p).
Proof. apply Qmake_Qdiv. Qed.

Lemma scale_pos (p : positive) : 0 < inject_Z (Zpos p).
Proof. unfold Qlt, inject_Z. simpl. lia. Qed.

Lemma Qmake_scale (n : Z) (p : positive) :
  Qmake n p * inject_Z (Zpos p) == inject_Z n.
Proof.
  unfold Qeq, Qmult, inject_Z. simpl. lia.
Qed.

Lemma Qmake_le (n m : Z) (p : positive) :
  (n <= m)%Z -> Qmake n p <= Qmake m p.
Proof. intro H. unfold Qle. simpl. nia. Qed.

Lemma round_at_mono (p : positive) (a b : Q) :
  a <= b -> round_at p a <= round_at p b.
Proof.
  intro H. unfold round_at. apply Qmake_le. apply round_half_even_mono.
  apply Qmult_le_compat_r; auto. apply Qlt_le_weak, scale_pos.
Qed.

Lemma round_at_grid_eq (p : positive) (n : Z) (q : Q) :
  q == Qmake n p -> round_at p q = Qmake n p.
Proof.
  intro H. unfold round_at. f_equal. apply round_half_even_int.
  rewrite H. apply Qmake_scale.
Qed.

Lemma round_at_on_grid (p : positive) (q : Q) : on_grid p (round_at p q).
Proof. unfold on_grid, round_at. eexists. reflexivity. Qed.

Lemma round_at_fix (p : positive) (q : Q) : on_grid p q -> round_at p q == q.
Proof. intros [n H]. rewrite (round_at_grid_eq p n q H). symmetry. exact H. Qed.

Lemma round_at_idem (p : positive) (q : Q) :
  round_at p (round_at p q) = round_at p q.
Proof. unfold round_at at 1. unfold round_at. f_equal.
  apply round_half_even_int. apply Qmake_scale. Qed.

Lemma on_grid_plus (p : positive) (a b : Q) :
  on_grid p a -> on_grid p b -> on_grid p (a + b).
Proof.
  intros [n Hn] [m Hm]. exists (n + m)%Z. rewrite Hn, Hm.
  unfold Qeq, Qplus. simpl. nia.
Qed.

Lemma round_at_proper (p : positive) (a b : Q) : a == b -> round_at p a = round_at p b.
Proof.
  intro H. unfold round_at. f_equal.
  apply Z.le_antisymm; apply round_half_even_mono; rewrite H; lra.
Qed.

(* --------------------------------------------------------------------- *)
(** ** Stable sorting *)
(* --------------------------------------------------------------------- *)

Section StableSortFacts.
Context {A : Type}.
Variable leb : A -> A -> bool.

Lemma insert_sorted_perm (x : A) (l : list A) :
  Permutation (insert_sorted leb x l) (x :: l).
Proof.
  induction l as [|y r IH]; simpl.
  - apply Permutation_refl.
  - destruct (leb x y).
    + apply Permutation_refl.
    + apply Permutation_trans with (y :: x :: r).
      * apply perm_skip, IH.
      * apply perm_swap.
Qed.

Lemma stable_sort_perm (l : list A) : Permutation (stable_sort leb l) l.
Proof.
  induction l as [|x r IH]; simpl.
  - apply perm_nil.
  - apply Permutation_trans with (x :: stable_sort leb r).
    + apply insert_sorted_perm.
    + apply perm_skip, IH.
Qed.

Lemma stable_sort_length (l : list A) :
  List.length (stable_sort leb l) = List.length l.
Proof. apply Permutation_length, stable_sort_perm. Qed.

Lemma stable_sort_In (l : list A) (x : A) :
  In x (stable_sort leb l) <-> In x l.
Proof.
  split; apply Permutation_in.
  - apply stable_sort_perm.
  - apply Permutation_sym, stable_sort_perm.
Qed.

(** Sorting a list that is already in order changes nothing. *)
Lemma stable_sort_sorted (l : list A) :
  Sorted (fun a b => leb a b = true) l -> stable_sort leb l = l.
Proof.
  induction 1 as [|x r Hs IH Hd]; simpl.
  - reflexivity.
  - rewrite IH. destruct Hd as [|y r' Hxy]; simpl.
    + reflexivity.
    + rewrite Hxy. reflexivity.
Qed.

Hypothesis leb_total : forall a b, leb a b = true \/ leb b a = true.

Lemma insert_sorted_Sorted (x : A) (l : list A) :
  Sorted (fun a b => leb a b = true) l ->
  Sorted (fun a b => leb a b = true) (insert_sorted leb x l).
Proof.
  induction 1 as [|y r Hs IH Hd]; simpl.
  - constructor; constructor.
  - destruct (leb x y) eqn:E.
    + constructor. constructor; assumption. constructor. exact E.
    + constructor. exact IH.
      destruct (leb_total x y) as [H|H]; [congruence|].
      destruct Hd as [|z r' Hyz]; simpl.
      * constructor. exact H.
      * destruct (leb x z); constructor; assumption.
Qed.

Lemma stable_sort_Sorted (l : list A) :
  Sorted (fun a b => leb a b = true) (stable_sort leb l).
Proof.
  induction l as [|x r IH]; simpl.
  - constructor.
  - apply insert_sorted_Sorted, IH.
Qed.

End StableSortFacts.

Lemma StronglySorted_filter {A : Type} (R : A -> A -> Prop) (f : A -> bool)
    (l : list A) :
  StronglySorted R l -> StronglySorted R (filter f l).
Proof.
  induction 1 as [|x r Hs IH Hf]; simpl.
  - constructor.
  - destruct (f x).
    + constructor. exact IH.
      rewrite Forall_forall in *. intros y Hy.
      apply filter_In in Hy. apply Hf, Hy.
    + exact IH.
Qed.

Lemma StronglySorted_app_one {A : Type} (R : A -> A -> Prop)
    (l : list A) (x : A) :
  StronglySorted R l -> Forall (fun y => R y x) l ->
  StronglySorted R (l ++ [x]).
Proof.
  induction 1 as [|y r Hs IH Hf]; intro Hall; simpl.
  - constructor; constructor.
  - inversion Hall; subst. constructor.
    + apply IH. assumption.
    + apply Forall_app. split; [assumption|]. constructor; [assumption|constructor].
Qed.

Lemma StronglySorted_nth {A : Type} (R : A -> A -> Prop) (l : list A) :
  StronglySorted R l ->
  forall i j a b, (i < j)%nat ->
    nth_error l i = Some a -> nth_error l j = Some b -> R a b.
Proof.
  induction 1 as [|x r Hs IH Hf]; intros i j a b Hij Hi Hj.
  - destruct i; discriminate.
  - destruct j as [|j]; [lia|]. simpl in Hj.
    destruct i as [|i]; simpl in Hi.
    + inversion Hi; subst. rewrite Forall_forall in Hf.
      apply Hf. eapply nth_error_In; eauto.
    + apply (IH i j); auto. lia.
Qed.
(* --------------------------------------------------------------------- *)
(** ** The spacing resolver *)
(* --------------------------------------------------------------------- *)

Lemma StronglySorted_last {A : Type} (R : A -> A -> Prop) (l : list A) (x : A) :
  StronglySorted R (l ++ [x]) -> Forall (fun y => R y x) l.
Proof.
  induction l as [|y r IH]; simpl; intro H.
  - constructor.
  - inversion H as [|? ? Hs Hf]; subst. constructor.
    + rewrite Forall_forall in Hf. apply Hf. apply in_or_app. right. left. reflexivity.
    + apply IH. exact Hs.
Qed.

Section Spacing.
Variables min_gap min_duration : Q.
Hypothesis gap_grid : on_grid 100 min_gap.
Hypothesis duration_grid : on_grid 100 min_duration.

Lemma resolved_set_duration (h : highlight) (d : Q) :
  resolved min_duration h -> min_duration <= d ->
  resolved min_duration (set_hl_duration h (round2 d)).
Proof.
  intros (s & d0 & Hs & Hd & Gs & Gd & Hmin) Hle.
  exists s, (round2 d). simpl.
  split; [exact Hs|]. split; [reflexivity|]. split; [exact Gs|].
  split; [apply round_at_on_grid|].
  apply Qle_trans with (round_at 100 min_duration).
  - rewrite (round_at_fix 100 min_duration duration_grid). apply Qle_refl.
  - apply round_at_mono. exact Hle.
Qed.

Lemma stored_set_duration (h : highlight) (d : Q) :
  stored_start (set_hl_duration h d) = stored_start h /\
  stored_duration (set_hl_duration h d) = d.
Proof. split; reflexivity. Qed.

(** Shrinking the top of a spaced stack keeps it spaced. *)
Lemma spaced_stack_shrink (previous : highlight) (rest : list highlight)
    (d : Q) :
  spaced_stack min_gap min_duration (previous :: rest) ->
  min_duration <= d ->
  spaced_stack min_gap min_duration (set_hl_duration previous (round2 d) :: rest).
Proof.
  intros (Hres & Hclear & Hrest) Hd. simpl. split; [|split].
  - apply resolved_set_duration; auto.
  - destruct rest as [|below rest']; auto.
  - exact Hrest.
Qed.

Lemma spaced_stack_tail (h : highlight) (rest : list highlight) :
  spaced_stack min_gap min_duration (h :: rest) ->
  spaced_stack min_gap min_duration rest.
Proof. intros (_ & _ & H). exact H. Qed.

Lemma resolve_against_spaced (start duration : Q) (sec : bool)
    (filtered : list highlight) :
  spaced_stack min_gap min_duration filtered ->
  spaced_stack min_gap min_duration
    (resolve_against min_gap min_duration start duration sec filtered).
Proof.
  induction filtered as [|previous rest IH]; intro H; simpl.
  - exact I.
  - destruct (Qleb _ start); [exact H|].
    destruct (Qleb min_duration _) eqn:E1.
    { apply Qleb_true in E1. apply spaced_stack_shrink; auto. }
    destruct (sec && negb (is_section_title previous)).
    { apply IH. eapply spaced_stack_tail; eauto. }
    destruct (negb sec && is_section_title previous); [exact H|].
    destruct (Qltb (4 # 10) _).
    { apply spaced_stack_shrink; auto. apply fmax_lub_l. }
    destruct (Qltb _ duration); [|exact H].
    apply IH. eapply spaced_stack_tail; eauto.
Qed.

(** A stored duration never grows while the stack is resolved: the entries
    of the result are entries of the input, possibly shortened. This is
    what keeps an entry clear of its successor. *)

Lemma spacing_step_spaced (filtered : list highlight) (current : highlight) :
  spaced_stack min_gap min_duration filtered ->
  spaced_stack min_gap min_duration
    (spacing_step min_gap min_duration filtered current).
Proof.
  intro H. unfold spacing_step.
  destruct (hl_start current) as [start|]; [|exact H].
  destruct (hl_duration current) as [d|]; [|exact H].
  pose proof (resolve_against_spaced start (fmax min_duration d)
                (is_section_title current) filtered H) as H'.
  set (filtered' := resolve_against _ _ _ _ _ filtered) in *.
  assert (Hcur : resolved min_duration
            (set_hl_duration (set_hl_start current (round2 start))
               (round2 (fmax min_duration d)))).
  { exists (round2 start), (round2 (fmax min_duration d)). simpl.
    split; [reflexivity|]. split; [reflexivity|].
    split; [apply round_at_on_grid|]. split; [apply round_at_on_grid|].
    apply Qle_trans with (round_at 100 min_duration).
    - rewrite (round_at_fix 100 min_duration duration_grid). apply Qle_refl.
    - apply round_at_mono. apply fmax_lub_l. }
  destruct filtered' as [|prev_last below] eqn:EF.
  - simpl. auto.
  - destruct (Qltb start _) eqn:E; [exact H'|].
    apply Qltb_false in E.
    simpl. split; [exact Hcur|]. split; [|exact H'].
    destruct H' as ((s & dd & Hs & Hd & Gs & Gd & Hmin) & _ & _).
    unfold clear_of, stored_start, stored_duration. simpl.
    rewrite Hs, Hd in *. simpl in *.
    assert (G : on_grid 100 (s + dd + min_gap)).
    { apply on_grid_plus; auto. apply on_grid_plus; auto. }
    apply Qle_trans with (round_at 100 (s + dd + min_gap)).
    + rewrite (round_at_fix 100 _ G). apply Qle_refl.
    + apply round_at_mono. exact E.
Qed.

Lemma spacing_fold_spaced (ordered filtered : list highlight) :
  spaced_stack min_gap min_duration filtered ->
  spaced_stack min_gap min_duration
    (fold_left (spacing_step min_gap min_duration) ordered filtered).
Proof.
  revert filtered. induction ordered as [|c r IH]; intros filtered H; simpl.
  - exact H.
  - apply IH. apply spacing_step_spaced. exact H.
Qed.

Hypothesis gap_duration_nonneg : 0 <= min_duration + min_gap.

(** In a spaced stack every entry is clear of all the entries above it, and
    all entries are resolved. *)
Lemma spaced_stack_sorted (stack : list highlight) :
  spaced_stack min_gap min_duration stack ->
  Forall (resolved min_duration) stack /\
  StronglySorted (clear_of min_gap) (rev stack).
Proof.
  induction stack as [|top below IH]; intro H.
  - split; constructor.
  - destruct H as (Htop & Hclear & Hbelow).
    destruct (IH Hbelow) as [Hall Hsorted].
    split; [constructor; assumption|].
    simpl. apply StronglySorted_app_one; [exact Hsorted|].
    apply Forall_rev.
    destruct below as [|previous rest]; [constructor|].
    (* every entry below [previous] is clear of [previous], hence of [top] *)
    simpl in Hsorted.
    assert (Hprev : Forall (fun y => clear_of min_gap y previous) rest).
    { apply Forall_forall. intros y Hy.
      pose proof (StronglySorted_last _ _ _ Hsorted) as Hl.
      rewrite Forall_forall in Hl. apply Hl. apply in_rev in Hy. exact Hy. }
    inversion Hall as [|? ? Hp Hr]; subst.
    constructor; [exact Hclear|].
    rewrite Forall_forall in *. intros y Hy.
    specialize (Hprev y Hy). unfold clear_of in *.
    destruct Hp as (s & d & Hs & Hd & _ & _ & Hmin).
    unfold stored_start, stored_duration in *. rewrite Hs, Hd in *.
    simpl in *. lra.
Qed.

End Spacing.

Lemma default_gap_grid : on_grid 100 MIN_GAP.
Proof. exists 20%Z. reflexivity. Qed.

Lemma default_duration_grid : on_grid 100 MIN_DURATION.
Proof. exists 60%Z. reflexivity. Qed.

Lemma spacing_loop_well_spaced (ordered : list highlight) :
  well_spaced (spacing_loop MIN_GAP MIN_DURATION ordered).
Proof.
  unfold spacing_loop.
  assert (H : spaced_stack MIN_GAP MIN_DURATION
                (fold_left (spacing_step MIN_GAP MIN_DURATION) ordered [])).
  { apply spacing_fold_spaced.
    - exact default_gap_grid.
    - exact default_duration_grid.
    - exact I. }
  apply spaced_stack_sorted in H.
  - destruct H as [Hall Hs]. split; [|exact Hs]. apply Forall_rev. exact Hall.
  - unfold MIN_DURATION, MIN_GAP. lra.
Qed.

Lemma well_spaced_nil : well_spaced [].
Proof. split; constructor. Qed.

Lemma enforce_well_spaced (p : plan) :
  well_spaced (plan_highlights (enforce_highlight_spacing p)).
Proof.
  unfold enforce_highlight_spacing, enforce_highlight_spacing_with.
  destruct (plan_highlights p) as [|h r] eqn:E.
  - rewrite E. apply well_spaced_nil.
  - cbn [plan_highlights set_highlights]. apply spacing_loop_well_spaced.
Qed.

Lemma well_spaced_filter (f : highlight -> bool) (hs : list highlight) :
  well_spaced hs -> well_spaced (filter f hs).
Proof.
  intros [Hall Hs]. split.
  - rewrite Forall_forall in *. intros x Hx. apply filter_In in Hx.
    apply Hall, Hx.
  - apply StronglySorted_filter. exact Hs.
Qed.

Lemma resolved_stored (h : highlight) :
  resolved MIN_DURATION h ->
  MIN_DURATION <= stored_duration h /\ start_key h = stored_start h.
Proof.
  intros (s & d & Hs & Hd & _ & _ & Hmin).
  unfold stored_duration, start_key, stored_start. rewrite Hs, Hd. simpl.
  split; [exact Hmin|reflexivity].
Qed.

(** A well-spaced list is already in start order: sorting it by start is
    the identity. *)
Lemma well_spaced_sort (hs : list highlight) :
  well_spaced hs -> sort_by_key start_key hs = hs.
Proof.
  intros [Hall Hs]. unfold sort_by_key. apply stable_sort_sorted.
  apply StronglySorted_Sorted in Hs.
  induction Hs as [|x r Hs IH Hd].
  - constructor.
  - inversion Hall as [|? ? Hx Hr]; subst. constructor; [apply IH, Hr|].
    destruct Hd as [|y r' Hxy]; constructor.
    apply Qleb_true. inversion Hr as [|? ? Hy _]; subst.
    destruct (resolved_stored x Hx) as [Hdx Hkx].
    destruct (resolved_stored y Hy) as [_ Hky].
    rewrite Hkx, Hky. unfold clear_of in Hxy.
    unfold MIN_DURATION, MIN_GAP in *. lra.
Qed.

Lemma well_spaced_map (g : highlight -> highlight) (hs : list highlight) :
  (forall h, timing (g h) = timing h) ->
  well_spaced hs -> well_spaced (map g hs).
Proof.
  intros Hg [Hall Hs].
  assert (Hst : forall h, stored_start (g h) = stored_start h
                          /\ stored_duration (g h) = stored_duration h).
  { intro h. specialize (Hg h). unfold timing in Hg. inversion Hg as [[E1 E2]].
    unfold stored_start, stored_duration. rewrite E1, E2. auto. }
  split.
  - rewrite Forall_forall in *. intros x Hx. apply in_map_iff in Hx.
    destruct Hx as (h & <- & Hh). specialize (Hall h Hh).
    destruct Hall as (s & d & E1 & E2 & R). specialize (Hg h).
    unfold timing in Hg. inversion Hg as [[F1 F2]].
    exists s, d. rewrite F1, F2. auto.
  - induction Hs as [|x r Hs' IH Hf]; simpl; constructor.
    + apply IH. inversion Hall; assumption.
    + rewrite Forall_forall in *. intros y Hy. apply in_map_iff in Hy.
      destruct Hy as (h & <- & Hh). specialize (Hf h Hh).
      unfold clear_of in *.
      destruct (Hst x) as [-> ->]. destruct (Hst h) as [-> _]. exact Hf.
Qed.

(** From the resolver's invariant to the invariant of the specification. *)
Lemma well_spaced_min_spacing (eps : Q) (hs : list highlight) :
  0 <= eps -> well_spaced hs -> min_spacing eps hs.
Proof.
  intros Heps [Hall Hs] i j a b Hij Ha Hb Hle.
  assert (Ra : resolved MIN_DURATION a).
  { rewrite Forall_forall in Hall. apply Hall. eapply nth_error_In; eauto. }
  assert (Rb : resolved MIN_DURATION b).
  { rewrite Forall_forall in Hall. apply Hall. eapply nth_error_In; eauto. }
  destruct (resolved_stored a Ra) as [Hda _].
  destruct (resolved_stored b Rb) as [Hdb _].
  destruct (Nat.lt_total i j) as [Hlt|[Heq|Hgt]]; [|contradiction|].
  - pose proof (StronglySorted_nth _ _ Hs i j a b Hlt Ha Hb) as H.
    unfold clear_of in H. lra.
  - pose proof (StronglySorted_nth _ _ Hs j i b a Hgt Hb Ha) as H.
    unfold clear_of, MIN_DURATION, MIN_GAP in *. lra.
Qed.

Lemma min_spacing_nil (eps : Q) : min_spacing eps [].
Proof. intros i j a b _ Ha. destruct i; discriminate. Qed.

(** *** The passes after the resolver *)

Lemma prune_highlights_filter (p : plan) :
  well_spaced (plan_highlights p) ->
  exists keep,
    plan_highlights (prune_highlights p) = filter keep (plan_highlights p).
Proof.
  intro H. unfold prune_highlights, prune_highlights_with.
  destruct (_ <=? _)%nat.
  - exists (fun _ => true). symmetry. apply forallb_filter_id.
    apply forallb_forall. reflexivity.
  - eexists. cbn [plan_highlights set_highlights]. rewrite well_spaced_sort.
    + reflexivity.
    + apply well_spaced_filter. exact H.
Qed.

Lemma trim_highlights_filter (p : plan) :
  well_spaced (plan_highlights p) ->
  exists keep,
    plan_highlights (trim_highlights_to_segments p)
    = filter keep (plan_highlights p).
Proof.
  intro H. unfold trim_highlights_to_segments, trim_highlights_to_segments_with.
  assert (Hid : exists keep : highlight -> bool,
             plan_highlights p = filter keep (plan_highlights p)).
  { exists (fun _ => true). symmetry. apply forallb_filter_id.
    apply forallb_forall. reflexivity. }
  destruct (plan_segments p) as [|s ss]; [exact Hid|].
  destruct (plan_highlights p) as [|h hs] eqn:E.
  { exists (fun _ => true). rewrite E. reflexivity. }
  eexists. cbn [plan_highlights set_highlights]. rewrite well_spaced_sort.
  - reflexivity.
  - apply well_spaced_filter. exact H.
Qed.

Lemma ensure_broll_highlights (c : option (list broll_item)) (p : plan) :
  plan_highlights (ensure_broll_from_highlights c p) = plan_highlights p.
Proof.
  unfold ensure_broll_from_highlights.
  destruct c as [[|i items]|]; try reflexivity.
  destruct (plan_segments p); try reflexivity.
  destruct (plan_highlights p) eqn:E; cbn [plan_highlights set_segments]; auto.
Qed.

Lemma ensure_motion_highlights (r : option motion_rules) (p : plan) :
  plan_highlights (ensure_motion_from_highlights r p) = plan_highlights p.
Proof.
  unfold ensure_motion_from_highlights.
  destruct (plan_segments p); try reflexivity.
  destruct (plan_highlights p) eqn:E; cbn [plan_highlights set_segments]; auto.
Qed.

Lemma sfx_for_highlight_timing (available : list string) (h : highlight) :
  timing (sfx_for_highlight available h) = timing h.
Proof.
  unfold sfx_for_highlight.
  destruct (truthy_str (hl_sfx h)); [reflexivity|].
  destruct (String.eqb _ ""); [reflexivity|].
  destruct (pick_sfx_rule _ _ _) as [[? ?]|]; reflexivity.
Qed.

Lemma strip_sfx_of_timing (h : highlight) : timing (strip_sfx_of h) = timing h.
Proof.
  unfold strip_sfx_of.
  destruct (id_eqb _ _); [reflexivity|].
  destruct (audio_kept _); reflexivity.
Qed.

Lemma filter_filter {A : Type} (f g : A -> bool) (l : list A) :
  filter g (filter f l) = filter (fun x => f x && g x) l.
Proof.
  induction l as [|x r IH]; simpl; [reflexivity|].
  destruct (f x); simpl; [destruct (g x)|]; rewrite IH; reflexivity.
Qed.

Lemma map_timing_map (g : highlight -> highlight) (hs : list highlight) :
  (forall h, timing (g h) = timing h) ->
  map timing (map g hs) = map timing hs.
Proof.
  intro Hg. rewrite map_map. apply map_ext. exact Hg.
Qed.

(** The highlight list of the final plan is a selection of the resolver's
    output with the timing fields untouched. *)
Lemma finalize_plan_selects (broll_catalog : option (list broll_item))
    (rules : option motion_rules) (sfx_catalog : option (list sfx_item))
    (p : plan) :
  well_spaced (plan_highlights p) ->
  well_spaced
    (plan_highlights (trim_highlights_to_segments (prune_highlights p)))
  /\ exists keep,
       plan_highlights (trim_highlights_to_segments (prune_highlights p))
       = filter keep (plan_highlights p)
       /\ map timing
            (plan_highlights
               (strip_non_section_sfx
                  (ensure_highlight_sfx sfx_catalog
                     (ensure_motion_from_highlights rules
                        (ensure_broll_from_highlights broll_catalog
                           (trim_highlights_to_segments
                              (prune_highlights p)))))))
          = map timing (filter keep (plan_highlights p)).
Proof.
  intro H.
  destruct (prune_highlights_filter p H) as [k1 E1].
  assert (H1 : well_spaced (plan_highlights (prune_highlights p))).
  { rewrite E1. apply well_spaced_filter. exact H. }
  destruct (trim_highlights_filter _ H1) as [k2 E2].
  assert (H2 : well_spaced
            (plan_highlights
               (trim_highlights_to_segments (prune_highlights p)))).
  { rewrite E2. apply well_spaced_filter. exact H1. }
  split; [exact H2|].
  exists (fun x => k1 x && k2 x).
  rewrite <- filter_filter, <- E1, <- E2. split; [reflexivity|].
  unfold strip_non_section_sfx, ensure_highlight_sfx.
  cbn [plan_highlights set_highlights].
  rewrite ensure_motion_highlights, ensure_broll_highlights.
  rewrite map_timing_map by apply strip_sfx_of_timing.
  rewrite map_timing_map by apply sfx_for_highlight_timing.
  reflexivity.
Qed.

Lemma finalize_plan_well_spaced (broll_catalog : option (list broll_item))
    (rules : option motion_rules) (sfx_catalog : option (list sfx_item))
    (p : plan) :
  well_spaced
    (plan_highlights (finalize_plan broll_catalog rules sfx_catalog p)).
Proof.
  pose proof (enforce_well_spaced p) as H.
  destruct (finalize_plan_selects broll_catalog rules sfx_catalog _ H)
    as [H2 _].
  unfold finalize_plan, strip_non_section_sfx, ensure_highlight_sfx.
  cbn [plan_highlights set_highlights].
  rewrite ensure_motion_highlights, ensure_broll_highlights.
  apply well_spaced_map; [apply strip_sfx_of_timing|].
  apply well_spaced_map; [apply sfx_for_highlight_timing|].
  exact H2.
Qed.

(** The minimum-spacing invariant for plans whose timing is given by
    numbers as [option Q] holds them, which leaves out the float nan: after
    conflict resolution, of two different highlights A and B with
    [A.start <= B.start], B starts at least [0.2 - eps] after the end of A,
    for every tolerance [eps >= 0]. The invariant still holds after pruning,
    after trimming and in the final plan, whose highlights are a selection
    of the resolver's output with start and duration untouched. *)
Theorem spacing_invariant_after_resolution
    (broll_catalog : option (list broll_item))
    (rules : option motion_rules) (sfx_catalog : option (list sfx_item))
    (p : plan) (eps : Q) :
  0 <= eps ->
  min_spacing eps (plan_highlights (enforce_highlight_spacing p))
  /\ min_spacing eps
       (plan_highlights (prune_highlights (enforce_highlight_spacing p)))
  /\ min_spacing eps
       (plan_highlights
          (trim_highlights_to_segments
             (prune_highlights (enforce_highlight_spacing p))))
  /\ min_spacing eps
       (plan_highlights (finalize_plan broll_catalog rules sfx_catalog p))
  /\ exists keep,
       map timing
         (plan_highlights (finalize_plan broll_catalog rules sfx_catalog p))
       = map timing
           (filter keep (plan_highlights (enforce_highlight_spacing p))).
Proof.
  intro Heps.
  pose proof (enforce_well_spaced p) as H.
  destruct (prune_highlights_filter _ H) as [k1 E1].
  destruct (finalize_plan_selects broll_catalog rules sfx_catalog _ H)
    as [H2 (keep & _ & Hsel)].
  split; [apply well_spaced_min_spacing; assumption|].
  split.
  { apply well_spaced_min_spacing; [assumption|].
    rewrite E1. apply well_spaced_filter. exact H. }
  split; [apply well_spaced_min_spacing; assumption|].
  split.
  { apply well_spaced_min_spacing; [assumption|].
    apply finalize_plan_well_spaced. }
  exists keep. exact Hsel.
Qed.

Lemma spacing_invariant_after_resolution_witness :
  0 <= 1 # 100
  /\ min_spacing (1 # 100)
       (plan_highlights (finalize_plan None None None overlapping_plan)).
Proof.
  assert (H : 0 <= 1 # 100) by (unfold Qle; simpl; lia).
  split; [exact H|].
  apply (spacing_invariant_after_resolution None None None overlapping_plan
           (1 # 100) H).
Defined.
(** *** The steps of the resolver *)

Lemma Qleb_total (a b : Q) : Qleb a b = true \/ Qleb b a = true.
Proof.
  destruct (Qleb a b) eqn:E; [left; reflexivity|right].
  apply Qleb_false in E. apply Qleb_true. lra.
Qed.

(** The resolver works through the highlights in ascending start order. *)
Lemma enforce_processes_in_start_order (p : plan) :
  plan_highlights p <> [] ->
  plan_highlights (enforce_highlight_spacing p)
  = spacing_loop MIN_GAP MIN_DURATION
      (sort_by_key start_key (plan_highlights p))
  /\ Permutation (sort_by_key start_key (plan_highlights p))
       (plan_highlights p)
  /\ Sorted (fun a b => start_key a <= start_key b)
       (sort_by_key start_key (plan_highlights p)).
Proof.
  intro Hne. split; [|split].
  - unfold enforce_highlight_spacing, enforce_highlight_spacing_with.
    destruct (plan_highlights p); [contradiction|reflexivity].
  - apply stable_sort_perm.
  - unfold sort_by_key.
    pose proof (stable_sort_Sorted
                  (fun a b => Qleb (start_key a) (start_key b))
                  (fun a b => Qleb_total _ _) (plan_highlights p)) as H.
    induction H as [|x r Hs IH Hd]; constructor; auto.
    destruct Hd; constructor. apply Qleb_true. assumption.
Qed.

(** A highlight that starts at or after the previous end plus the gap is
    stored on top of an untouched stack. *)
Lemma spacing_step_accepts (min_gap min_duration : Q)
    (previous current : highlight) (rest : list highlight) (s d : Q) :
  hl_start current = Some s -> hl_duration current = Some d ->
  previous_end min_duration previous + min_gap <= s ->
  spacing_step min_gap min_duration (previous :: rest) current
  = accepted min_duration current s d :: previous :: rest.
Proof.
  intros Hs Hd Hclear. unfold spacing_step. rewrite Hs, Hd.
  unfold previous_end in Hclear. cbn [resolve_against].
  apply Qleb_true in Hclear. rewrite Hclear.
  apply Qleb_true in Hclear.
  assert (E : Qltb s
                (numd (hl_start previous) 0
                 + numd (hl_duration previous) min_duration + min_gap)
              = false).
  { apply Qltb_false.
    pose proof (fmax_lub_r min_duration
                  (numd (hl_duration previous) min_duration)). lra. }
  rewrite E. reflexivity.
Qed.

(** Otherwise the first thing tried is to shorten the previous highlight so
    that it ends [min_gap] before the new start. *)
Lemma resolve_against_shrinks_first (min_gap min_duration : Q)
    (previous : highlight) (rest : list highlight) (s duration : Q)
    (sec : bool) :
  s < previous_end min_duration previous + min_gap ->
  min_duration <= s - min_gap - numd (hl_start previous) 0 ->
  resolve_against min_gap min_duration s duration sec (previous :: rest)
  = set_hl_duration previous
      (round2 (s - min_gap - numd (hl_start previous) 0)) :: rest.
Proof.
  intros Hnear Hroom. unfold previous_end in Hnear. cbn [resolve_against].
  apply Qleb_false in Hnear. rewrite Hnear.
  apply Qleb_true in Hroom. rewrite Hroom. reflexivity.
Qed.

(** On the two-decimal grid, with a duration of at least the minimum, the
    stored highlight has the timing of the one that came in. *)
Lemma accepted_same_timing (min_duration : Q) (current : highlight) (s d : Q) :
  on_grid 100 s -> on_grid 100 d -> min_duration <= d ->
  stored_start (accepted min_duration current s d) == s
  /\ stored_duration (accepted min_duration current s d) == d.
Proof.
  intros Gs Gd Hmin. unfold accepted, stored_start, stored_duration. simpl.
  unfold round2. split.
  - apply round_at_fix. exact Gs.
  - destruct (fmax_cases min_duration d) as [[_ ->]|[Hle ->]].
    + apply round_at_fix. exact Gd.
    + assert (E : min_duration == d) by lra.
      rewrite (round_at_proper 100 _ _ E). apply round_at_fix. exact Gd.
Qed.

(** C2, as amended. The resolver processes the highlights in ascending start
    order. A new highlight that starts at or after the previous end plus
    [min_gap] is accepted with the previous one untouched; what is stored is
    the highlight with its start and duration rounded to two decimals and
    its duration raised to [min_duration] (the same timing when it already
    is on that grid and long enough). Otherwise the resolver first shrinks
    the previous duration to [new.start - min_gap - previous.start], rounded
    to two decimals, when that is at least [min_duration]. For highlights at
    (10, 3) and (12, 3) the first duration becomes 1.8 and both are kept. *)
Theorem spacing_resolver_steps (min_gap min_duration : Q)
    (previous current : highlight) (rest : list highlight) (s d : Q) :
  hl_start current = Some s -> hl_duration current = Some d ->
  (forall p, plan_highlights p <> [] ->
     plan_highlights (enforce_highlight_spacing p)
     = spacing_loop MIN_GAP MIN_DURATION
         (sort_by_key start_key (plan_highlights p))
     /\ Permutation (sort_by_key start_key (plan_highlights p))
          (plan_highlights p)
     /\ Sorted (fun a b => start_key a <= start_key b)
          (sort_by_key start_key (plan_highlights p)))
  /\ (previous_end min_duration previous + min_gap <= s ->
      spacing_step min_gap min_duration (previous :: rest) current
      = accepted min_duration current s d :: previous :: rest)
  /\ (on_grid 100 s -> on_grid 100 d -> min_duration <= d ->
      stored_start (accepted min_duration current s d) == s
      /\ stored_duration (accepted min_duration current s d) == d)
  /\ (s < previous_end min_duration previous + min_gap ->
      min_duration <= s - min_gap - numd (hl_start previous) 0 ->
      resolve_against min_gap min_duration s (fmax min_duration d)
        (is_section_title current) (previous :: rest)
      = set_hl_duration previous
          (round2 (s - min_gap - numd (hl_start previous) 0)) :: rest)
  /\ map (fun h => (hl_id h, hl_start h, hl_duration h))
       (plan_highlights (enforce_highlight_spacing overlapping_plan))
     = [ (Some "a", Some (1000 # 100), Some (180 # 100));
         (Some "b", Some (1200 # 100), Some (300 # 100)) ].
Proof.
  intros Hs Hd. split; [|split; [|split; [|split]]].
  - exact enforce_processes_in_start_order.
  - apply spacing_step_accepts; assumption.
  - apply accepted_same_timing.
  - apply resolve_against_shrinks_first.
  - vm_compute. reflexivity.
Qed.

Lemma spacing_resolver_steps_witness :
  resolve_against MIN_GAP MIN_DURATION 12 (fmax MIN_DURATION 3) false
    [note_box "a" 10 3]
  = [set_hl_duration (note_box "a" 10 3) (round2 (12 - MIN_GAP - 10))].
Proof.
  refine (proj1 (proj2 (proj2 (proj2
    (spacing_resolver_steps MIN_GAP MIN_DURATION (note_box "a" 10 3)
       (note_box "b" 12 3) [] 12 3 eq_refl eq_refl)))) _ _).
  - vm_compute. reflexivity.
  - vm_compute. discriminate.
Defined.

(** The claim C2 as stated fails: a new highlight clear of the previous one
    is not always accepted unchanged. A highlight of 0.3 s that starts at
    20 s, long after the previous one ended at 13 s, is stored with a
    duration of 0.6 s. *)
Lemma short_highlight_not_accepted_unchanged :
  previous_end MIN_DURATION (note_box "a" 10 3) + MIN_GAP <= 20
  /\ ~ accepted_unchanged MIN_GAP MIN_DURATION
         (note_box "a" 10 3) (note_box "b" 20 (3 # 10)) []
  /\ exists a b,
       plan_highlights (enforce_highlight_spacing short_second_plan) = [a; b]
       /\ hl_id b = Some "b"
       /\ stored_duration b == 6 # 10
       /\ ~ stored_duration b == 3 # 10.
Proof.
  split; [vm_compute; discriminate|]. split.
  - unfold accepted_unchanged. vm_compute. intro H. discriminate H.
  - eexists. eexists. split; [vm_compute; reflexivity|].
    split; [reflexivity|]. split; vm_compute; [reflexivity|discriminate].
Qed.

(* --------------------------------------------------------------------- *)
(** ** Dictionaries *)
(* --------------------------------------------------------------------- *)

Lemma dict_find_set (k k' : string) (v : value) (d : dict) :
  dict_find k' (dict_set k v d)
  = if String.eqb k' k then Some v else dict_find k' d.
Proof.
  unfold dict_find. induction d as [|[k0 v0] r IH]; simpl.
  - reflexivity.
  - destruct (String.eqb_spec k k0) as [->|Hk]; simpl.
    + destruct (String.eqb k' k0); reflexivity.
    + destruct (String.eqb_spec k' k0) as [->|Hk'].
      * destruct (String.eqb_spec k0 k) as [E|_]; [congruence|reflexivity].
      * exact IH.
Qed.

Lemma get_dict_set (k k' : string) (v : value) (d : dict) :
  get (dict_set k v d) k' = if String.eqb k' k then v else get d k'.
Proof.
  unfold get. rewrite dict_find_set. destruct (String.eqb k' k); reflexivity.
Qed.

Lemma get_set_if (c : bool) (k k' : string) (v : value) (d : dict) :
  get (set_if c k v d) k' = if c && String.eqb k' k then v else get d k'.
Proof.
  unfold set_if. destruct c; simpl; [apply get_dict_set|reflexivity].
Qed.

Lemma get_set_nonempty (k k' s : string) (d : dict) :
  get (set_nonempty k s d) k'
  = if negb (String.eqb s "") && String.eqb k' k then VStr s else get d k'.
Proof. apply get_set_if. Qed.

Lemma get_set_opt (k k' : string) (o : option string) (d : dict) :
  get (set_opt k o d) k'
  = match o with
    | Some s => if String.eqb k' k then VStr s else get d k'
    | None => get d k'
    end.
Proof. destruct o; simpl; [apply get_dict_set|reflexivity]. Qed.

Lemma get_set_opt_dict (k k' : string) (o : option dict) (d : dict) :
  get (set_opt_dict k o d) k'
  = match o with
    | Some t =>
        if truthy (VDict t) && String.eqb k' k then VDict t else get d k'
    | None => get d k'
    end.
Proof. destruct o; simpl; [apply get_set_if|reflexivity]. Qed.

Lemma get_setdefault_other (k k' : string) (v : value) (d : dict) :
  String.eqb k' k = false -> get (setdefault k v d) k' = get d k'.
Proof.
  intro H. unfold setdefault. destruct (has_key d k); [reflexivity|].
  rewrite get_dict_set, H. reflexivity.
Qed.

Lemma has_key_dict_set (k k' : string) (v : value) (d : dict) :
  has_key (dict_set k v d) k' = (String.eqb k' k || has_key d k').
Proof.
  unfold has_key. rewrite dict_find_set.
  destruct (String.eqb k' k); reflexivity.
Qed.
(* --------------------------------------------------------------------- *)
(** ** Durations the normaliser emits *)
(* --------------------------------------------------------------------- *)

(** Rounding to three decimals keeps a value between two bounds that are
    themselves on the grid. *)
Lemma round_at_between (p : positive) (lo hi q : Q) :
  on_grid p lo -> on_grid p hi -> lo <= q -> q <= hi ->
  lo <= round_at p q /\ round_at p q <= hi.
Proof.
  intros Glo Ghi Hlo Hhi. split.
  - apply Qle_trans with (round_at p lo).
    + rewrite (round_at_fix p lo Glo). apply Qle_refl.
    + apply round_at_mono. exact Hlo.
  - apply Qle_trans with (round_at p hi).
    + apply round_at_mono. exact Hhi.
    + rewrite (round_at_fix p hi Ghi). apply Qle_refl.
Qed.

Lemma clamp_between (lo hi q : Q) :
  lo <= hi -> lo <= fmax lo (fmin q hi) /\ fmax lo (fmin q hi) <= hi.
Proof.
  intro H.
  destruct (fmin_cases q hi) as [[H1 ->]|[H1 ->]];
  destruct (fmax_cases lo hi) as [[H2 E2]|[H2 E2]];
  destruct (fmax_cases lo q) as [[H3 E3]|[H3 E3]];
  try rewrite E2; try rewrite E3; split; lra.
Qed.

Lemma round3_clamp (lo hi q : Q) :
  on_grid 1000 lo -> on_grid 1000 hi -> lo <= hi ->
  lo <= round3 (fmax lo (fmin q hi)) /\ round3 (fmax lo (fmin q hi)) <= hi.
Proof.
  intros Glo Ghi H. destruct (clamp_between lo hi q H).
  apply round_at_between; assumption.
Qed.

Lemma finish_transition_within (transition_type : string)
    (direction : option string) (duration_value intensity_value : option Q) :
  transition_within (1 # 10) 3
    (finish_transition transition_type direction duration_value
       intensity_value).
Proof.
  unfold finish_transition.
  set (td := if mem_string transition_type ["fade"; "dissolve"] then _ else _).
  destruct td as [ty dir].
  set (ty' := if mem_string ty TRANSITION_TYPES then ty else "cut").
  destruct (String.eqb ty' "cut") eqn:Ecut.
  - left. split; reflexivity.
  - right.
    set (dv := match duration_value with
               | Some d => if Qltb 0 d then d else 6 # 10
               | None => 6 # 10
               end).
    exists (round3 (fmax (1 # 10) (fmin dv 3))). split.
    + assert (Hbase : forall c k v (b : dict),
                String.eqb "duration" k = false ->
                get (set_if c k v b) "duration" = get b "duration").
      { intros c k v b Hk. rewrite get_set_if, Hk, andb_false_r. reflexivity. }
      destruct (match intensity_value with
                | Some i => if Qleb i 0 then None else _
                | None => None
                end) as [i|];
      destruct dir as [dr|];
      rewrite ?Hbase by reflexivity; reflexivity.
    + apply round3_clamp.
      * exists 100%Z. reflexivity.
      * exists 3000%Z. reflexivity.
      * lra.
Qed.

Section NormalizerDurations.
Variable float_of_string : string -> option Q.
Variable repr_of : value -> string.
Variable normalize_sfx_name : value -> option string.

Lemma normalize_transition_within (v : value) (t : dict) :
  normalize_transition float_of_string v = Ok (Some t) ->
  transition_within (1 # 10) 3 t.
Proof.
  destruct v as [| | |s|l|d]; simpl; try discriminate.
  - intro H. inversion H; subst. apply finish_transition_within.
  - destruct (lower_of _) as [ty|]; simpl; [|discriminate].
    destruct (lower_of _) as [dir|]; simpl; [|discriminate].
    intro H. inversion H; subst. apply finish_transition_within.
Qed.

Lemma raw_highlight_timing_within (raw : dict) :
  15 # 10 <= snd (raw_highlight_timing float_of_string raw)
  /\ snd (raw_highlight_timing float_of_string raw) <= 5.
Proof.
  unfold raw_highlight_timing. cbn [snd].
  apply clamp_between. lra.
Qed.

Lemma highlight_timing_within (raw : dict) (e : option SrtEntry) (t : Q * Q) :
  highlight_timing float_of_string raw e = Ok t ->
  15 # 10 <= snd t /\ snd t <= 5.
Proof.
  unfold highlight_timing.
  pose proof (raw_highlight_timing_within raw) as Hraw.
  destruct (raw_highlight_timing float_of_string raw) as [start duration].
  cbn [snd] in Hraw.
  destruct e as [e|].
  - destruct (seconds_from_timecode (srt_start e)) as [a|]; simpl;
      [|discriminate].
    destruct (seconds_from_timecode (srt_end e)) as [b|]; simpl;
      [|discriminate].
    destruct (Qltb 0 _); intro H; inversion H; subst; cbn [snd].
    + apply clamp_between. lra.
    + exact Hraw.
  - intro H. inversion H; subst. exact Hraw.
Qed.

(** None of the blocks that complete a highlight dictionary writes its
    [duration]. *)
Ltac skip_writes :=
  repeat first
    [ rewrite get_dict_set | rewrite get_set_if | rewrite get_set_nonempty
    | rewrite get_setdefault_other by reflexivity ];
  cbn [String.eqb Ascii.eqb Bool.eqb];
  rewrite ?andb_false_r.

Lemma add_typed_text_duration (raw : dict) (ty : option string)
    (a b c d e f : string) (h : dict) :
  get (add_typed_text raw ty a b c d e f h) "duration" = get h "duration".
Proof.
  unfold add_typed_text.
  destruct (id_eqb ty (Some "noteBox")).
  - destruct (get raw "importance") as [| | |s| |];
      try destruct (String.eqb (strip s) ""); skip_writes; reflexivity.
  - destruct (id_eqb ty (Some "sectionTitle")).
    + destruct (format_section_title _ _). skip_writes. reflexivity.
    + skip_writes. reflexivity.
Qed.

Lemma add_variant_duration (raw h : dict) :
  get (add_variant repr_of raw h) "duration" = get h "duration".
Proof.
  unfold add_variant. destruct (assoc _ _); skip_writes; reflexivity.
Qed.

Lemma add_sfx_duration (raw h : dict) :
  get (add_sfx normalize_sfx_name raw h) "duration" = get h "duration".
Proof.
  unfold add_sfx. destruct (opt_str_truthy _); skip_writes; reflexivity.
Qed.

Lemma add_color_duration (raw : dict) (keys : list string) (k : string)
    (h : dict) :
  String.eqb "duration" k = false ->
  get (add_color raw keys k h) "duration" = get h "duration".
Proof.
  intro Hk. unfold add_color. destruct (or_list _); try reflexivity.
  rewrite get_set_nonempty, Hk, andb_false_r. reflexivity.
Qed.

Lemma add_layout_duration (l : option string) (s : string) (h : dict) :
  get (add_layout l s h) "duration" = get h "duration".
Proof.
  unfold add_layout. destruct l; skip_writes; reflexivity.
Qed.

Lemma add_stagger_duration (raw st h : dict) :
  get (add_stagger float_of_string raw st h) "duration" = get h "duration".
Proof.
  unfold add_stagger. destruct st; skip_writes; reflexivity.
Qed.

Lemma add_radius_duration (raw h : dict) :
  get (add_radius float_of_string raw h) "duration" = get h "duration".
Proof.
  unfold add_radius. destruct (try_float _ _); skip_writes; reflexivity.
Qed.

Lemma add_volume_duration (raw h : dict) :
  get (add_volume float_of_string raw h) "duration" = get h "duration".
Proof.
  unfold add_volume. destruct (try_float _ _); skip_writes; reflexivity.
Qed.

Lemma bind_Ok {A B : Type} (m : result A) (k : A -> result B) (b : B) :
  bind m k = Ok b -> exists a, m = Ok a /\ k a = Ok b.
Proof.
  destruct m as [a|e]; simpl; intro H; [|discriminate].
  exists a. split; [reflexivity|exact H].
Qed.

(** Every highlight the normaliser returns has a duration in [1.5, 5.0]. *)
Lemma normalize_highlight_item_duration (raw_value : value) (index : nat)
    (srt_lookup : list SrtEntry) (h : dict) :
  normalize_highlight_item float_of_string repr_of normalize_sfx_name
    raw_value index srt_lookup = Ok (Some h) ->
  duration_within (15 # 10) 5 h.
Proof.
  unfold normalize_highlight_item.
  destruct raw_value as [| | | | |raw]; try discriminate.
  intro H.
  repeat (apply bind_Ok in H; destruct H as (? & _ & H)).
  destruct (String.eqb (first_nonempty _) ""); [discriminate|].
  apply bind_Ok in H. destruct H as (t & Ht & H).
  apply bind_Ok in H. destruct H as (position & _ & H).
  match type of H with
  | (if ?c then _ else _) = _ => destruct c; [discriminate|]
  end.
  apply bind_Ok in H. destruct H as (asset & _ & H).
  apply bind_Ok in H. destruct H as (side & _ & H).
  inversion H; subst h; clear H.
  apply highlight_timing_within in Ht.
  exists (round3 (snd t)). split.
  - rewrite add_volume_duration, add_radius_duration, add_stagger_duration.
    rewrite get_set_if. cbn [String.eqb Ascii.eqb Bool.eqb].
    rewrite andb_false_r, add_layout_duration.
    rewrite get_set_if. cbn [String.eqb Ascii.eqb Bool.eqb].
    rewrite andb_false_r.
    rewrite !add_color_duration by reflexivity.
    rewrite add_sfx_duration, add_variant_duration.
    rewrite !get_set_nonempty. cbn [String.eqb Ascii.eqb Bool.eqb].
    rewrite !andb_false_r.
    rewrite add_typed_text_duration.
    rewrite get_set_opt.
    match goal with
    | |- match ?o with _ => _ end = _ => destruct o
    end; reflexivity.
  - apply round_at_between; try tauto.
    + exists 1500%Z. reflexivity.
    + exists 5000%Z. reflexivity.
Qed.

Lemma normalize_segment_transitions (raw_value : value) (index : nat)
    (tl : Q) (seg : dict) :
  normalize_segment float_of_string repr_of raw_value index
  = Ok (Some (tl, seg)) ->
  transition_value_within (1 # 10) 3 (get seg "transitionIn")
  /\ transition_value_within (1 # 10) 3 (get seg "transitionOut").
Proof.
  unfold normalize_segment.
  destruct raw_value as [| | | | |raw]; try discriminate.
  destruct (segment_duration float_of_string raw) as [duration|];
    [|discriminate].
  intro H.
  apply bind_Ok in H. destruct H as (label & _ & H).
  apply bind_Ok in H. destruct H as (tin & Hin & H).
  apply bind_Ok in H. destruct H as (tout & Hout & H).
  inversion H; subst; clear H.
  split.
  - rewrite get_set_if. cbn [String.eqb Ascii.eqb Bool.eqb].
    rewrite andb_false_r, get_set_opt.
    assert (E : forall d, match
                normalize_camera_movement repr_of
                  (or_list
                     [get raw "cameraMovement"; get raw "camera_movement";
                      match get raw "metadata" with
                      | VDict m => get m "cameraMovement"
                      | _ => VNone
                      end])
              with
              | Some s =>
                  if String.eqb "transitionIn" "cameraMovement"
                  then VStr s else get d "transitionIn"
              | None => get d "transitionIn"
              end = get d "transitionIn").
    { intro d. destruct (normalize_camera_movement _ _); reflexivity. }
    rewrite E. clear E.
    rewrite get_set_opt_dict.
    assert (E : forall (o : option dict) d v,
              match o with
              | Some t =>
                  if truthy (VDict t)
                     && String.eqb "transitionIn" "transitionOut"
                  then v t else get d "transitionIn"
              | None => get d "transitionIn"
              end = get d "transitionIn").
    { intros o d v. destruct o as [t|]; [|reflexivity].
      cbn [String.eqb Ascii.eqb Bool.eqb]. rewrite andb_false_r.
      reflexivity. }
    rewrite (E tout _ VDict). clear E.
    rewrite get_set_opt_dict.
    destruct tin as [t|].
    + cbn [String.eqb Ascii.eqb Bool.eqb]. rewrite andb_true_r.
      destruct (truthy (VDict t)).
      * right. exists t. split; [reflexivity|].
        eapply normalize_transition_within. exact Hin.
      * left. rewrite !get_set_if, get_dict_set, !get_set_nonempty.
        cbn [String.eqb Ascii.eqb Bool.eqb]. rewrite !andb_false_r.
        reflexivity.
    + left. rewrite !get_set_if, get_dict_set, !get_set_nonempty.
      cbn [String.eqb Ascii.eqb Bool.eqb]. rewrite !andb_false_r.
      reflexivity.
  - rewrite get_set_if. cbn [String.eqb Ascii.eqb Bool.eqb].
    rewrite andb_false_r, get_set_opt.
    assert (E : forall d, match
                normalize_camera_movement repr_of
                  (or_list
                     [get raw "cameraMovement"; get raw "camera_movement";
                      match get raw "metadata" with
                      | VDict m => get m "cameraMovement"
                      | _ => VNone
                      end])
              with
              | Some s =>
                  if String.eqb "transitionOut" "cameraMovement"
                  then VStr s else get d "transitionOut"
              | None => get d "transitionOut"
              end = get d "transitionOut").
    { intro d. destruct (normalize_camera_movement _ _); reflexivity. }
    rewrite E. clear E.
    rewrite get_set_opt_dict.
    destruct tout as [t|].
    + cbn [String.eqb Ascii.eqb Bool.eqb]. rewrite andb_true_r.
      destruct (truthy (VDict t)).
      * right. exists t. split; [reflexivity|].
        eapply normalize_transition_within. exact Hout.
      * left. rewrite get_set_opt_dict.
        destruct tin; rewrite ?get_set_if, ?get_dict_set, ?get_set_nonempty;
        cbn [String.eqb Ascii.eqb Bool.eqb]; rewrite ?andb_false_r;
        rewrite ?get_set_if, ?get_dict_set, ?get_set_nonempty;
        cbn [String.eqb Ascii.eqb Bool.eqb]; rewrite ?andb_false_r;
        reflexivity.
    + left. rewrite get_set_opt_dict.
      destruct tin; rewrite ?get_set_if, ?get_dict_set, ?get_set_nonempty;
      cbn [String.eqb Ascii.eqb Bool.eqb]; rewrite ?andb_false_r;
      rewrite ?get_set_if, ?get_dict_set, ?get_set_nonempty;
      cbn [String.eqb Ascii.eqb Bool.eqb]; rewrite ?andb_false_r;
      reflexivity.
Qed.

Lemma normalize_segments_loop_Forall (P : Q * dict -> Prop)
    (raw_segments : list value) :
  (forall raw_value index it,
     normalize_segment float_of_string repr_of raw_value index
     = Ok (Some it) -> P it) ->
  forall index items,
    normalize_segments_loop float_of_string repr_of raw_segments index
    = Ok items ->
    Forall P items.
Proof.
  intro HP. induction raw_segments as [|r rest IH]; intros index items H.
  - inversion H. constructor.
  - simpl in H. apply bind_Ok in H. destruct H as (item & Hitem & H).
    apply bind_Ok in H. destruct H as (more & Hmore & H).
    inversion H; subst; clear H.
    specialize (IH _ _ Hmore).
    destruct item as [it|]; [|exact IH].
    constructor; [|exact IH]. eapply HP. exact Hitem.
Qed.

Lemma normalize_segments_Forall (P : dict -> Prop) (raw_segments : value)
    (segs : list dict) :
  (forall raw_value index tl seg,
     normalize_segment float_of_string repr_of raw_value index
     = Ok (Some (tl, seg)) -> P seg) ->
  normalize_segments float_of_string repr_of raw_segments = Ok segs ->
  Forall P segs.
Proof.
  intros HP H. unfold normalize_segments in H.
  destruct raw_segments as [| | | |l|]; try (inversion H; constructor).
  apply bind_Ok in H. destruct H as (items & Hitems & H).
  inversion H; subst; clear H.
  apply (normalize_segments_loop_Forall (fun it => P (snd it))) in Hitems.
  - rewrite Forall_forall in *. intros seg Hseg.
    apply in_map_iff in Hseg. destruct Hseg as (it & <- & Hit).
    apply Hitems. apply (stable_sort_In segment_item_leb). exact Hit.
  - intros rv i [tl seg] Hn. simpl. eapply HP. exact Hn.
Qed.

Lemma normalize_highlights_loop_cons (srt_lookup : list SrtEntry)
    (r : value) (rest : list value) (idx : nat) (acc : list dict) :
  normalize_highlights_loop float_of_string repr_of normalize_sfx_name
    srt_lookup (r :: rest) idx acc
  = (normalized <-
       normalize_highlight_item float_of_string repr_of normalize_sfx_name
         r idx srt_lookup ;;
     let acc :=
       match normalized with
       | Some h => if truthy (VDict h) then acc ++ [h] else acc
       | None => acc
       end in
     if (MAX_HIGHLIGHTS <=? List.length acc)%nat then Ok acc
     else normalize_highlights_loop float_of_string repr_of
            normalize_sfx_name srt_lookup rest (S idx) acc).
Proof. reflexivity. Qed.

Lemma normalize_highlights_loop_Forall (P : dict -> Prop)
    (srt_lookup : list SrtEntry) (raw_highlights : list value) :
  (forall raw_value index h,
     normalize_highlight_item float_of_string repr_of normalize_sfx_name
       raw_value index srt_lookup = Ok (Some h) -> P h) ->
  forall idx acc out,
    Forall P acc ->
    normalize_highlights_loop float_of_string repr_of normalize_sfx_name
      srt_lookup raw_highlights idx acc = Ok out ->
    Forall P out.
Proof.
  intro HP. induction raw_highlights as [|r rest IH];
    intros idx acc out Hacc H.
  - inversion H; subst. exact Hacc.
  - rewrite normalize_highlights_loop_cons in H.
    apply bind_Ok in H. destruct H as (n & Hn & H). cbv zeta in H.
    assert (Hacc' : Forall P
              match n with
              | Some h => if truthy (VDict h) then acc ++ [h] else acc
              | None => acc
              end).
    { destruct n as [h|]; [|exact Hacc].
      destruct (truthy (VDict h)); [|exact Hacc].
      apply Forall_app. split; [exact Hacc|].
      constructor; [|constructor]. eapply HP. exact Hn. }
    destruct (_ <=? _)%nat.
    + inversion H; subst. exact Hacc'.
    + eapply IH; [exact Hacc'|exact H].
Qed.

(** The shape of a normalised plan: its segment and highlight lists. *)
Lemma normalize_plan_shape (P : value) (srt_entries : list SrtEntry)
    (out : dict) :
  normalize_plan float_of_string repr_of normalize_sfx_name P srt_entries
  = Ok out ->
  exists p segs raw_hls hls,
    P = VDict p
    /\ normalize_segments float_of_string repr_of (get p "segments") = Ok segs
    /\ normalize_highlights_loop float_of_string repr_of normalize_sfx_name
         srt_entries raw_hls 0 [] = Ok hls
    /\ get out "segments" = VList (map VDict segs)
    /\ exists hls', Permutation hls' hls
         /\ get out "highlights" = VList (map VDict hls').
Proof.
  unfold normalize_plan. destruct P as [| | | | |p]; try discriminate.
  intro H.
  apply bind_Ok in H. destruct H as (segs & Hsegs & H).
  apply bind_Ok in H. destruct H as (raw_hls & _ & H).
  apply bind_Ok in H. destruct H as (hls & Hhls & H).
  inversion H; subst; clear H.
  exists p, segs, raw_hls, hls.
  split; [reflexivity|]. split; [exact Hsegs|]. split; [exact Hhls|].
  split.
  - rewrite get_set_if. cbn [String.eqb Ascii.eqb Bool.eqb].
    rewrite andb_false_r. reflexivity.
  - eexists. split; [apply stable_sort_perm|].
    rewrite get_set_if. cbn [String.eqb Ascii.eqb Bool.eqb].
    rewrite andb_false_r. reflexivity.
Qed.

Lemma normalize_plan_durations (P : value) (srt_entries : list SrtEntry)
    (out : dict) :
  normalize_plan float_of_string repr_of normalize_sfx_name P srt_entries
  = Ok out ->
  exists segs hls,
    get out "segments" = VList (map VDict segs)
    /\ get out "highlights" = VList (map VDict hls)
    /\ Forall
         (fun seg =>
            transition_value_within (1 # 10) 3 (get seg "transitionIn")
            /\ transition_value_within (1 # 10) 3 (get seg "transitionOut"))
         segs
    /\ Forall (duration_within (15 # 10) 5) hls.
Proof.
  intro H. apply normalize_plan_shape in H.
  destruct H as (p & segs & raw_hls & hls & -> & Hsegs & Hhls & Es
                 & hls' & Hperm & Eh).
  exists segs, hls'. split; [exact Es|]. split; [exact Eh|]. split.
  - eapply normalize_segments_Forall; [|exact Hsegs].
    intros rv i tl seg Hn. eapply normalize_segment_transitions. exact Hn.
  - assert (Hall : Forall (duration_within (15 # 10) 5) hls).
    { eapply normalize_highlights_loop_Forall; [|constructor|exact Hhls].
      intros rv i h Hn. eapply normalize_highlight_item_duration. exact Hn. }
    rewrite Forall_forall in *. intros h Hh. apply Hall.
    eapply Permutation_in; [exact Hperm|exact Hh].
Qed.

End NormalizerDurations.

Lemma finalize_plan_min_duration (broll_catalog : option (list broll_item))
    (rules : option motion_rules) (sfx_catalog : option (list sfx_item))
    (p : plan) (h : highlight) :
  In h (plan_highlights (finalize_plan broll_catalog rules sfx_catalog p)) ->
  6 # 10 <= stored_duration h.
Proof.
  intro Hin.
  destruct (finalize_plan_well_spaced broll_catalog rules sfx_catalog p)
    as [Hall _].
  rewrite Forall_forall in Hall.
  destruct (resolved_stored h (Hall h Hin)) as [H _]. exact H.
Qed.

(* --------------------------------------------------------------------- *)
(** ** Trimming to the segment timeline *)
(* --------------------------------------------------------------------- *)

Lemma latest_end_fold (segments : list segment) (acc : Q) :
  let r :=
    fold_left (fun a seg => fmax a (counted_end seg)) segments acc in
  acc <= r
  /\ (forall seg, In seg segments -> counted_end seg <= r)
  /\ (r = acc \/ exists seg, In seg segments /\ r = counted_end seg).
Proof.
  revert acc. induction segments as [|s rest IH]; intro acc; simpl.
  - split; [lra|]. split; [intros seg []|left; reflexivity].
  - destruct (IH (fmax acc (counted_end s))) as (H1 & H2 & H3).
    pose proof (fmax_lub_l acc (counted_end s)) as Hl.
    pose proof (fmax_lub_r acc (counted_end s)) as Hr.
    split; [lra|]. split.
    + intros seg [<-|Hin]; [lra|apply H2, Hin].
    + destruct H3 as [E|(seg & Hin & E)].
      * rewrite E.
        destruct (fmax_cases acc (counted_end s)) as [[_ E']|[_ E']].
        -- right. exists s. split; [left; reflexivity|exact E'].
        -- left. exact E'.
      * right. exists seg. split; [right; exact Hin|exact E].
Qed.

Lemma latest_end_spec (segments : list segment) :
  0 <= latest_end segments
  /\ (forall seg, In seg segments -> counted_end seg <= latest_end segments)
  /\ (latest_end segments = 0
      \/ exists seg, In seg segments
                     /\ latest_end segments = counted_end seg).
Proof. exact (latest_end_fold segments 0). Qed.

Lemma timeline_end_spec (segments : list segment) (m : Q) :
  timeline_end segments = Some m ->
  (forall seg, In seg segments -> segment_end seg <= m)
  /\ exists seg, In seg segments /\ m = segment_end seg.
Proof.
  revert m. induction segments as [|s rest IH]; intros m H; simpl in H.
  - discriminate.
  - destruct (timeline_end rest) as [m'|] eqn:E.
    + inversion H; subst; clear H. destruct (IH m' eq_refl) as (H1 & s' & Hin & E').
      pose proof (fmax_lub_l m' (segment_end s)).
      pose proof (fmax_lub_r m' (segment_end s)).
      split.
      * intros seg [<-|Hs]; [assumption|]. specialize (H1 seg Hs). lra.
      * destruct (fmax_cases m' (segment_end s)) as [[_ ->]|[_ ->]].
        -- exists s. split; [left; reflexivity|reflexivity].
        -- exists s'. split; [right; exact Hin|exact E'].
    + inversion H; subst; clear H.
      destruct rest as [|s2 rest2].
      * split; [intros seg [<-|[]]; lra|].
        exists s. split; [left; reflexivity|reflexivity].
      * simpl in E. destruct (timeline_end rest2); discriminate.
Qed.

Lemma timeline_end_some (segments : list segment) :
  segments <> [] -> exists m, timeline_end segments = Some m.
Proof.
  destruct segments as [|s rest]; [contradiction|]. intros _. simpl.
  destruct (timeline_end rest); eexists; reflexivity.
Qed.

(** With durations that are not negative and a segment that ends at or after
    0, [latest_end] is the end of the segment timeline. *)
Lemma latest_end_is_timeline_end (segments : list segment) :
  (forall seg, In seg segments -> 0 <= numd (seg_duration seg) 0) ->
  (exists seg, In seg segments /\ 0 <= segment_end seg) ->
  exists m, timeline_end segments = Some m /\ latest_end segments == m.
Proof.
  intros Hdur (s0 & Hin0 & Hpos).
  assert (Hne : segments <> []) by (intro E; rewrite E in Hin0; destruct Hin0).
  destruct (timeline_end_some segments Hne) as [m Hm].
  exists m. split; [exact Hm|].
  destruct (timeline_end_spec segments m Hm) as (Hub & smax & Hinm & Em).
  destruct (latest_end_spec segments) as (H0 & Hc & Hl).
  assert (Hce : forall seg, In seg segments -> counted_end seg == segment_end seg).
  { intros seg Hin. unfold counted_end, segment_end. specialize (Hdur seg Hin).
    destruct (fmax_cases 0 (numd (seg_duration seg) 0)) as [[_ ->]|[Hle ->]];
      lra. }
  apply Qle_antisym.
  - destruct Hl as [E|(seg & Hin & E)]; rewrite E.
    + specialize (Hub s0 Hin0). lra.
    + rewrite (Hce seg Hin). apply Hub, Hin.
  - rewrite Em, <- (Hce smax Hinm). apply Hc, Hinm.
Qed.

Lemma within_cutoff_spec (cutoff : Q) (h : highlight) :
  within_cutoff cutoff h = true
  <-> exists s, hl_start h = Some s /\ s <= cutoff.
Proof.
  unfold within_cutoff. destruct (hl_start h) as [s|].
  - rewrite Qleb_true. split.
    + intro H. exists s. auto.
    + intros (s' & E & H). inversion E; subst. exact H.
  - split; [discriminate|]. intros (s & E & _). discriminate.
Qed.

Lemma sort_by_key_Sorted {A : Type} (key : A -> Q) (l : list A) :
  Sorted (fun a b => key a <= key b) (sort_by_key key l).
Proof.
  unfold sort_by_key.
  pose proof (stable_sort_Sorted (fun a b => Qleb (key a) (key b))
                (fun a b => Qleb_total _ _) l) as H.
  induction H as [|x r Hs IH Hd]; constructor; auto.
  destruct Hd; constructor. apply Qleb_true. assumption.
Qed.

(** C10, as amended. A plan without segments (or without highlights) passes
    the trimming pass untouched. When the plan has a segment, the pass keeps
    exactly the highlights with a numeric start of at most
    [latest_end + 0.25] and returns them sorted by start; [latest_end] is
    the largest of 0 and the values [sourceStart + max(0, duration)], which
    is the maximum of [sourceStart + duration] when no duration is negative
    and some segment ends at or after 0. *)
Theorem trim_keeps_highlights_within_cutoff (p : plan) :
  (plan_segments p = [] -> trim_highlights_to_segments p = p)
  /\ (plan_segments p <> [] ->
      (forall h,
         In h (plan_highlights (trim_highlights_to_segments p))
         <-> In h (plan_highlights p)
             /\ exists s, hl_start h = Some s
                          /\ s <= latest_end (plan_segments p) + (25 # 100))
      /\ Permutation (plan_highlights (trim_highlights_to_segments p))
           (filter
              (within_cutoff (latest_end (plan_segments p) + (25 # 100)))
              (plan_highlights p))
      /\ Sorted (fun a b => start_key a <= start_key b)
           (plan_highlights (trim_highlights_to_segments p))
      /\ 0 <= latest_end (plan_segments p)
      /\ (forall seg, In seg (plan_segments p) ->
            counted_end seg <= latest_end (plan_segments p))
      /\ (latest_end (plan_segments p) = 0
          \/ exists seg, In seg (plan_segments p)
                         /\ latest_end (plan_segments p) = counted_end seg)
      /\ ((forall seg, In seg (plan_segments p) ->
             0 <= numd (seg_duration seg) 0) ->
          (exists seg, In seg (plan_segments p) /\ 0 <= segment_end seg) ->
          exists m, timeline_end (plan_segments p) = Some m
                    /\ latest_end (plan_segments p) == m)).
Proof.
  split.
  - intro E. unfold trim_highlights_to_segments,
      trim_highlights_to_segments_with. rewrite E. reflexivity.
  - intro Hne.
    assert (Hout : plan_highlights (trim_highlights_to_segments p)
                   = sort_by_key start_key
                       (filter
                          (within_cutoff
                             (latest_end (plan_segments p) + (25 # 100)))
                          (plan_highlights p))).
    { unfold trim_highlights_to_segments, trim_highlights_to_segments_with.
      destruct (plan_segments p) as [|s ss]; [contradiction|].
      destruct (plan_highlights p) as [|h hs] eqn:E.
      - rewrite E. reflexivity.
      - reflexivity. }
    rewrite Hout.
    split; [|split; [|split; [|split; [|split; [|split]]]]].
    + intro h. unfold sort_by_key. rewrite stable_sort_In, filter_In.
      rewrite within_cutoff_spec. reflexivity.
    + apply stable_sort_perm.
    + apply sort_by_key_Sorted.
    + apply latest_end_spec.
    + apply latest_end_spec.
    + apply latest_end_spec.
    + apply latest_end_is_timeline_end.
Qed.

Lemma trim_keeps_highlights_within_cutoff_witness :
  plan_segments overrun_plan <> []
  /\ map hl_id (plan_highlights (trim_highlights_to_segments overrun_plan))
     = [Some "early"; Some "edge"]
  /\ Sorted (fun a b => start_key a <= start_key b)
       (plan_highlights (trim_highlights_to_segments overrun_plan)).
Proof.
  assert (Hne : plan_segments overrun_plan <> []) by discriminate.
  split; [exact Hne|]. split; [vm_compute; reflexivity|].
  exact (proj1 (proj2 (proj2
    (proj2 (trim_keeps_highlights_within_cutoff overrun_plan) Hne)))).
Defined.

(** The claim C10 as stated fails: without segments the pass returns at
    once, so a highlight without a numeric start and a highlight that
    starts at 100 s both stay in the plan, in their order. *)
Lemma trim_skipped_without_segments :
  timeline_end (plan_segments segmentless_plan) = None
  /\ plan_highlights (trim_highlights_to_segments segmentless_plan)
     = [timeless_highlight; note_box "late" 100 3]
  /\ hl_start timeless_highlight = None
  /\ ~ stored_start (note_box "late" 100 3)
       <= latest_end (plan_segments segmentless_plan) + (25 # 100).
Proof.
  split; [reflexivity|]. split; [reflexivity|]. split; [reflexivity|].
  vm_compute. intro H. apply H. reflexivity.
Qed.
(* --------------------------------------------------------------------- *)
(** ** Pruning *)
(* --------------------------------------------------------------------- *)

Lemma id_eqb_eq (a b : option string) : id_eqb a b = true <-> a = b.
Proof.
  destruct a as [x|], b as [y|]; simpl; split; intro H;
    try discriminate; try reflexivity.
  - apply String.eqb_eq in H. subst. reflexivity.
  - inversion H. apply String.eqb_refl.
Qed.

Lemma enumerate_from_fst {A : Type} (n : nat) (l : list A) :
  map fst (enumerate_from n l) = seq n (List.length l).
Proof.
  revert n. induction l as [|x r IH]; intro n; simpl;
    [reflexivity|rewrite IH; reflexivity].
Qed.

Lemma enumerate_from_snd {A : Type} (n : nat) (l : list A) :
  map snd (enumerate_from n l) = l.
Proof.
  revert n. induction l as [|x r IH]; intro n; simpl;
    [reflexivity|rewrite IH; reflexivity].
Qed.

Lemma score_entries_items (hs : list highlight) :
  map entry_item (score_entries hs) = hs.
Proof.
  unfold score_entries. rewrite map_map. simpl.
  apply enumerate_from_snd.
Qed.

Lemma score_entries_NoDup (hs : list highlight) : NoDup (score_entries hs).
Proof.
  apply (NoDup_map_inv (fun e : scored_entry => snd (fst e))).
  unfold score_entries. rewrite map_map. simpl.
  rewrite enumerate_from_fst. apply seq_NoDup.
Qed.

Lemma In_firstn {A : Type} (n : nat) (l : list A) (x : A) :
  In x (firstn n l) -> In x l.
Proof.
  revert n. induction l as [|y r IH]; intros n H.
  - rewrite firstn_nil in H. exact H.
  - destruct n; simpl in H; [contradiction|].
    destruct H as [<-|H]; [left; reflexivity|right; eapply IH; exact H].
Qed.

Lemma NoDup_firstn {A : Type} (n : nat) (l : list A) :
  NoDup l -> NoDup (firstn n l).
Proof.
  revert n. induction l as [|x r IH]; intros n H.
  - rewrite firstn_nil. constructor.
  - destruct n; simpl; [constructor|].
    inversion H; subst. constructor.
    + intro Hin. apply In_firstn in Hin. contradiction.
    + apply IH. assumption.
Qed.

Lemma top_entries_facts (max_total : nat) (hs : list highlight) :
  (max_total <= List.length hs)%nat ->
  List.length (top_entries max_total hs) = max_total
  /\ NoDup (top_entries max_total hs)
  /\ (forall e, In e (top_entries max_total hs) ->
        In (entry_item e) hs /\ retained max_total hs (entry_item e) = true).
Proof.
  intro Hlen. unfold top_entries. split; [|split].
  - rewrite length_firstn, stable_sort_length.
    unfold score_entries. rewrite length_map.
    rewrite <- (length_map fst), enumerate_from_fst, length_seq. lia.
  - apply NoDup_firstn.
    eapply Permutation_NoDup;
      [apply Permutation_sym, stable_sort_perm|apply score_entries_NoDup].
  - intros e He. split.
    + apply In_firstn in He. apply stable_sort_In in He.
      rewrite <- (score_entries_items hs). apply in_map. exact He.
    + unfold retained, retained_ids. apply existsb_exists.
      exists (hl_id (entry_item e)). split.
      * apply in_map_iff. exists e. split; [reflexivity|exact He].
      * apply id_eqb_eq. reflexivity.
Qed.

Lemma prune_highlights_output (p : plan) :
  (MAX_TOTAL_HIGHLIGHTS < List.length (plan_highlights p))%nat ->
  plan_highlights (prune_highlights p)
  = sort_by_key start_key
      (filter (retained MAX_TOTAL_HIGHLIGHTS (plan_highlights p))
         (plan_highlights p)).
Proof.
  intro H. unfold prune_highlights, prune_highlights_with.
  destruct (Nat.leb_spec (List.length (plan_highlights p))
              MAX_TOTAL_HIGHLIGHTS) as [Hle|_]; [lia|].
  reflexivity.
Qed.

Lemma length_filter_map {A B : Type} (f : B -> bool) (g : A -> B)
    (l : list A) :
  List.length (filter f (map g l))
  = List.length (filter (fun x => f (g x)) l).
Proof.
  induction l as [|x r IH]; simpl; [reflexivity|].
  destruct (f (g x)); simpl; rewrite IH; reflexivity.
Qed.

(** The highlights of the top entries all pass the test, so at least
    [max_total] highlights are kept. *)
Lemma retained_at_least (max_total : nat) (hs : list highlight) :
  (max_total <= List.length hs)%nat ->
  (max_total <= List.length (filter (retained max_total hs) hs))%nat.
Proof.
  intro Hlen.
  destruct (top_entries_facts max_total hs Hlen) as (HT & HN & HI).
  set (keep := retained max_total hs) in *.
  assert (E : List.length (filter keep hs)
              = List.length
                  (filter (fun e => keep (entry_item e)) (score_entries hs))).
  { transitivity
      (List.length (filter keep (map entry_item (score_entries hs)))).
    - rewrite score_entries_items. reflexivity.
    - apply length_filter_map. }
  rewrite E.
  apply Nat.le_trans with (List.length (top_entries max_total hs));
    [rewrite HT; apply Nat.le_refl|].
  apply NoDup_incl_length; [exact HN|].
  intros e He. apply filter_In. split.
  - unfold top_entries in He. apply In_firstn in He.
    apply stable_sort_In in He. exact He.
  - apply HI, He.
Qed.

Lemma NoDup_map_injective {A B : Type} (f : A -> B) (l : list A) (x y : A) :
  NoDup (map f l) -> In x l -> In y l -> f x = f y -> x = y.
Proof.
  induction l as [|a r IH]; simpl; intros Hnd Hx Hy E; [contradiction|].
  inversion Hnd as [|? ? Hnotin Hnd']; subst.
  destruct Hx as [<-|Hx], Hy as [<-|Hy].
  - reflexivity.
  - exfalso. apply Hnotin. rewrite E. apply in_map. exact Hy.
  - exfalso. apply Hnotin. rewrite <- E. apply in_map. exact Hx.
  - apply IH; assumption.
Qed.

(** With pairwise distinct ids exactly [max_total] highlights are kept. *)
Lemma retained_at_most (max_total : nat) (hs : list highlight) :
  NoDup (map hl_id hs) ->
  (max_total <= List.length hs)%nat ->
  (List.length (filter (retained max_total hs) hs) <= max_total)%nat.
Proof.
  intros Hids Hlen.
  destruct (top_entries_facts max_total hs Hlen) as (HT & HN & HI).
  apply Nat.le_trans
    with (List.length (map entry_item (top_entries max_total hs)));
    [|rewrite length_map, HT; apply Nat.le_refl].
  apply NoDup_incl_length.
  - apply NoDup_filter. eapply NoDup_map_inv. exact Hids.
  - intros h Hh. apply filter_In in Hh. destruct Hh as [Hin Hkeep].
    unfold retained, retained_ids in Hkeep.
    apply existsb_exists in Hkeep. destruct Hkeep as (i & Hi & Heq).
    apply id_eqb_eq in Heq. apply in_map_iff in Hi.
    destruct Hi as (e & <- & He).
    assert (h = entry_item e).
    { apply (NoDup_map_injective hl_id hs); auto.
      apply (HI e). exact He. }
    subst h. apply in_map. exact He.
Qed.

Lemma scored_leb_total (a b : scored_entry) :
  scored_leb a b = true \/ scored_leb b a = true.
Proof.
  destruct a as [[[sa ta] ia] ha], b as [[[sb tb] ib] hb]. simpl.
  destruct (Qltb (- sa) (- sb)) eqn:E1; [left; reflexivity|].
  destruct (Qltb (- sb) (- sa)) eqn:E2; [right; reflexivity|].
  destruct (Qltb ta tb) eqn:E3; [left; reflexivity|].
  destruct (Qltb tb ta) eqn:E4; [right; reflexivity|].
  destruct (Nat.leb_spec ia ib); [left; reflexivity|right].
  apply Nat.leb_le. lia.
Qed.

(** What pruning guarantees: a list of at most 20 highlights is left as it
    is; a longer one is cut down to the highlights whose id is the id of one
    of the 20 best entries in the order of [(-score, start, index)], sorted
    by start again, and never to fewer than 20; with pairwise distinct ids
    exactly 20 are left. *)
Lemma prune_highlights_bounds (p : plan) :
  ((List.length (plan_highlights p) <= 20)%nat -> prune_highlights p = p)
  /\ ((20 < List.length (plan_highlights p))%nat ->
      Sorted (fun a b => scored_leb a b = true)
        (stable_sort scored_leb (score_entries (plan_highlights p)))
      /\ Permutation (plan_highlights (prune_highlights p))
           (filter (retained 20 (plan_highlights p)) (plan_highlights p))
      /\ Sorted (fun a b => start_key a <= start_key b)
           (plan_highlights (prune_highlights p))
      /\ (20 <= List.length (plan_highlights (prune_highlights p)))%nat
      /\ (NoDup (map hl_id (plan_highlights p)) ->
          List.length (plan_highlights (prune_highlights p)) = 20%nat)).
Proof.
  split.
  - intro H. unfold prune_highlights, prune_highlights_with.
    apply Nat.leb_le in H. unfold MAX_TOTAL_HIGHLIGHTS. rewrite H.
    reflexivity.
  - intro H. rewrite (prune_highlights_output p H).
    unfold MAX_TOTAL_HIGHLIGHTS.
    split; [apply stable_sort_Sorted, scored_leb_total|].
    split; [apply stable_sort_perm|].
    split; [apply sort_by_key_Sorted|].
    unfold sort_by_key. rewrite stable_sort_length.
    assert (Hge := retained_at_least 20 (plan_highlights p) ltac:(lia)).
    split; [exact Hge|].
    intro Hids.
    assert (Hle := retained_at_most 20 (plan_highlights p) Hids ltac:(lia)).
    lia.
Qed.

(** The scoring of a highlight: a section title with digits and three
    content words, and a plain note box with one short word. *)
Example score_of_section_title :
  score_highlight
    (mkHighlight (Some "s") (Some "sectionTitle") (Some 20) (Some 3) None
       (Some "Growth Plan 2024") None (Some "primary") None [] None None
       None NoMetadata)
  == 120 + 12 + 12 + 10 + 3 + 7 + 10.
Proof. vm_compute. reflexivity. Qed.

Example score_of_short_note :
  score_highlight
    (mkHighlight (Some "n") (Some "noteBox") (Some 200) (Some 9) None
       (Some "of Sales") None None None [] None None None NoMetadata)
  == 0 + 4 + 5 + 0 - 12.
Proof. vm_compute. reflexivity. Qed.

(** C4 fails on the code for highlights that share an id: the survivors are
    chosen by id, so the 21st highlight, which is not among the best 20 but
    carries the id [h0] of one of them, is kept as well and 21 highlights
    come out. *)
Theorem prune_keeps_21_on_shared_id :
  List.length (plan_highlights shared_id_plan) = 21%nat
  /\ map (fun e => snd (fst e))
       (firstn 20
          (stable_sort scored_leb
             (score_entries (plan_highlights shared_id_plan))))
     = seq 0 20
  /\ List.length (plan_highlights (prune_highlights shared_id_plan)) = 21%nat.
Proof.
  split; [reflexivity|]. split; vm_compute; reflexivity.
Qed.
(* --------------------------------------------------------------------- *)
(** ** B-roll reuse *)
(* --------------------------------------------------------------------- *)

Lemma filter_update_nth {A : Type} (f : A -> bool) (i : nat) (x y : A)
    (l : list A) :
  nth_error l i = Some x -> f x = false ->
  List.length (filter f (update_nth i y l))
  = (List.length (filter f l) + (if f y then 1 else 0))%nat.
Proof.
  revert i. induction l as [|a r IH]; intros i Hi Hx.
  - destruct i; discriminate.
  - destruct i as [|i]; simpl in Hi.
    + inversion Hi; subst. simpl. rewrite Hx.
      destruct (f y); simpl; lia.
    + simpl. destruct (f a); simpl; rewrite (IH i Hi Hx); lia.
Qed.

Lemma catalog_lookup_id (items : list broll_item) (cid : string)
    (item : broll_item) :
  catalog_lookup items cid = Some item -> bi_id item = Some cid.
Proof.
  unfold catalog_lookup. intro H. apply find_some in H.
  destruct H as [_ H]. apply id_eqb_eq. exact H.
Qed.

Lemma choose_candidate_spec (items : list broll_item)
    (counts : string -> nat) (candidates : list string)
    (cid : string) (item : broll_item) :
  choose_candidate items counts candidates = Some (cid, item) ->
  (counts cid < MAX_BROLL_REUSE)%nat /\ bi_id item = Some cid.
Proof.
  induction candidates as [|c rest IH]; cbn [choose_candidate];
    [discriminate|].
  destruct (catalog_lookup items c) as [it|] eqn:El; [|exact IH].
  destruct (not_a_video it); [exact IH|].
  destruct (MAX_BROLL_REUSE <=? counts c)%nat eqn:E; [exact IH|].
  apply Nat.leb_gt in E.
  intro H. inversion H; subst. split; [exact E|].
  eapply catalog_lookup_id. exact El.
Qed.

Lemma broll_step_inv (items : list broll_item) (locked : list string)
    (segments0 : list segment) (st : list segment * (string -> nat))
    (h : highlight) :
  broll_loop_inv segments0 st ->
  broll_loop_inv segments0 (broll_step items locked st h).
Proof.
  intro Hinv. destruct st as [segments counts]. unfold broll_step.
  destruct (hl_start h) as [start|]; [|exact Hinv].
  destruct (locate_segment segments start) as [i|]; [|exact Hinv].
  destruct (nth_error segments i) as [seg|] eqn:Enth; [|exact Hinv].
  destruct (seg_broll seg) as [b|] eqn:Eb; [exact Hinv|].
  destruct (match seg_id seg with
            | Some sid => mem_string sid locked
            | None => false
            end); [exact Hinv|].
  destruct (is_section_title h); [exact Hinv|].
  destruct (String.eqb (highlight_broll_text h seg) ""); [exact Hinv|].
  destruct (choose_candidate items counts _) as [[chosen_id chosen_item]|]
    eqn:Ec; [|exact Hinv].
  apply choose_candidate_spec in Ec. destruct Ec as [Hlt Hid].
  intro cid. destruct (Hinv cid) as [Hc Hcap]. cbn [fst snd] in *.
  unfold broll_use_count in *.
  rewrite (filter_update_nth (uses_broll cid) i seg _ segments Enth)
    by (unfold uses_broll; rewrite Eb; reflexivity).
  unfold bump, uses_broll at 2. cbn [seg_broll set_seg_broll br_id].
  rewrite Hid. simpl id_eqb.
  rewrite (String.eqb_sym chosen_id cid).
  destruct (String.eqb_spec cid chosen_id) as [->|Hne]; split; lia.
Qed.

Lemma broll_fold_inv (items : list broll_item) (locked : list string)
    (segments0 : list segment) (highlights : list highlight)
    (st : list segment * (string -> nat)) :
  broll_loop_inv segments0 st ->
  broll_loop_inv segments0 (fold_left (broll_step items locked) highlights st).
Proof.
  revert st. induction highlights as [|h r IH]; intros st H; simpl.
  - exact H.
  - apply IH, broll_step_inv, H.
Qed.

(** C6, as amended. The pass that assigns B-roll from highlight keywords
    adds any one catalog item to at most two segments: after it, an item is
    on at most two segments more than before. The cap counts only the
    assignments of this pass; the scored catalog match of [enrich_plan] has
    no cap. *)
Theorem keyword_broll_reuse_capped
    (broll_catalog : option (list broll_item)) (p : plan) (cid : string) :
  (broll_use_count cid
     (plan_segments (ensure_broll_from_highlights broll_catalog p))
   <= broll_use_count cid (plan_segments p) + 2)%nat.
Proof.
  unfold ensure_broll_from_highlights.
  destruct broll_catalog as [[|it items]|]; try lia.
  destruct (plan_segments p) as [|s ss] eqn:Es; [rewrite Es; lia|].
  destruct (plan_highlights p) as [|h hs] eqn:Eh; [rewrite Es; lia|].
  cbn [plan_segments set_segments].
  pose proof (broll_fold_inv (it :: items)
                (section_locked_segments (s :: ss) (h :: hs)) (s :: ss)
                (h :: hs) (s :: ss, fun _ => O)) as H.
  destruct (H ltac:(intro c; cbn [fst snd]; unfold MAX_BROLL_REUSE; lia) cid)
    as [H1 H2].
  unfold MAX_BROLL_REUSE in H2. lia.
Qed.

(** The claim C6 as stated fails: the scored catalog match gives the same
    clip to each of three segments, and the final plan keeps all three. *)
Lemma scored_broll_reused_three_times :
  broll_use_count "creative_brainstorm"
    (plan_segments enriched_three_segment_plan) = 3%nat.
Proof. vm_compute. reflexivity. Qed.
(* --------------------------------------------------------------------- *)
(** ** Motion cues *)
(* --------------------------------------------------------------------- *)

Lemma allowed_motion_cases (cue : string) :
  mem_string cue ALLOWED_MOTIONS = true -> cue = "zoomIn" \/ cue = "zoomOut".
Proof.
  unfold mem_string, ALLOWED_MOTIONS. simpl. rewrite orb_false_r.
  intro H. apply orb_true_iff in H.
  destruct H as [H|H]; apply String.eqb_eq in H; auto.
Qed.

Lemma decide_motion_allowed (rules : motion_rules) (h : highlight)
    (existing_cue last_motion : option string) :
  decide_motion rules h existing_cue last_motion = "zoomIn"
  \/ decide_motion rules h existing_cue last_motion = "zoomOut".
Proof.
  unfold decide_motion.
  repeat match goal with
         | |- context [if ?c then _ else _] =>
             lazymatch c with
             | mem_string _ ALLOWED_MOTIONS => fail
             | _ => destruct c
             end
         end; auto.
  all: destruct existing_cue as [cue|]; auto.
  all: destruct (mem_string cue ALLOWED_MOTIONS) eqn:E; auto.
  all: apply allowed_motion_cases in E; exact E.
Qed.

Lemma cue_kept_refl (s : segment) : cue_kept_or_allowed s s.
Proof. left. reflexivity. Qed.

Lemma cue_kept_trans (a b c : segment) :
  cue_kept_or_allowed a b -> cue_kept_or_allowed b c ->
  cue_kept_or_allowed a c.
Proof.
  unfold cue_kept_or_allowed. intros H1 H2.
  destruct H2 as [E|H2]; [rewrite E; exact H1|right; exact H2].
Qed.

Lemma Forall2_cue_refl (l : list segment) : Forall2 cue_kept_or_allowed l l.
Proof. induction l; constructor; auto using cue_kept_refl. Qed.

Lemma Forall2_cue_trans (a b c : list segment) :
  Forall2 cue_kept_or_allowed a b -> Forall2 cue_kept_or_allowed b c ->
  Forall2 cue_kept_or_allowed a c.
Proof.
  intro H. revert c. induction H as [|x y l l' Hxy Hl IH]; intros c Hc.
  - inversion Hc. constructor.
  - inversion Hc; subst. constructor.
    + eapply cue_kept_trans; eauto.
    + apply IH. assumption.
Qed.

Lemma Forall2_update_nth (l : list segment) (i : nat) (x y : segment) :
  nth_error l i = Some x -> cue_kept_or_allowed x y ->
  Forall2 cue_kept_or_allowed l (update_nth i y l).
Proof.
  revert i. induction l as [|a r IH]; intros i Hi Hxy.
  - destruct i; discriminate.
  - destruct i as [|i]; simpl in Hi.
    + inversion Hi; subst. simpl. constructor; [exact Hxy|].
      apply Forall2_cue_refl.
    + simpl. constructor; [apply cue_kept_refl|]. eapply IH; eauto.
Qed.

Lemma motion_step_cues (rules : motion_rules) (max_motions : nat)
    (st st' : motion_state) (h : highlight) :
  motion_step rules max_motions st h = inl st'
  \/ motion_step rules max_motions st h = inr st' ->
  Forall2 cue_kept_or_allowed (fst (fst st)) (fst (fst st')).
Proof.
  destruct st as [[segments assigned] last_motion]. unfold motion_step.
  assert (Hsame : forall r : motion_state + motion_state,
            r = inl (segments, assigned, last_motion)
            \/ r = inr (segments, assigned, last_motion) ->
            r = inl st' \/ r = inr st' ->
            Forall2 cue_kept_or_allowed segments (fst (fst st'))).
  { intros r Hr Hr'. destruct Hr as [Hr|Hr]; subst r;
      destruct Hr' as [E|E]; inversion E; subst; apply Forall2_cue_refl. }
  destruct (hl_start h) as [start|]; [|apply Hsame; auto].
  destruct (locate_segment segments start) as [i|]; [|apply Hsame; auto].
  destruct (nth_error segments i) as [seg|] eqn:Enth; [|apply Hsame; auto].
  destruct (_ && negb (truthy_str (seg_motionCue seg)));
    [apply Hsame; auto|].
  match goal with
  | |- context [if ?c then inl _ else _] => destruct c
  end; [apply Hsame; auto|].
  intros [E|E]; inversion E; subst; clear E. cbn [fst].
  eapply Forall2_update_nth; [exact Enth|].
  unfold cue_kept_or_allowed. cbn [seg_motionCue set_seg_motion].
  right.
  destruct (decide_motion_allowed rules h (seg_motionCue seg) last_motion)
    as [Hd|Hd]; rewrite Hd; auto.
Qed.

Lemma motion_loop_cues (rules : motion_rules) (max_motions : nat)
    (highlights : list highlight) (st : motion_state) :
  Forall2 cue_kept_or_allowed (fst (fst st))
    (fst (fst (motion_loop rules max_motions highlights st))).
Proof.
  revert st. induction highlights as [|h r IH]; intro st; simpl.
  - apply Forall2_cue_refl.
  - destruct (motion_step rules max_motions st h) as [st'|st'] eqn:E.
    + eapply Forall2_cue_trans; [|apply IH].
      eapply motion_step_cues. left. exact E.
    + eapply motion_step_cues. right. exact E.
Qed.

Lemma select_motion_cue_values (sc : SceneSummary) (rules : motion_rules)
    (assigned_so_far total_segments : nat) (cue : string) :
  select_motion_cue sc rules assigned_so_far total_segments = Some cue ->
  (exists rest, ss_motion_candidates sc = cue :: rest)
  \/ cue = "zoomIn" \/ cue = "pan" \/ cue = "zoomOut".
Proof.
  unfold select_motion_cue.
  destruct (_ <=? _)%Z; [discriminate|].
  destruct (ss_motion_candidates sc) as [|c rest].
  - repeat match goal with
           | |- context [if ?c then _ else _] => destruct c
           end; intro H; inversion H; auto.
  - intro H. inversion H; subst. left. exists rest. reflexivity.
Qed.

(** C7, as amended. A motion cue written by the highlight-driven pass
    [ensure_motion_from_highlights] is zoomIn or zoomOut: after the pass
    every segment has the cue it had before or one of these two. The
    scene-driven selector [select_motion_cue], whose result [enrich_plan]
    writes as it is, also returns [pan] or the first motion candidate of the
    scene map. *)
Theorem highlight_motion_cues_allowed (rules : option motion_rules)
    (p : plan) :
  Forall2 cue_kept_or_allowed (plan_segments p)
    (plan_segments (ensure_motion_from_highlights rules p))
  /\ (forall sc r assigned_so_far total_segments cue,
        select_motion_cue sc r assigned_so_far total_segments = Some cue ->
        (exists rest, ss_motion_candidates sc = cue :: rest)
        \/ cue = "zoomIn" \/ cue = "pan" \/ cue = "zoomOut").
Proof.
  split; [|apply select_motion_cue_values].
  unfold ensure_motion_from_highlights.
  destruct (plan_segments p) as [|s ss] eqn:Es;
    [rewrite Es; constructor|].
  destruct (plan_highlights p) as [|h hs] eqn:Eh;
    [rewrite Es; apply Forall2_cue_refl|].
  cbn [plan_segments set_segments].
  apply (motion_loop_cues _ _ (h :: hs) (s :: ss, _, None)).
Qed.

Lemma highlight_motion_cues_allowed_witness :
  map seg_motionCue
    (plan_segments (ensure_motion_from_highlights None cued_plan))
  = [Some "zoomIn"]
  /\ Forall2 cue_kept_or_allowed (plan_segments cued_plan)
       (plan_segments (ensure_motion_from_highlights None cued_plan)).
Proof.
  split; [vm_compute; reflexivity|].
  exact (proj1 (highlight_motion_cues_allowed None cued_plan)).
Defined.

(** The claim C7 as stated fails: for a scene of moderate score that lasts
    more than five seconds [enrich_plan] writes the cue [pan], and the
    final plan keeps it. *)
Lemma scene_motion_cue_pan :
  map seg_motionCue (plan_segments panned_plan) = [Some "pan"]
  /\ Some "pan" <> Some "zoomIn" /\ Some "pan" <> Some "zoomOut".
Proof.
  split; [vm_compute; reflexivity|]. split; discriminate.
Qed.
(* --------------------------------------------------------------------- *)
(** ** Segments of the normaliser *)
(* --------------------------------------------------------------------- *)

(** Looking a key up below a write to another key. *)
Lemma dict_find_dict_set_other (k k' : string) (v : value) (d : dict) :
  String.eqb k' k = false -> dict_find k' (dict_set k v d) = dict_find k' d.
Proof. intro H. rewrite dict_find_set, H. reflexivity. Qed.

Lemma dict_find_set_if_other (c : bool) (k k' : string) (v : value)
    (d : dict) :
  String.eqb k' k = false -> dict_find k' (set_if c k v d) = dict_find k' d.
Proof.
  intro H. unfold set_if. destruct c; [|reflexivity].
  apply dict_find_dict_set_other, H.
Qed.

Lemma dict_find_set_nonempty_other (k k' s : string) (d : dict) :
  String.eqb k' k = false ->
  dict_find k' (set_nonempty k s d) = dict_find k' d.
Proof. apply dict_find_set_if_other. Qed.

Lemma dict_find_set_opt_other (k k' : string) (o : option string)
    (d : dict) :
  String.eqb k' k = false -> dict_find k' (set_opt k o d) = dict_find k' d.
Proof.
  intro H. destruct o; [|reflexivity]. apply dict_find_dict_set_other, H.
Qed.

Lemma dict_find_set_opt_dict_other (k k' : string) (o : option dict)
    (d : dict) :
  String.eqb k' k = false ->
  dict_find k' (set_opt_dict k o d) = dict_find k' d.
Proof.
  intro H. destruct o; [|reflexivity]. apply dict_find_set_if_other, H.
Qed.

Ltac find_key :=
  repeat first
    [ rewrite dict_find_set_if_other by reflexivity
    | rewrite dict_find_set_nonempty_other by reflexivity
    | rewrite dict_find_set_opt_other by reflexivity
    | rewrite dict_find_set_opt_dict_other by reflexivity
    | rewrite dict_find_dict_set_other by reflexivity ].

Lemma first_positive_head (q : Q) (rest : list Q) :
  0 < q -> first_positive (q :: rest) = Some q.
Proof.
  intro H. unfold first_positive. simpl.
  apply Qltb_true in H. rewrite H. reflexivity.
Qed.

Lemma first_positive_skip (q : Q) (rest : list Q) :
  q <= 0 -> first_positive (q :: rest) = first_positive rest.
Proof.
  intro H. unfold first_positive. simpl.
  apply Qltb_false in H. rewrite H. reflexivity.
Qed.

Section NormalizerSegments.
Variable float_of_string : string -> option Q.
Variable repr_of : value -> string.

(** The duration the segment loop computes is the first positive
    candidate. *)
Lemma segment_duration_spec (raw : dict) :
  segment_duration float_of_string raw
  = first_positive (duration_candidates float_of_string raw).
Proof.
  unfold segment_duration, duration_candidates.
  set (d := ensure_float float_of_string (get raw "duration") 0).
  set (e := ensure_float float_of_string (get raw "end") 0).
  set (s := ensure_float float_of_string (get_default raw "start" _) 0).
  set (l := ensure_float float_of_string (get raw "length") 0).
  destruct (Qleb d 0) eqn:Ed.
  - apply Qleb_true in Ed. rewrite (first_positive_skip d) by exact Ed.
    destruct (Qltb s e) eqn:Ese.
    + apply Qltb_true in Ese.
      assert (Hpos : 0 < e - s) by lra.
      rewrite (first_positive_head (e - s)) by exact Hpos.
      assert (E1 : Qleb (e - s) 0 = false) by (apply Qleb_false; exact Hpos).
      rewrite E1, E1. reflexivity.
    + apply Qltb_false in Ese.
      rewrite (first_positive_skip (e - s)) by lra.
      assert (E1 : Qleb d 0 = true) by (apply Qleb_true; exact Ed).
      rewrite E1.
      destruct (Qltb 0 l) eqn:El.
      * apply Qltb_true in El.
        rewrite (first_positive_head l) by exact El.
        assert (E2 : Qleb l 0 = false) by (apply Qleb_false; exact El).
        rewrite E2. reflexivity.
      * apply Qltb_false in El.
        rewrite (first_positive_skip l) by exact El.
        rewrite E1. reflexivity.
  - rewrite Ed, Ed. apply Qleb_false in Ed.
    rewrite (first_positive_head d) by exact Ed. reflexivity.
Qed.

Lemma segment_duration_positive (raw : dict) (d : Q) :
  segment_duration float_of_string raw = Some d -> 0 < d.
Proof.
  rewrite segment_duration_spec. unfold first_positive. intro H.
  apply find_some in H. destruct H as [_ H]. apply Qltb_true. exact H.
Qed.

(** The timing a kept segment is stored with. *)
Lemma normalize_segment_timing (raw : dict) (index : nat) (tl : Q)
    (seg : dict) :
  normalize_segment float_of_string repr_of (VDict raw) index
  = Ok (Some (tl, seg)) ->
  exists d,
    segment_duration float_of_string raw = Some d
    /\ dict_find "sourceStart" seg
       = Some (VNum (round3 (segment_source_start float_of_string raw)))
    /\ dict_find "duration" seg = Some (VNum (round3 d)).
Proof.
  unfold normalize_segment.
  destruct (segment_duration float_of_string raw) as [duration|];
    [|discriminate].
  intro H.
  apply bind_Ok in H. destruct H as (label & _ & H).
  apply bind_Ok in H. destruct H as (tin & _ & H).
  apply bind_Ok in H. destruct H as (tout & _ & H).
  inversion H; subst; clear H.
  exists duration. split; [reflexivity|].
  split; find_key; reflexivity.
Qed.

Lemma normalize_segment_not_dict (raw_value : value) (index : nat) :
  is_dict raw_value = false ->
  normalize_segment float_of_string repr_of raw_value index = Ok None.
Proof. destruct raw_value; try reflexivity. discriminate. Qed.

(** Every item the segment loop returns is the normal form of one of the
    raw segments. *)
Lemma normalize_segments_loop_origin (raw_segments : list value) :
  forall index items,
    normalize_segments_loop float_of_string repr_of raw_segments index
    = Ok items ->
    Forall
      (fun it =>
         exists raw i,
           In (VDict raw) raw_segments
           /\ normalize_segment float_of_string repr_of (VDict raw) i
              = Ok (Some it))
      items.
Proof.
  induction raw_segments as [|r rest IH]; intros index items H.
  - inversion H. constructor.
  - simpl in H. apply bind_Ok in H. destruct H as (item & Hitem & H).
    apply bind_Ok in H. destruct H as (more & Hmore & H).
    inversion H; subst; clear H.
    assert (Hrest : Forall
              (fun it =>
                 exists raw i,
                   In (VDict raw) (r :: rest)
                   /\ normalize_segment float_of_string repr_of (VDict raw) i
                      = Ok (Some it)) more).
    { apply IH in Hmore. rewrite Forall_forall in *. intros it Hit.
      destruct (Hmore it Hit) as (raw & i & Hin & Hn).
      exists raw, i. split; [right; exact Hin|exact Hn]. }
    destruct item as [it|]; [|exact Hrest].
    constructor; [|exact Hrest].
    destruct r as [| | | | |raw];
      try (rewrite normalize_segment_not_dict in Hitem by reflexivity;
           discriminate).
    exists raw, index. split; [left; reflexivity|exact Hitem].
Qed.

Lemma normalize_segments_origin (raw_segments : value) (segs : list dict) :
  normalize_segments float_of_string repr_of raw_segments = Ok segs ->
  Forall
    (fun seg =>
       exists raw i tl,
         In (VDict raw) (value_items raw_segments)
         /\ normalize_segment float_of_string repr_of (VDict raw) i
            = Ok (Some (tl, seg)))
    segs.
Proof.
  unfold normalize_segments.
  destruct raw_segments as [| | | |l|]; try (intro H; inversion H; constructor).
  intro H. apply bind_Ok in H. destruct H as (items & Hitems & H).
  inversion H; subst; clear H.
  apply normalize_segments_loop_origin in Hitems.
  rewrite Forall_forall in *. intros seg Hseg.
  apply in_map_iff in Hseg. destruct Hseg as ([tl seg'] & Es & Hin).
  simpl in Es. subst seg'.
  apply stable_sort_In in Hin.
  destruct (Hitems _ Hin) as (raw & i & Hraw & Hn).
  exists raw, i, tl. split; [exact Hraw|exact Hn].
Qed.

End NormalizerSegments.

(** The duration of a raw segment whose fields [float] reads as numbers of
    [Q], which leaves out nan and the infinities: it is the first positive
    value among its [duration] field, [end - start] and its [length] field,
    in that order. A segment without a positive candidate is left out:
    every segment of the normalised plan comes from a raw segment with a
    positive duration and stores that duration and the source start,
    rounded to three decimals. The raw segment [{start: 0, end: 5}] becomes
    a segment with source start 0 and duration 5. *)
Theorem segment_duration_first_positive
    (float_of_string : string -> option Q) (repr_of : value -> string)
    (normalize_sfx_name : value -> option string) :
  (forall raw,
     segment_duration float_of_string raw
     = first_positive (duration_candidates float_of_string raw))
  /\ (forall raw index,
        segment_duration float_of_string raw = None ->
        normalize_segment float_of_string repr_of (VDict raw) index
        = Ok None)
  /\ (forall p srt_entries out seg,
        normalize_plan float_of_string repr_of normalize_sfx_name (VDict p)
          srt_entries = Ok out ->
        In seg (plan_segment_dicts out) ->
        exists raw d,
          In (VDict raw) (value_items (get p "segments"))
          /\ first_positive (duration_candidates float_of_string raw)
             = Some d
          /\ 0 < d
          /\ get seg "duration" = VNum (round3 d)
          /\ get seg "sourceStart"
             = VNum (round3 (segment_source_start float_of_string raw)))
  /\ (forall srt_entries,
        normalize_plan float_of_string repr_of normalize_sfx_name
          start_end_plan srt_entries
        = Ok [("segments",
               VList [VDict [("id", VStr "segment-01");
                             ("sourceStart", VNum (round3 0));
                             ("duration", VNum (round3 5));
                             ("silenceAfter", VBool false)]]);
              ("highlights", VList [])])
  /\ round3 0 == 0 /\ round3 5 == 5.
Proof.
  split; [intro raw; apply segment_duration_spec|].
  split.
  { intros raw index H. unfold normalize_segment. rewrite H. reflexivity. }
  split.
  { intros p srt_entries out seg H Hin.
    apply normalize_plan_shape in H.
    destruct H as (p' & segs & raw_hls & hls & Ep & Hsegs & _ & Es & _).
    inversion Ep; subst p'; clear Ep.
    unfold plan_segment_dicts in Hin. rewrite Es in Hin.
    cbn [value_items] in Hin. rewrite map_map in Hin.
    cbn [value_dict] in Hin. rewrite map_id in Hin.
    apply normalize_segments_origin in Hsegs.
    rewrite Forall_forall in Hsegs.
    destruct (Hsegs seg Hin) as (raw & i & tl & Hraw & Hn).
    destruct (normalize_segment_timing _ _ _ _ _ _ Hn)
      as (d & Hd & Hstart & Hdur).
    exists raw, d. split; [exact Hraw|].
    split; [rewrite <- segment_duration_spec; exact Hd|].
    split; [eapply segment_duration_positive; exact Hd|].
    unfold get. rewrite Hstart, Hdur. split; reflexivity. }
  split; [intro srt_entries; vm_compute; reflexivity|].
  split; vm_compute; reflexivity.
Qed.

Lemma segment_duration_first_positive_witness :
  segment_duration no_float start_end_segment = Some (5 - 0)
  /\ normalize_segment no_float plain_repr
       (VDict [("duration", VNum 0); ("length", VNum (-2))]) 0
     = Ok None.
Proof.
  split.
  - rewrite (proj1 (segment_duration_first_positive no_float plain_repr
                      no_sfx) start_end_segment).
    reflexivity.
  - apply (proj1 (proj2 (segment_duration_first_positive no_float plain_repr
                           no_sfx))).
    reflexivity.
Defined.

(** C8, where the code departs from it. A raw plan that is not a dictionary
    raises [ValueError], as claimed; but a raw plan that is a dictionary
    can raise too: a segment whose [label] is a number makes
    [normalize_plan] raise [AttributeError] instead of skipping the
    segment. *)
Theorem normalize_plan_raises_on_numeric_label
    (float_of_string : string -> option Q) (repr_of : value -> string)
    (normalize_sfx_name : value -> option string)
    (srt_entries : list SrtEntry) :
  is_dict numeric_label_plan = true
  /\ normalize_plan float_of_string repr_of normalize_sfx_name
       numeric_label_plan srt_entries
     = Raise AttributeError
  /\ (forall P,
        is_dict P = false ->
        normalize_plan float_of_string repr_of normalize_sfx_name P
          srt_entries
        = Raise ValueError).
Proof.
  split; [reflexivity|]. split; [vm_compute; reflexivity|].
  intros P HP. destruct P; try reflexivity. discriminate.
Qed.

Lemma normalize_plan_raises_on_numeric_label_witness :
  normalize_plan no_float plain_repr no_sfx (VList []) [] = Raise ValueError.
Proof.
  apply (proj2 (proj2 (normalize_plan_raises_on_numeric_label no_float
                         plain_repr no_sfx []))).
  reflexivity.
Defined.
(* --------------------------------------------------------------------- *)
(** ** Normalising a normalised plan *)
(* --------------------------------------------------------------------- *)

Lemma finish_transition_normal (transition_type : string)
    (direction : option string) (duration_value intensity_value : option Q) :
  normal_transition
    (finish_transition transition_type direction duration_value
       intensity_value).
Proof.
  unfold finish_transition.
  set (td := if mem_string transition_type ["fade"; "dissolve"] then _ else _).
  destruct td as [ty dir].
  set (ty' := if mem_string ty TRANSITION_TYPES then ty else "cut").
  destruct (String.eqb ty' "cut").
  - split; [exists "cut"; reflexivity|].
    split; [reflexivity|]. split; [left; reflexivity|reflexivity].
  - destruct (match intensity_value with
              | Some i => if Qleb i 0 then None else _
              | None => None
              end) as [i|];
    destruct dir as [dr|]; unfold normal_transition.
    all: split; [exists ty'; find_key; reflexivity|].
    all: split; [find_key; reflexivity|].
    all: split; [|find_key; reflexivity].
    all: find_key.
    all: try (left; reflexivity).
    all: unfold set_if; destruct (_ && _);
      [right; exists dr; reflexivity|left; reflexivity].
Qed.



Section NormalizerAgain.
Variable float_of_string : string -> option Q.
Variable repr_of : value -> string.
Variable normalize_sfx_name : value -> option string.

Lemma normalize_transition_normal (v : value) (t : dict) :
  normalize_transition float_of_string v = Ok (Some t) ->
  normal_transition t.
Proof.
  destruct v as [| | |s|l|d]; simpl; try discriminate.
  - intro H. inversion H; subst. apply finish_transition_normal.
  - destruct (lower_of _) as [ty|]; simpl; [|discriminate].
    destruct (lower_of _) as [dir|]; simpl; [|discriminate].
    intro H. inversion H; subst. apply finish_transition_normal.
Qed.



(** The entries of a segment the loop returns. *)
Lemma normalize_segment_shape (raw : dict) (index : nat) (tl : Q)
    (seg : dict) :
  normalize_segment float_of_string repr_of (VDict raw) index
  = Ok (Some (tl, seg)) ->
  tl = ensure_float float_of_string
         (get_default raw "timelineStart" (get raw "timeline_start"))
         (segment_source_start float_of_string raw)
  /\ dict_find "id" seg
     = Some (VStr (py_str repr_of
                     (py_or (get raw "id")
                        (VStr (append "segment-" (pad2 (index + 1)))))))
  /\ absent_or_string (dict_find "label" seg)
  /\ absent_or_string (dict_find "title" seg)
  /\ absent_or_transition (dict_find "transitionIn" seg)
  /\ absent_or_transition (dict_find "transitionOut" seg)
  /\ Forall (fun k => dict_find k seg = None) RAW_ONLY_SEGMENT_KEYS.
Proof.
  unfold normalize_segment.
  destruct (segment_duration float_of_string raw) as [duration|];
    [|discriminate].
  intro H.
  apply bind_Ok in H. destruct H as (label & _ & H).
  apply bind_Ok in H. destruct H as (tin & Hin & H).
  apply bind_Ok in H. destruct H as (tout & Hout & H).
  inversion H; subst; clear H.
  split; [reflexivity|].
  split; [find_key; reflexivity|].
  split.
  { find_key. unfold set_nonempty, set_if.
    destruct (negb (String.eqb label "")); [right|left].
    - exists label. reflexivity.
    - reflexivity. }
  split.
  { find_key. unfold set_nonempty at 1. unfold set_if at 1.
    destruct (negb (String.eqb _ "")).
    - right. eexists. rewrite dict_find_set. reflexivity.
    - left. find_key. reflexivity. }
  split.
  { find_key. destruct tin as [t|]; cbn [set_opt_dict].
    - unfold set_if at 1. destruct (truthy (VDict t)).
      + right. exists t. rewrite dict_find_set. split; [reflexivity|].
        eapply normalize_transition_normal. exact Hin.
      + left. find_key. reflexivity.
    - left. find_key. reflexivity. }
  split.
  { find_key. destruct tout as [t|]; cbn [set_opt_dict].
    - unfold set_if at 1. destruct (truthy (VDict t)).
      + right. exists t. rewrite dict_find_set. split; [reflexivity|].
        eapply normalize_transition_normal. exact Hout.
      + left. find_key. reflexivity.
    - left. find_key. reflexivity. }
  unfold RAW_ONLY_SEGMENT_KEYS.
  repeat (constructor; [find_key; reflexivity|]). constructor.
Qed.




(** With their sort key equal to their source start, two items compare as
    their keys do. *)
Lemma segment_item_leb_spec (a b : Q * dict) :
  keyed_by_source_start a -> keyed_by_source_start b ->
  (segment_item_leb a b = true <-> fst a <= fst b).
Proof.
  unfold keyed_by_source_start, segment_item_leb, get. intros Ha Hb.
  rewrite Ha, Hb. cbn [num_of].
  destruct (Qltb (fst a) (fst b)) eqn:E1.
  - apply Qltb_true in E1. split; [intro; lra|reflexivity].
  - apply Qltb_false in E1.
    destruct (Qltb (fst b) (fst a)) eqn:E2.
    + apply Qltb_true in E2. split; [discriminate|intro; lra].
    + apply Qltb_false in E2.
      assert (E : fst a == fst b) by lra.
      unfold round3. rewrite (round_at_proper 1000 _ _ E).
      split; [intro; exact E2|intro]. apply Qleb_true. lra.
Qed.

Lemma segment_item_leb_total (a b : Q * dict) :
  segment_item_leb a b = true \/ segment_item_leb b a = true.
Proof.
  unfold segment_item_leb.
  destruct (Qltb (fst a) (fst b)) eqn:E1; [left; reflexivity|].
  destruct (Qltb (fst b) (fst a)) eqn:E2; [right; reflexivity|].
  apply Qleb_total.
Qed.






End NormalizerAgain.




(* ===================================================================== *)
(** * Part III: further properties of the code *)
(* ===================================================================== *)


(* --------------------------------------------------------------------- *)
(** ** Overlap of two intervals *)
(* --------------------------------------------------------------------- *)

(** [overlap_seconds] is never negative, does not depend on the order of the
    two intervals, is positive exactly when the intervals are proper and
    each starts before the other ends, and is at most the length of either
    interval. *)
Theorem overlap_seconds_facts (a_start a_end b_start b_end : Q) :
  0 <= overlap_seconds a_start a_end b_start b_end
  /\ overlap_seconds a_start a_end b_start b_end
     == overlap_seconds b_start b_end a_start a_end
  /\ (0 < overlap_seconds a_start a_end b_start b_end
      <-> a_start < a_end /\ b_start < b_end
          /\ a_start < b_end /\ b_start < a_end)
  /\ (a_start <= a_end ->
      overlap_seconds a_start a_end b_start b_end <= a_end - a_start)
  /\ (b_start <= b_end ->
      overlap_seconds a_start a_end b_start b_end <= b_end - b_start).
Proof.
  unfold overlap_seconds.
  destruct (fmin_cases a_end b_end) as [[H1 E1]|[H1 E1]];
  destruct (fmax_cases a_start b_start) as [[H2 E2]|[H2 E2]];
  destruct (fmin_cases b_end a_end) as [[H3 E3]|[H3 E3]];
  destruct (fmax_cases b_start a_start) as [[H4 E4]|[H4 E4]];
  rewrite E1, E2, E3, E4;
  match goal with
  | |- context [fmax 0 ?x] =>
      destruct (fmax_cases 0 x) as [[H5 E5]|[H5 E5]]; rewrite E5
  end;
  match goal with
  | |- context [fmax 0 ?x] =>
      destruct (fmax_cases 0 x) as [[H6 E6]|[H6 E6]]; rewrite E6
  | _ => idtac
  end;
  repeat split; intros; try lra.
Qed.

Lemma overlap_seconds_facts_witness :
  overlap_seconds 0 10 4 6 <= 10 - 0
  /\ overlap_seconds 0 10 4 6 == 2.
Proof.
  split.
  - apply (proj1 (proj2 (proj2 (proj2 (overlap_seconds_facts 0 10 4 6))))).
    vm_compute. discriminate.
  - vm_compute. reflexivity.
Defined.
(* --------------------------------------------------------------------- *)
(** ** The spacing resolver, once more *)
(* --------------------------------------------------------------------- *)

Lemma retimed_set_duration (h h' : highlight) (d : Q) :
  retimed h h' -> retimed h (set_hl_duration h' d).
Proof.
  intros (s & d0 & Hs & ->). exists s, d. split; [exact Hs|reflexivity].
Qed.

Lemma resolve_against_from (P : highlight -> Prop)
    (min_gap min_duration start duration : Q) (sec : bool)
    (filtered : list highlight) :
  (forall h d, P h -> P (set_hl_duration h d)) ->
  Forall P filtered ->
  Forall P (resolve_against min_gap min_duration start duration sec filtered)
  /\ (List.length
        (resolve_against min_gap min_duration start duration sec filtered)
      <= List.length filtered)%nat.
Proof.
  intro HP. induction filtered as [|previous rest IH]; intro H;
    cbn [resolve_against].
  - split; [constructor|lia].
  - inversion H as [|? ? Hp Hr]; subst.
    destruct (IH Hr) as [IH1 IH2].
    repeat match goal with
           | |- context [if ?c then _ else _] => destruct c
           end;
    cbn [List.length]; split; auto; try lia; constructor; auto.
Qed.

Lemma spacing_fold_from (input : list highlight) (min_gap min_duration : Q)
    (ordered filtered : list highlight) :
  incl ordered input ->
  Forall (fun h' => exists h, In h input /\ retimed h h') filtered ->
  Forall (fun h' => exists h, In h input /\ retimed h h')
    (fold_left (spacing_step min_gap min_duration) ordered filtered)
  /\ (List.length
        (fold_left (spacing_step min_gap min_duration) ordered filtered)
      <= List.length ordered + List.length filtered)%nat.
Proof.
  revert filtered.
  induction ordered as [|c r IH]; intros filtered Hin H; cbn [fold_left].
  - split; [exact H|cbn [List.length]; lia].
  - assert (Hstep :
              Forall (fun h' => exists h, In h input /\ retimed h h')
                (spacing_step min_gap min_duration filtered c)
              /\ (List.length (spacing_step min_gap min_duration filtered c)
                  <= S (List.length filtered))%nat).
    { unfold spacing_step.
      destruct (hl_start c) as [start|] eqn:Es; [|split; [exact H|lia]].
      destruct (hl_duration c) as [d|]; [|split; [exact H|lia]].
      destruct (resolve_against_from
                  (fun h' => exists h, In h input /\ retimed h h')
                  min_gap min_duration start (fmax min_duration d)
                  (is_section_title c) filtered) as [H1 H2].
      { intros h' d' (h & Hh & Hr). exists h.
        split; [exact Hh|apply retimed_set_duration; exact Hr]. }
      { exact H. }
      destruct (match resolve_against _ _ _ _ _ _ with
                | [] => false
                | prev_last :: _ => _
                end); [split; [exact H1|lia]|].
      split; [|cbn [List.length]; lia].
      constructor; [|exact H1].
      exists c. split; [apply Hin; left; reflexivity|].
      exists start, (round2 (fmax min_duration d)).
      split; [exact Es|reflexivity]. }
    destruct Hstep as [S1 S2].
    destruct (IH (spacing_step min_gap min_duration filtered c)) as [I1 I2].
    + intros x Hx. apply Hin. right. exact Hx.
    + exact S1.
    + split; [exact I1|]. cbn [List.length]. lia.
Qed.

(** The spacing resolver only drops and re-times: every highlight it returns
    is one of the highlights it was given, with the start rounded to two
    decimals, possibly another duration and every other key untouched; it
    never returns more highlights than it was given. *)
Theorem enforce_highlight_spacing_only_retimes (p : plan) :
  Forall (fun h' => exists h, In h (plan_highlights p) /\ retimed h h')
    (plan_highlights (enforce_highlight_spacing p))
  /\ (List.length (plan_highlights (enforce_highlight_spacing p))
      <= List.length (plan_highlights p))%nat
  /\ plan_segments (enforce_highlight_spacing p) = plan_segments p.
Proof.
  unfold enforce_highlight_spacing, enforce_highlight_spacing_with.
  destruct (plan_highlights p) as [|h hs] eqn:Eh.
  - rewrite Eh. split; [constructor|]. split; [cbn; lia|reflexivity].
  - cbn [plan_highlights set_highlights plan_segments].
    destruct (spacing_fold_from (h :: hs) MIN_GAP MIN_DURATION
                (sort_by_key start_key (h :: hs)) []) as [H1 H2].
    + intros x Hx. unfold sort_by_key in Hx.
      apply stable_sort_In in Hx. exact Hx.
    + constructor.
    + split; [|split; [|reflexivity]].
      * unfold spacing_loop. apply Forall_rev. exact H1.
      * unfold spacing_loop. rewrite length_rev.
        unfold sort_by_key in *. rewrite stable_sort_length in H2.
        cbn [List.length] in *. lia.
Qed.
(* --------------------------------------------------------------------- *)
(** ** Pruning, trimming and the sound passes *)
(* --------------------------------------------------------------------- *)

(** When the ids of the highlights are pairwise different and there are more
    than 20 highlights, pruning returns exactly 20 of them, sorted by
    start. *)
Theorem prune_highlights_distinct_ids (p : plan) :
  NoDup (map hl_id (plan_highlights p)) ->
  (20 < List.length (plan_highlights p))%nat ->
  List.length (plan_highlights (prune_highlights p)) = 20%nat
  /\ incl (plan_highlights (prune_highlights p)) (plan_highlights p)
  /\ Sorted (fun a b => start_key a <= start_key b)
       (plan_highlights (prune_highlights p))
  /\ plan_segments (prune_highlights p) = plan_segments p.
Proof.
  intros Hnd Hlen.
  destruct (prune_highlights_bounds p) as [_ H].
  destruct (H Hlen) as (_ & Hperm & Hsorted & _ & Hexact).
  split; [apply Hexact, Hnd|]. split; [|split; [exact Hsorted|]].
  - intros x Hx. apply (Permutation_in _ Hperm) in Hx.
    apply filter_In in Hx. apply Hx.
  - unfold prune_highlights, prune_highlights_with.
    destruct (_ <=? _)%nat; reflexivity.
Qed.

Lemma prune_highlights_distinct_ids_witness :
  List.length (plan_highlights (prune_highlights distinct_id_plan)) = 20%nat.
Proof.
  apply (prune_highlights_distinct_ids distinct_id_plan).
  - vm_compute.
    repeat (constructor;
            [intro H; repeat (destruct H as [H|H]; [discriminate H|]);
             exact H|]).
    constructor.
  - vm_compute. lia.
Defined.

Lemma filter_all {A : Type} (f : A -> bool) (l : list A) :
  (forall x, In x l -> f x = true) -> filter f l = l.
Proof.
  induction l as [|a r IH]; intro H; simpl.
  - reflexivity.
  - rewrite (H a (or_introl eq_refl)). f_equal.
    apply IH. intros x Hx. apply H. right. exact Hx.
Qed.

Lemma sort_by_key_idem {A : Type} (key : A -> Q) (l : list A) :
  sort_by_key key (sort_by_key key l) = sort_by_key key l.
Proof.
  unfold sort_by_key. apply stable_sort_sorted.
  apply stable_sort_Sorted. intros a b. apply Qleb_total.
Qed.

(** Trimming is idempotent, and it leaves the segments as they are. *)
Theorem trim_highlights_idempotent (p : plan) :
  trim_highlights_to_segments (trim_highlights_to_segments p)
  = trim_highlights_to_segments p
  /\ plan_segments (trim_highlights_to_segments p) = plan_segments p.
Proof.
  unfold trim_highlights_to_segments, trim_highlights_to_segments_with.
  destruct (plan_segments p) as [|s ss] eqn:Es.
  - rewrite Es. split; reflexivity.
  - destruct (plan_highlights p) as [|h hs] eqn:Eh.
    + rewrite ?Es, ?Eh. split; reflexivity.
    + cbn [plan_segments set_highlights plan_highlights].
      rewrite Es. split; [|reflexivity].
      set (cutoff := latest_end (s :: ss) + TRIM_MARGIN).
      set (out := sort_by_key start_key
                    (filter (within_cutoff cutoff) (h :: hs))).
      assert (Hfix : sort_by_key start_key (filter (within_cutoff cutoff) out)
                     = out).
      { rewrite filter_all.
        - apply sort_by_key_idem.
        - intros x Hx. unfold out, sort_by_key in Hx.
          apply stable_sort_In in Hx. apply filter_In in Hx. apply Hx. }
      destruct out as [|o os] eqn:Eo; [reflexivity|].
      rewrite Hfix. reflexivity.
Qed.

Lemma audio_kept_spec (m : metadata_entry) :
  audio_kept m = true
  <-> exists audio,
        m = Metadata (Some (Some audio))
        /\ In audio ["auto"; "keep"; "accent"].
Proof.
  split.
  - destruct m as [| |[[audio|]|]]; cbn [audio_kept]; try discriminate.
    unfold mem_string. cbn [existsb].
    intro H. exists audio. split; [reflexivity|].
    destruct (String.eqb_spec audio "auto") as [E|_];
      [rewrite E; left; reflexivity|].
    destruct (String.eqb_spec audio "keep") as [E|_];
      [rewrite E; right; left; reflexivity|].
    destruct (String.eqb_spec audio "accent") as [E|_];
      [rewrite E; right; right; left; reflexivity|].
    discriminate.
  - intros (audio & -> & [<-|[<-|[<-|[]]]]); reflexivity.
Qed.

Lemma strip_sfx_of_cases (h : highlight) :
  (sfx_preserved h /\ strip_sfx_of h = h)
  \/ (~ sfx_preserved h
      /\ strip_sfx_of h
         = set_hl_audio_fields h None None None (hl_metadata h)).
Proof.
  unfold strip_sfx_of, sfx_preserved.
  destruct (id_eqb (hl_type h) (Some "sectionTitle")) eqn:Et.
  - left. apply id_eqb_eq in Et. auto.
  - assert (Ht : hl_type h <> Some "sectionTitle").
    { intro E. apply id_eqb_eq in E. congruence. }
    destruct (audio_kept (hl_metadata h)) eqn:Ea.
    + left. split; [|reflexivity]. right. apply audio_kept_spec. exact Ea.
    + right. split; [|reflexivity].
      intros [H|H]; [contradiction|].
      apply audio_kept_spec in H. congruence.
Qed.

Lemma strip_sfx_of_idem (h : highlight) :
  strip_sfx_of (strip_sfx_of h) = strip_sfx_of h.
Proof.
  destruct (strip_sfx_of_cases h) as [[_ E]|[Hn E]].
  - rewrite E. exact E.
  - rewrite E.
    destruct (strip_sfx_of_cases
                (set_hl_audio_fields h None None None (hl_metadata h)))
      as [[_ E']|[_ E']]; rewrite E'; reflexivity.
Qed.

(** After [strip_non_section_sfx] a highlight carries a sound, a gain or a
    ducking value only if it is a section title or its metadata asks for
    the sound to be kept; the pass changes no other key of a highlight,
    leaves the segments alone and is idempotent. *)
Theorem strip_non_section_sfx_result (p : plan) :
  Forall2
    (fun h h' =>
       (sfx_preserved h /\ h' = h)
       \/ (~ sfx_preserved h
           /\ h' = set_hl_audio_fields h None None None (hl_metadata h)))
    (plan_highlights p) (plan_highlights (strip_non_section_sfx p))
  /\ Forall
       (fun h' =>
          sfx_preserved h'
          \/ (hl_sfx h' = None /\ hl_gain h' = None /\ hl_ducking h' = None))
       (plan_highlights (strip_non_section_sfx p))
  /\ plan_segments (strip_non_section_sfx p) = plan_segments p
  /\ strip_non_section_sfx (strip_non_section_sfx p)
     = strip_non_section_sfx p.
Proof.
  unfold strip_non_section_sfx. cbn [plan_highlights set_highlights].
  split; [|split; [|split; [reflexivity|]]].
  - induction (plan_highlights p) as [|h r IH]; constructor; [|exact IH].
    destruct (strip_sfx_of_cases h) as [[H E]|[H E]]; rewrite E; auto.
  - apply Forall_forall. intros h' Hin. apply in_map_iff in Hin.
    destruct Hin as (h & <- & _).
    destruct (strip_sfx_of_cases h) as [[H E]|[H E]]; rewrite E.
    + left. exact H.
    + right. split; [|split]; reflexivity.
  - unfold set_highlights. cbn [plan_segments plan_highlights]. f_equal.
    rewrite map_map. apply map_ext. intro h. apply strip_sfx_of_idem.
Qed.

Lemma pick_sfx_rule_spec (available : list string) (combined : string)
    (rules : list (list string * string * Q)) (sfx_path : string) (gain : Q) :
  pick_sfx_rule available combined rules = Some (sfx_path, gain) ->
  exists keywords,
    In (keywords, sfx_path, gain) rules
    /\ existsb (fun k => contains k combined) keywords = true
    /\ (available = [] \/ mem_string (lower sfx_path) available = true).
Proof.
  induction rules as [|[[keywords path] g] rest IH]; cbn [pick_sfx_rule].
  - discriminate.
  - assert (Hrest : pick_sfx_rule available combined rest
                    = Some (sfx_path, gain) ->
                    exists keywords0,
                      In (keywords0, sfx_path, gain)
                        ((keywords, path, g) :: rest)
                      /\ existsb (fun k => contains k combined) keywords0
                         = true
                      /\ (available = []
                          \/ mem_string (lower sfx_path) available = true)).
    { intro H. destruct (IH H) as (k & Hin & Hk & Ha).
      exists k. split; [right; exact Hin|]. split; assumption. }
    destruct (existsb (fun k => contains k combined) keywords) eqn:Ek;
      [|exact Hrest].
    destruct available as [|a av].
    + intro H. inversion H; subst. exists keywords.
      split; [left; reflexivity|]. split; [exact Ek|left; reflexivity].
    + destruct (mem_string (lower path) (a :: av)) eqn:Em; [|exact Hrest].
      intro H. inversion H; subst. exists keywords.
      split; [left; reflexivity|]. split; [exact Ek|right; exact Em].
Qed.

(** [ensure_highlight_sfx] never replaces a sound a highlight already has.
    The sound it adds is the file of one of its rules, with the gain of that
    rule, and a file the catalog lists whenever the catalog lists any; it
    changes nothing else but the audio entry of the metadata, which it
    sets to auto when the highlight has no metadata or a metadata
    dictionary without an audio entry, and it leaves the segments alone. *)
Theorem ensure_highlight_sfx_result (sfx_catalog : option (list sfx_item))
    (p : plan) :
  Forall2 (sfx_assigned (sfx_available sfx_catalog))
    (plan_highlights p) (plan_highlights (ensure_highlight_sfx sfx_catalog p))
  /\ plan_segments (ensure_highlight_sfx sfx_catalog p) = plan_segments p.
Proof.
  unfold ensure_highlight_sfx. cbn [plan_highlights set_highlights].
  split; [|reflexivity].
  induction (plan_highlights p) as [|h r IH]; constructor; [|exact IH].
  unfold sfx_assigned, sfx_for_highlight.
  destruct (truthy_str (hl_sfx h)) eqn:Es; [left; reflexivity|].
  destruct (String.eqb _ ""); [left; reflexivity|].
  destruct (pick_sfx_rule _ _ _) as [[sfx_path gain]|] eqn:Ep;
    [|left; reflexivity].
  right. split; [reflexivity|].
  destruct (pick_sfx_rule_spec _ _ _ _ _ Ep) as (k & Hin & _ & Ha).
  exists k, sfx_path, gain. split; [exact Hin|]. split; [exact Ha|reflexivity].
Qed.

(** A sound that [ensure_highlight_sfx] adds to a highlight that has no
    metadata, or whose metadata is a dictionary without an audio entry,
    survives [strip_non_section_sfx]. One added to a highlight that is not
    a section title and whose metadata is not a dictionary, or holds an
    audio entry other than auto, keep or accent, is removed again, with
    its gain. *)
Theorem assigned_sfx_after_strip (available : list string) (h : highlight) :
  hl_sfx (sfx_for_highlight available h) <> hl_sfx h ->
  (hl_metadata h = NoMetadata \/ hl_metadata h = Metadata None ->
   strip_sfx_of (sfx_for_highlight available h)
   = sfx_for_highlight available h)
  /\ (~ sfx_preserved h ->
      hl_metadata h <> NoMetadata -> hl_metadata h <> Metadata None ->
      hl_sfx (strip_sfx_of (sfx_for_highlight available h)) = None
      /\ hl_gain (strip_sfx_of (sfx_for_highlight available h)) = None).
Proof.
  unfold sfx_for_highlight.
  destruct (truthy_str (hl_sfx h)); [intro H; contradiction H; reflexivity|].
  destruct (String.eqb _ ""); [intro H; contradiction H; reflexivity|].
  destruct (pick_sfx_rule _ _ _) as [[sfx_path gain]|];
    [|intro H; contradiction H; reflexivity].
  intros _. split.
  - intro Ea.
    assert (Em : mark_audio_auto (hl_metadata h)
                 = Metadata (Some (Some "auto"))).
    { destruct Ea as [-> | ->]; reflexivity. }
    rewrite Em.
    destruct (strip_sfx_of_cases
                (set_hl_audio_fields h (Some sfx_path) (Some gain)
                   (hl_ducking h) (Metadata (Some (Some "auto")))))
      as [[_ E]|[Hn _]]; [exact E|].
    exfalso. apply Hn. right. exists "auto". split; [reflexivity|].
    left. reflexivity.
  - intros Hn Ha Hb.
    assert (Em : mark_audio_auto (hl_metadata h) = hl_metadata h).
    { destruct (hl_metadata h) as [| |[audio|]]; try reflexivity;
        contradiction. }
    rewrite Em.
    destruct (strip_sfx_of_cases
                (set_hl_audio_fields h (Some sfx_path) (Some gain)
                   (hl_ducking h) (hl_metadata h))) as [[Hp _]|[_ E]].
    + exfalso. apply Hn. exact Hp.
    + rewrite E. split; reflexivity.
Qed.

Lemma assigned_sfx_after_strip_witness :
  hl_sfx (strip_sfx_of (sfx_for_highlight [] sweet_note))
  = Some "assets/sfx/emotion/applause.mp3"
  /\ hl_sfx (strip_sfx_of (sfx_for_highlight [] sweet_note_null_metadata))
     = None.
Proof.
  split.
  - rewrite (proj1 (assigned_sfx_after_strip [] sweet_note
                      ltac:(vm_compute; discriminate))
               (or_introl eq_refl)).
    reflexivity.
  - apply (proj2 (assigned_sfx_after_strip [] sweet_note_null_metadata
                    ltac:(vm_compute; discriminate))).
    + intros [H|(audio & H & _)]; discriminate.
    + discriminate.
    + discriminate.
Defined.
(* --------------------------------------------------------------------- *)
(** ** Segments under the B-roll and motion passes *)
(* --------------------------------------------------------------------- *)

Lemma locate_segment_from_spec (segments : list segment) (timecode : Q) :
  forall n,
    match locate_segment_from n segments timecode with
    | Some i =>
        (n <= i)%nat
        /\ (exists seg, nth_error segments (i - n) = Some seg
                        /\ in_segment seg timecode)
        /\ (forall j seg, (j < i - n)%nat -> nth_error segments j = Some seg ->
              ~ in_segment seg timecode)
    | None => forall seg, In seg segments -> ~ in_segment seg timecode
    end.
Proof.
  induction segments as [|s r IH]; intro n; cbn [locate_segment_from].
  - intros seg [].
  - destruct (Qleb (numd (seg_sourceStart s) 0) timecode
              && Qleb timecode
                   (numd (seg_sourceStart s) 0 + numd (seg_duration s) 0))
      eqn:E.
    + apply andb_true_iff in E. destruct E as [E1 E2].
      apply Qleb_true in E1. apply Qleb_true in E2.
      split; [lia|]. rewrite Nat.sub_diag. split.
      * exists s. split; [reflexivity|]. split; assumption.
      * intros j seg Hj. lia.
    + assert (Hs : ~ in_segment s timecode).
      { intros [H1 H2]. apply Qleb_true in H1. apply Qleb_true in H2.
        rewrite H1, H2 in E. discriminate. }
      specialize (IH (S n)).
      destruct (locate_segment_from (S n) r timecode) as [i|].
      * destruct IH as (Hle & (seg & Hnth & Hin) & Hfirst).
        split; [lia|]. split.
        -- exists seg. split; [|exact Hin].
           replace (i - n)%nat with (S (i - S n)) by lia. exact Hnth.
        -- intros j seg' Hj Hnth'. destruct j as [|j].
           ++ inversion Hnth'; subst. exact Hs.
           ++ apply (Hfirst j seg'); [lia|exact Hnth'].
      * intros seg [<-|Hin]; [exact Hs|apply IH, Hin].
Qed.

(** [locate_segment] returns the position of the first segment whose range
    [sourceStart .. sourceStart + duration], both ends included, holds the
    timecode, and nothing when no segment does. *)
Theorem locate_segment_first_match (segments : list segment) (timecode : Q) :
  match locate_segment segments timecode with
  | Some i =>
      (exists seg, nth_error segments i = Some seg
                   /\ in_segment seg timecode)
      /\ (forall j seg, (j < i)%nat -> nth_error segments j = Some seg ->
            ~ in_segment seg timecode)
  | None => forall seg, In seg segments -> ~ in_segment seg timecode
  end.
Proof.
  unfold locate_segment.
  pose proof (locate_segment_from_spec segments timecode 0) as H.
  destruct (locate_segment_from 0 segments timecode) as [i|]; [|exact H].
  rewrite Nat.sub_0_r in H. destruct H as (_ & H1 & H2). split; assumption.
Qed.

Lemma Forall2_update_nth_rel {A : Type} (R : A -> A -> Prop)
    (l0 l : list A) (i : nat) (x y : A) :
  Forall2 R l0 l -> nth_error l i = Some x ->
  (forall x0, R x0 x -> R x0 y) ->
  Forall2 R l0 (update_nth i y l).
Proof.
  intro H. revert i. induction H as [|a b r0 r Hab Hr IH]; intros i Hi Hxy.
  - destruct i; discriminate.
  - destruct i as [|i]; cbn [nth_error] in Hi; cbn [update_nth].
    + inversion Hi; subst. constructor; [apply Hxy, Hab|exact Hr].
    + constructor; [exact Hab|]. apply IH; assumption.
Qed.

Lemma Forall2_same {A : Type} (R : A -> A -> Prop) (l : list A) :
  (forall x, R x x) -> Forall2 R l l.
Proof. intro H. induction l; constructor; auto. Qed.

Lemma catalog_lookup_In (items : list broll_item) (cid : string)
    (item : broll_item) :
  catalog_lookup items cid = Some item -> In item items.
Proof.
  unfold catalog_lookup. intro H. apply find_some in H.
  apply in_rev. apply H.
Qed.

Lemma choose_candidate_video (items : list broll_item)
    (counts : string -> nat) (candidates : list string)
    (cid : string) (item : broll_item) :
  choose_candidate items counts candidates = Some (cid, item) ->
  In item items /\ not_a_video item = false.
Proof.
  induction candidates as [|c r IH]; cbn [choose_candidate].
  - discriminate.
  - destruct (catalog_lookup items c) as [it|] eqn:El; [|exact IH].
    destruct (not_a_video it) eqn:Ev; [exact IH|].
    destruct (MAX_BROLL_REUSE <=? counts c)%nat; [exact IH|].
    intro H. inversion H; subst.
    split; [eapply catalog_lookup_In; exact El|exact Ev].
Qed.

Lemma broll_added_refl (items : list broll_item) (s : segment) :
  broll_added items s s.
Proof. split; [reflexivity|]. split; [reflexivity|left; reflexivity]. Qed.

Lemma broll_step_added (items : list broll_item) (locked : list string)
    (segments0 : list segment) (st : list segment * (string -> nat))
    (h : highlight) :
  Forall2 (broll_added items) segments0 (fst st) ->
  Forall2 (broll_added items) segments0
    (fst (broll_step items locked st h)).
Proof.
  destruct st as [segments counts]. cbn [fst]. intro H. unfold broll_step.
  destruct (hl_start h) as [start|]; [|exact H].
  destruct (locate_segment segments start) as [i|]; [|exact H].
  destruct (nth_error segments i) as [seg|] eqn:Enth; [|exact H].
  destruct (seg_broll seg) as [b|] eqn:Eb; [exact H|].
  destruct (match seg_id seg with
            | Some sid => mem_string sid locked
            | None => false
            end); [exact H|].
  destruct (is_section_title h); [exact H|].
  destruct (String.eqb _ ""); [exact H|].
  destruct (choose_candidate _ _ _) as [[chosen_id chosen_item]|] eqn:Ec;
    [|exact H].
  cbn [fst].
  apply choose_candidate_video in Ec. destruct Ec as [Hin Hvideo].
  eapply Forall2_update_nth_rel; [exact H|exact Enth|].
  intros s0 (Hcore & Hcue & Hb).
  assert (Es : seg = s0).
  { destruct Hb as [E|(_ & item & b & _ & _ & Hsome & _)]; [exact E|].
    rewrite Eb in Hsome. discriminate. }
  subst s0.
  split; [reflexivity|]. split; [reflexivity|].
  right. split; [exact Eb|].
  eexists chosen_item, _. split; [exact Hin|]. split; [exact Hvideo|].
  split; [reflexivity|]. split; [reflexivity|]. split; reflexivity.
Qed.

Lemma broll_fold_added (items : list broll_item) (locked : list string)
    (segments0 : list segment) (highlights : list highlight)
    (st : list segment * (string -> nat)) :
  Forall2 (broll_added items) segments0 (fst st) ->
  Forall2 (broll_added items) segments0
    (fst (fold_left (broll_step items locked) highlights st)).
Proof.
  revert st. induction highlights as [|h r IH]; intros st H; cbn [fold_left].
  - exact H.
  - apply IH, broll_step_added, H.
Qed.

(** The keyword B-roll pass keeps the number and the order of the segments
    and their id, timing, label, title, kind, sound hints and motion cue. It
    never replaces B-roll a segment already has; the B-roll it adds is an
    item of the catalog that passes the media test of the pass (no media
    type, the media type video, or a file with a video suffix), shown full
    frame. The highlights are not touched. *)
Theorem ensure_broll_only_adds (broll_catalog : option (list broll_item))
    (p : plan) :
  Forall2
    (broll_added (match broll_catalog with Some items => items | None => [] end))
    (plan_segments p)
    (plan_segments (ensure_broll_from_highlights broll_catalog p))
  /\ plan_highlights (ensure_broll_from_highlights broll_catalog p)
     = plan_highlights p.
Proof.
  split; [|apply ensure_broll_highlights].
  unfold ensure_broll_from_highlights.
  destruct broll_catalog as [[|it items]|];
    try (apply Forall2_same; intro; apply broll_added_refl).
  destruct (plan_segments p) as [|s ss] eqn:Es;
    [rewrite Es; constructor|].
  destruct (plan_highlights p) as [|h hs] eqn:Eh;
    [rewrite Es; apply Forall2_same; intro; apply broll_added_refl|].
  cbn [plan_segments set_segments].
  apply (broll_fold_added (it :: items) _ (s :: ss) (h :: hs)
           (s :: ss, fun _ => O)).
  apply Forall2_same. intro. apply broll_added_refl.
Qed.

Lemma filter_update_nth_count {A : Type} (f : A -> bool) (i : nat) (x y : A)
    (l : list A) :
  nth_error l i = Some x ->
  (List.length (filter f (update_nth i y l)) + (if f x then 1 else 0)
   = List.length (filter f l) + (if f y then 1 else 0))%nat.
Proof.
  revert i. induction l as [|a r IH]; intros i Hi.
  - destruct i; discriminate.
  - destruct i as [|i]; cbn [nth_error] in Hi; cbn [update_nth filter].
    + inversion Hi; subst. destruct (f x), (f y); cbn [List.length]; lia.
    + specialize (IH i Hi). destruct (f a); cbn [List.length]; lia.
Qed.

Lemma decide_motion_truthy (rules : motion_rules) (h : highlight)
    (existing_cue last_motion : option string) :
  truthy_str (Some (decide_motion rules h existing_cue last_motion)) = true.
Proof.
  destruct (decide_motion_allowed rules h existing_cue last_motion)
    as [E|E]; rewrite E; reflexivity.
Qed.

Lemma motion_added_refl (s : segment) : motion_added s s.
Proof.
  split; [reflexivity|]. split; [reflexivity|left; reflexivity].
Qed.

(** One step of the motion loop: the counter is the number of segments with
    a cue and stays within the cap. *)
Lemma motion_step_inv (rules : motion_rules) (max_motions bound : nat)
    (segments0 : list segment) (st st' : motion_state) (h : highlight) :
  (max_motions <= bound)%nat ->
  motion_step rules max_motions st h = inl st'
  \/ motion_step rules max_motions st h = inr st' ->
  Forall2 motion_added segments0 (fst (fst st))
  /\ cued_segments (fst (fst st)) = snd (fst st)
  /\ (snd (fst st) <= bound)%nat ->
  Forall2 motion_added segments0 (fst (fst st'))
  /\ cued_segments (fst (fst st')) = snd (fst st')
  /\ (snd (fst st') <= bound)%nat.
Proof.
  intros Hbound. destruct st as [[segments assigned] last_motion].
  cbn [fst snd]. unfold motion_step.
  assert (Hsame : forall r : motion_state + motion_state,
            r = inl (segments, assigned, last_motion)
            \/ r = inr (segments, assigned, last_motion) ->
            r = inl st' \/ r = inr st' ->
            Forall2 motion_added segments0 segments
            /\ cued_segments segments = assigned /\ (assigned <= bound)%nat ->
            Forall2 motion_added segments0 (fst (fst st'))
            /\ cued_segments (fst (fst st')) = snd (fst st')
            /\ (snd (fst st') <= bound)%nat).
  { intros r Hr Hr' H. destruct Hr as [Hr|Hr]; subst r;
      destruct Hr' as [E|E]; inversion E; subst; exact H. }
  destruct (hl_start h) as [start|]; [|apply Hsame; auto].
  destruct (locate_segment segments start) as [i|]; [|apply Hsame; auto].
  destruct (nth_error segments i) as [seg|] eqn:Enth; [|apply Hsame; auto].
  destruct ((max_motions <=? assigned)%nat
            && negb (truthy_str (seg_motionCue seg))) eqn:Ebreak;
    [apply Hsame; auto|].
  match goal with
  | |- context [if ?c then inl _ else _] => destruct c
  end; [apply Hsame; auto|].
  intros [E|E] (Hall & Hcount & Hle); inversion E; subst; clear E.
  cbn [fst snd].
  set (motion := decide_motion rules h (seg_motionCue seg) last_motion).
  match goal with
  | |- context [update_nth i ?s segments] => set (seg' := s)
  end.
  assert (Hcue' : has_cue seg' = true).
  { unfold has_cue, seg'. cbn [seg_motionCue set_seg_motion].
    apply decide_motion_truthy. }
  pose proof (filter_update_nth_count has_cue i seg seg' segments Enth)
    as Hupd.
  rewrite Hcue' in Hupd. fold (cued_segments segments) in Hupd.
  fold (cued_segments (update_nth i seg' segments)) in Hupd.
  fold (has_cue seg) in Ebreak |- *.
  split; [|split].
  - eapply Forall2_update_nth_rel; [exact Hall|exact Enth|].
    intros s0 (Hcore & Hb & Hc). split; [exact Hcore|]. split; [exact Hb|].
    eapply cue_kept_trans; [exact Hc|].
    unfold cue_kept_or_allowed, seg'. cbn [seg_motionCue set_seg_motion].
    right. fold motion.
    destruct (decide_motion_allowed rules h (seg_motionCue seg) last_motion)
      as [Hd|Hd]; fold motion in Hd; rewrite Hd; auto.
  - destruct (has_cue seg); lia.
  - destruct (has_cue seg) eqn:Ec; [exact Hle|].
    rewrite andb_true_r in Ebreak. apply Nat.leb_gt in Ebreak. lia.
Qed.

Lemma motion_loop_inv (rules : motion_rules) (max_motions bound : nat)
    (segments0 : list segment) (highlights : list highlight)
    (st : motion_state) :
  (max_motions <= bound)%nat ->
  Forall2 motion_added segments0 (fst (fst st))
  /\ cued_segments (fst (fst st)) = snd (fst st)
  /\ (snd (fst st) <= bound)%nat ->
  Forall2 motion_added segments0
    (fst (fst (motion_loop rules max_motions highlights st)))
  /\ (cued_segments (fst (fst (motion_loop rules max_motions highlights st)))
      <= bound)%nat.
Proof.
  intro Hb. revert st.
  induction highlights as [|h r IH]; intros st H; cbn [motion_loop].
  - destruct H as (H1 & H2 & H3). split; [exact H1|lia].
  - destruct (motion_step rules max_motions st h) as [st'|st'] eqn:E.
    + apply IH. eapply motion_step_inv; [exact Hb|left; exact E|exact H].
    + destruct (motion_step_inv rules max_motions bound segments0 st st' h Hb
                  (or_intror E) H) as (H1 & H2 & H3).
      split; [exact H1|lia].
Qed.

(** The highlight motion pass keeps the number and the order of the
    segments and everything of a segment but its motion cue and notes, and
    it respects its cap: afterwards the number of segments with a motion cue
    is at most the larger of that number before the pass and
    [max(1, ceil(len(segments) * motion_frequency))]. *)
Theorem ensure_motion_respects_cap (rules : option motion_rules) (p : plan) :
  Forall2 motion_added (plan_segments p)
    (plan_segments (ensure_motion_from_highlights rules p))
  /\ (cued_segments (plan_segments (ensure_motion_from_highlights rules p))
      <= Nat.max (cued_segments (plan_segments p))
           (highlight_motion_cap rules (plan_segments p)))%nat
  /\ plan_highlights (ensure_motion_from_highlights rules p)
     = plan_highlights p.
Proof.
  assert (Hgoal :
            Forall2 motion_added (plan_segments p)
              (plan_segments (ensure_motion_from_highlights rules p))
            /\ (cued_segments
                  (plan_segments (ensure_motion_from_highlights rules p))
                <= Nat.max (cued_segments (plan_segments p))
                     (highlight_motion_cap rules (plan_segments p)))%nat).
  { unfold ensure_motion_from_highlights.
    destruct (plan_segments p) as [|s ss] eqn:Es.
    - rewrite Es. split; [constructor|cbn; lia].
    - destruct (plan_highlights p) as [|h hs] eqn:Eh.
      + rewrite Es. split; [|lia].
        apply Forall2_same. intro. apply motion_added_refl.
      + cbn [plan_segments set_segments].
        apply (motion_loop_inv _ _ _ (s :: ss) (h :: hs)
                 (s :: ss, _, None)).
        * unfold highlight_motion_cap. apply Nat.le_max_r.
        * cbn [fst snd]. split; [|split].
          -- apply Forall2_same. intro. apply motion_added_refl.
          -- reflexivity.
          -- apply Nat.le_max_l. }
  destruct Hgoal as [H1 H2]. split; [exact H1|]. split; [exact H2|].
  apply ensure_motion_highlights.
Qed.
(* --------------------------------------------------------------------- *)
(** ** The scene-driven choices *)
(* --------------------------------------------------------------------- *)

Lemma best_broll_spec (sc : SceneSummary) (items : list broll_item) :
  forall (best : option broll_item) (best_score : Q)
         (best_reasons : list string),
    let r := best_broll sc items best best_score best_reasons in
    best_score <= snd (fst r)
    /\ (forall it, In it items ->
          fst (score_broll_item it sc) <= snd (fst r))
    /\ ((fst (fst r) = best /\ snd (fst r) = best_score
         /\ snd r = best_reasons)
        \/ exists it,
             In it items /\ fst (fst r) = Some it
             /\ snd (fst r) = fst (score_broll_item it sc)
             /\ snd r = snd (score_broll_item it sc)
             /\ best_score < snd (fst r)).
Proof.
  induction items as [|item rest IH]; intros best best_score best_reasons;
    cbn [best_broll].
  - cbn [fst snd]. split; [lra|]. split; [intros it []|].
    left. split; [reflexivity|]. split; reflexivity.
  - destruct (score_broll_item item sc) as [score reasons] eqn:Escore.
    destruct (Qltb best_score score) eqn:Elt.
    + apply Qltb_true in Elt.
      specialize (IH (Some item) score reasons). cbv zeta in IH.
      destruct IH as (H1 & H2 & H3).
      split; [lra|]. split.
      * intros it [<-|Hin]; [rewrite Escore; exact H1|apply H2, Hin].
      * right. destruct H3 as [(E1 & E2 & E3)|(it & Hin & E1 & E2 & E3 & E4)].
        -- exists item. split; [left; reflexivity|]. split; [exact E1|].
           rewrite Escore. cbn [fst snd]. split; [exact E2|].
           split; [exact E3|]. rewrite E2. exact Elt.
        -- exists it. split; [right; exact Hin|]. split; [exact E1|].
           split; [exact E2|]. split; [exact E3|]. lra.
    + apply Qltb_false in Elt.
      specialize (IH best best_score best_reasons). cbv zeta in IH.
      destruct IH as (H1 & H2 & H3).
      split; [exact H1|]. split.
      * intros it [<-|Hin]; [rewrite Escore; cbn [fst]; lra|apply H2, Hin].
      * destruct H3 as [H3|(it & Hin & E)]; [left; exact H3|].
        right. exists it. split; [right; exact Hin|exact E].
Qed.

(** What [select_broll] returns is taken from an item of the catalog that
    lasts at least 0.8 of the scene: its id and file, its score rounded to
    two decimals as the confidence, and its reasons. That score is positive,
    at least the threshold and not below the score of any other item that
    is long enough, and the scene has a highlight score of at least 0.6. *)
Theorem select_broll_result (sc : SceneSummary) (items : list broll_item)
    (threshold : Q) (bid bfile : option string) (confidence : Q)
    (reasons : list string) :
  select_broll sc items threshold = Some (bid, bfile, confidence, reasons) ->
  exists item,
    In item items
    /\ bid = bi_id item /\ bfile = bi_file item
    /\ ss_duration sc * (8 # 10) <= numd (bi_duration item) 0
    /\ confidence = round2 (fst (score_broll_item item sc))
    /\ reasons = snd (score_broll_item item sc)
    /\ 0 < fst (score_broll_item item sc)
    /\ threshold <= fst (score_broll_item item sc)
    /\ 6 # 10 <= ss_highlight_score sc
    /\ (forall other,
          In other items ->
          ss_duration sc * (8 # 10) <= numd (bi_duration other) 0 ->
          fst (score_broll_item other sc) <= fst (score_broll_item item sc)).
Proof.
  unfold select_broll.
  destruct items as [|i0 irest]; [discriminate|].
  set (items := i0 :: irest).
  set (long_enough :=
         fun item : broll_item =>
           Qleb (ss_duration sc * (8 # 10)) (numd (bi_duration item) 0)).
  destruct (filter long_enough items) as [|f0 frest] eqn:Ef; [discriminate|].
  pose proof (best_broll_spec sc (f0 :: frest) None 0 []) as Hbest.
  cbv zeta in Hbest.
  destruct (best_broll sc (f0 :: frest) None 0 [])
    as [[best best_score] best_reasons].
  cbn [fst snd] in Hbest. destruct Hbest as (H0 & Hmax & Hsel).
  destruct best as [best_item|]; [|discriminate].
  destruct (Qltb best_score threshold) eqn:Et; [discriminate|].
  destruct (Qltb (ss_highlight_score sc) (6 # 10)) eqn:Eh; [discriminate|].
  cbn [orb]. intro H. inversion H; subst; clear H.
  apply Qltb_false in Et. apply Qltb_false in Eh.
  destruct Hsel as [(E & _)|(it & Hin & E1 & E2 & E3 & E4)]; [discriminate|].
  inversion E1; subst it; clear E1.
  rewrite <- Ef in Hin, Hmax. apply filter_In in Hin.
  destruct Hin as [Hin Hlong]. apply Qleb_true in Hlong.
  exists best_item. split; [exact Hin|]. split; [reflexivity|].
  split; [reflexivity|]. split; [exact Hlong|].
  split; [rewrite E2; reflexivity|]. split; [exact E3|].
  rewrite <- E2. split; [exact E4|]. split; [exact Et|]. split; [exact Eh|].
  intros other Ho Hlo. apply Hmax. apply filter_In.
  split; [exact Ho|]. apply Qleb_true. exact Hlo.
Qed.

Lemma select_broll_result_witness :
  exists item,
    In item [marketing_clip]
    /\ Some "creative_brainstorm" = bi_id item
    /\ 0 < fst (score_broll_item item
                  (mkSceneSummary 0 10 ["marketing"] (9 # 10) [] [] "" false
                     [])).
Proof.
  destruct (select_broll_result
              (mkSceneSummary 0 10 ["marketing"] (9 # 10) [] [] "" false [])
              [marketing_clip] (15 # 10)
              (Some "creative_brainstorm") (Some "broll/brainstorm.mp4")
              (round2 (28 # 10))
              ["topics match ['marketing']"])
    as (item & H1 & H2 & _ & _ & _ & _ & H3 & _).
  - vm_compute. reflexivity.
  - exists item. split; [exact H1|]. split; [exact H2|exact H3].
Defined.

Lemma aggregate_fold_skip (start end_ : Q) (scenes : list scene)
    (a : scene_acc) :
  (forall sc, In sc scenes ->
     overlap_seconds start end_ (numd (sc_start sc) 0)
       (numd (sc_end sc) (numd (sc_start sc) 0)) <= 0) ->
  fold_left (aggregate_step start end_) scenes a = a.
Proof.
  revert a. induction scenes as [|sc rest IH]; intros a H; cbn [fold_left].
  - reflexivity.
  - assert (E : aggregate_step start end_ a sc = a).
    { unfold aggregate_step.
      pose proof (H sc (or_introl eq_refl)) as Hsc.
      apply Qleb_true in Hsc. rewrite Hsc. reflexivity. }
    rewrite E. apply IH. intros s Hs. apply H. right. exact Hs.
Qed.

Lemma aggregate_fold_cta (start end_ : Q) (scenes : list scene) :
  forall a,
    acc_cta (fold_left (aggregate_step start end_) scenes a) = true
    <-> acc_cta a = true
        \/ exists sc, In sc scenes /\ scene_overlaps start end_ sc
                      /\ sc_cta sc = true.
Proof.
  induction scenes as [|sc rest IH]; intro a; cbn [fold_left].
  - split; [intro H; left; exact H|].
    intros [H|(sc & [] & _)]. exact H.
  - rewrite IH. unfold aggregate_step at 1, scene_overlaps.
    destruct (Qleb _ 0) eqn:E.
    + apply Qleb_true in E. split.
      * intros [H|(s & Hs & Ho & Hc)]; [left; exact H|].
        right. exists s. split; [right; exact Hs|]. split; assumption.
      * intros [H|(s & [<-|Hs] & Ho & Hc)]; [left; exact H| |].
        -- exfalso. unfold scene_overlaps in Ho. lra.
        -- right. exists s. split; [exact Hs|]. split; assumption.
    + apply Qleb_false in E. cbn [acc_cta]. split.
      * intros [H|(s & Hs & Ho & Hc)].
        -- apply orb_true_iff in H. destruct H as [H|H]; [left; exact H|].
           right. exists sc. split; [left; reflexivity|].
           split; [exact E|exact H].
        -- right. exists s. split; [right; exact Hs|]. split; assumption.
      * intros [H|(s & [<-|Hs] & Ho & Hc)].
        -- left. rewrite H. reflexivity.
        -- left. rewrite Hc. apply orb_true_r.
        -- right. exists s. split; [exact Hs|]. split; assumption.
Qed.

(** [aggregate_scene_for_segment] returns nothing for a segment whose
    duration is not positive and for a segment no scene overlaps. The
    summary it returns spans the segment, has a positive duration, and
    carries the call-to-action flag exactly when a scene that overlaps the
    segment carries it. *)
Theorem aggregate_scene_for_segment_result (plan_segment : segment)
    (scene_segments : list scene) :
  let start := numd (seg_sourceStart plan_segment) 0 in
  let end_ := start + numd (seg_duration plan_segment) 0 in
  (numd (seg_duration plan_segment) 0 <= 0 ->
   aggregate_scene_for_segment plan_segment scene_segments = None)
  /\ ((forall sc, In sc scene_segments -> ~ scene_overlaps start end_ sc) ->
      aggregate_scene_for_segment plan_segment scene_segments = None)
  /\ (forall summary,
        aggregate_scene_for_segment plan_segment scene_segments
        = Some summary ->
        ss_start summary = start /\ ss_end summary = end_
        /\ 0 < ss_duration summary
        /\ (ss_cta summary = true
            <-> exists sc, In sc scene_segments
                           /\ scene_overlaps start end_ sc
                           /\ sc_cta sc = true)).
Proof.
  cbv zeta. unfold aggregate_scene_for_segment.
  set (start := numd (seg_sourceStart plan_segment) 0).
  set (end_ := start + numd (seg_duration plan_segment) 0).
  split; [|split].
  - intro H. assert (E : Qleb end_ start = true).
    { apply Qleb_true. unfold end_. lra. }
    rewrite E. reflexivity.
  - intro H. destruct (Qleb end_ start); [reflexivity|].
    rewrite (aggregate_fold_skip start end_ scene_segments).
    + reflexivity.
    + intros sc Hsc. specialize (H sc Hsc). unfold scene_overlaps in H.
      lra.
  - intros summary.
    destruct (Qleb end_ start) eqn:Ed; [discriminate|].
    apply Qleb_false in Ed.
    set (a := fold_left _ _ _).
    destruct (Qeqb (acc_weight a) 0) eqn:Ew; [discriminate|].
    intro H. inversion H; subst; clear H.
    cbn [ss_start ss_end ss_cta].
    split; [reflexivity|]. split; [reflexivity|]. split.
    + unfold ss_duration. cbn [ss_start ss_end].
      destruct (fmax_cases 0 (end_ - start)) as [[H1 ->]|[H1 ->]]; lra.
    + unfold a. rewrite aggregate_fold_cta. cbn [acc_cta]. split.
      * intros [H|H]; [discriminate|exact H].
      * intro H. right. exact H.
Qed.

Lemma aggregate_scene_for_segment_result_witness :
  aggregate_scene_for_segment (plain_segment "s" 5 0) [marketing_scene]
  = None
  /\ exists summary,
       aggregate_scene_for_segment (plain_segment "s" 5 10)
         [marketing_scene; closing_scene] = Some summary
       /\ ss_cta summary = true.
Proof.
  split.
  - apply (proj1 (aggregate_scene_for_segment_result (plain_segment "s" 5 0)
                    [marketing_scene])).
    vm_compute. discriminate.
  - pose (o := aggregate_scene_for_segment (plain_segment "s" 5 10)
                 [marketing_scene; closing_scene]).
    assert (Ho : exists summary, o = Some summary).
    { vm_compute. eexists. reflexivity. }
    destruct Ho as (summary & Ho). exists summary. split; [exact Ho|].
    apply (proj2 (proj2 (proj2 (proj2 (proj2
             (aggregate_scene_for_segment_result (plain_segment "s" 5 10)
                [marketing_scene; closing_scene])) summary Ho)))).
    exists closing_scene. split; [right; left; reflexivity|].
    split; [vm_compute; reflexivity|reflexivity].
Defined.
(* --------------------------------------------------------------------- *)
(** ** The scene-driven loop *)
(* --------------------------------------------------------------------- *)

Lemma select_motion_cue_cap (sc : SceneSummary) (rules : motion_rules)
    (assigned_so_far total_segments : nat) (cue : string) :
  select_motion_cue sc rules assigned_so_far total_segments = Some cue ->
  (Z.of_nat assigned_so_far < scene_motion_cap rules total_segments)%Z.
Proof.
  unfold select_motion_cue. fold (scene_motion_cap rules total_segments).
  destruct (scene_motion_cap rules total_segments <=? Z.of_nat assigned_so_far)%Z
    eqn:E; [discriminate|].
  intros _. apply Z.leb_gt in E. exact E.
Qed.

Lemma enrich_segment_spec (scene_segments : list scene)
    (broll_catalog : option (list broll_item))
    (rules : option motion_rules) (broll_threshold : Q)
    (total_segments assigned_motion : nat) (seg : segment) :
  let r :=
    enrich_segment scene_segments broll_catalog rules broll_threshold
      total_segments assigned_motion seg in
  scene_enriched seg (fst r)
  /\ ((snd r = assigned_motion
       /\ seg_motionCue (fst r) = seg_motionCue seg)
      \/ (snd r = S assigned_motion
          /\ exists r0,
               rules = Some r0
               /\ (Z.of_nat assigned_motion
                   < scene_motion_cap r0 total_segments)%Z)).
Proof.
  cbv zeta. unfold enrich_segment.
  destruct (aggregate_scene_for_segment seg scene_segments) as [summary|].
  - set (bn := match broll_catalog with
               | Some items => _
               | None => _
               end).
    assert (Hb : seg_broll seg <> None -> fst bn <> None).
    { unfold bn. destruct broll_catalog as [items|]; [|auto].
      destruct (select_broll summary items broll_threshold)
        as [[[[bid bfile] confidence] reasons]|]; cbn [fst]; auto.
      intros _. discriminate. }
    destruct bn as [broll_value notes]. cbn [fst] in Hb.
    set (cn := match rules with
               | Some r => _
               | None => _
               end).
    assert (Hc : (seg_motionCue seg <> None -> fst (fst cn) <> None)
                 /\ ((snd (fst cn) = assigned_motion
                      /\ fst (fst cn) = seg_motionCue seg)
                     \/ (snd (fst cn) = S assigned_motion
                         /\ exists r0,
                              rules = Some r0
                              /\ (Z.of_nat assigned_motion
                                  < scene_motion_cap r0 total_segments)%Z))
                 /\ exists more, snd cn = notes ++ more).
    { unfold cn. destruct rules as [r0|].
      - destruct (select_motion_cue summary r0 assigned_motion total_segments)
          as [motion_cue|] eqn:Em.
        + destruct (String.eqb motion_cue ""); cbn [fst snd].
          * split; [auto|]. split; [left; auto|].
            exists []. symmetry. apply app_nil_r.
          * split; [intros _; discriminate|]. split.
            -- right. split; [reflexivity|]. exists r0.
               split; [reflexivity|].
               eapply select_motion_cue_cap. exact Em.
            -- eexists. reflexivity.
        + cbn [fst snd]. split; [auto|]. split; [left; auto|].
          exists []. symmetry. apply app_nil_r.
      - cbn [fst snd]. split; [auto|]. split; [left; auto|].
        exists []. symmetry. apply app_nil_r. }
    destruct cn as [[cue assigned'] notes']. cbn [fst snd] in Hc.
    destruct Hc as (Hc1 & Hc2 & more & Hn).
    set (hn := match ss_sfx_hints summary with
               | [] => _
               | _ :: _ => _
               end).
    assert (Hh : (seg_sfxHints seg <> None -> fst hn = seg_sfxHints seg)
                 /\ exists more', snd hn = notes' ++ more').
    { unfold hn. destruct (ss_sfx_hints summary) as [|x xs].
      - cbn [fst snd]. split; [auto|]. exists []. symmetry. apply app_nil_r.
      - destruct (seg_sfxHints seg) as [hs|]; cbn [fst snd].
        + split; [auto|]. exists []. symmetry. apply app_nil_r.
        + split; [intro H; contradiction H; reflexivity|].
          eexists. reflexivity. }
    destruct hn as [hints notes'']. cbn [fst snd] in Hh.
    destruct Hh as (Hh1 & more' & Hn').
    cbn [fst snd]. split; [|exact Hc2].
    unfold scene_enriched.
    cbn [seg_id seg_sourceStart seg_duration seg_label seg_title seg_kind
         seg_notes seg_broll seg_motionCue seg_sfxHints].
    do 5 (split; [reflexivity|]).
    split; [reflexivity|].
    split; [eexists; reflexivity|].
    split; [exact Hb|]. split; [exact Hc1|].
    split; [exact Hh1|]. split; reflexivity.
  - cbn [fst snd]. split; [|left; split; reflexivity].
    unfold scene_enriched.
    cbn [seg_id seg_sourceStart seg_duration seg_label seg_title seg_kind
         seg_notes seg_broll seg_motionCue seg_sfxHints].
    do 5 (split; [reflexivity|]).
    split; [reflexivity|].
    split; [eexists; reflexivity|]. split; [auto|]. split; [auto|].
    split; [auto|]. split; reflexivity.
Qed.

Lemma enrich_segments_loop_spec (scene_segments : list scene)
    (broll_catalog : option (list broll_item))
    (rules : option motion_rules) (broll_threshold : Q)
    (total_segments : nat) (segments : list segment) :
  forall assigned_motion,
    let out :=
      enrich_segments_loop scene_segments broll_catalog rules
        broll_threshold total_segments assigned_motion segments in
    Forall2 scene_enriched segments out
    /\ match rules with
       | Some r0 =>
           (cue_changes segments out
            <= Z.to_nat (scene_motion_cap r0 total_segments)
               - assigned_motion)%nat
       | None => cue_changes segments out = 0%nat
       end.
Proof.
  induction segments as [|seg rest IH]; intro assigned_motion;
    cbn [enrich_segments_loop].
  - cbv zeta. split; [constructor|]. destruct rules; cbn; lia.
  - pose proof (enrich_segment_spec scene_segments broll_catalog rules
                  broll_threshold total_segments assigned_motion seg) as Hs.
    cbv zeta in Hs.
    destruct (enrich_segment scene_segments broll_catalog rules
                broll_threshold total_segments assigned_motion seg)
      as [seg' assigned'].
    cbn [fst snd] in Hs. destruct Hs as [He Hcount].
    specialize (IH assigned'). cbv zeta in IH. destruct IH as [IH1 IH2].
    cbv zeta. split; [constructor; assumption|].
    unfold cue_changes in *. cbn [combine filter fst snd].
    destruct Hcount as [(-> & Ecue)|(-> & r0 & -> & Hlt)].
    + rewrite Ecue.
      assert (E : id_eqb (seg_motionCue seg) (seg_motionCue seg) = true).
      { apply id_eqb_eq. reflexivity. }
      rewrite E. cbn [negb]. exact IH2.
    + destruct (negb _); cbn [List.length]; lia.
Qed.

(* --------------------------------------------------------------------- *)
(** ** Helpers of the highlight builders *)
(* --------------------------------------------------------------------- *)

Lemma find_split_index_spec (words : list string) (len : nat) :
  forall idx i,
    find_split_index words idx len = Some i ->
    (idx <= i /\ 2 <= i /\ i <= len - 3)%nat.
Proof.
  induction words as [|w r IH]; intros idx i; cbn [find_split_index].
  - discriminate.
  - destruct (mem_string (lower w) SUPPORTING_SPLIT_TOKENS
              && (2 <=? idx)%nat && (idx <=? len - 3)%nat) eqn:E.
    + intro H. inversion H; subst.
      apply andb_true_iff in E. destruct E as [E E3].
      apply andb_true_iff in E. destruct E as [_ E2].
      apply Nat.leb_le in E2. apply Nat.leb_le in E3. lia.
    + intro H. apply IH in H. lia.
Qed.

(** [split_words_for_supporting] cuts the word list in two without losing
    or reordering a word. Up to three words all stay on the left; from four
    words on, each side gets at least two words. *)
Theorem split_words_for_supporting_result (words : list string) :
  fst (split_words_for_supporting words)
  ++ snd (split_words_for_supporting words) = words
  /\ ((List.length words <= 3)%nat ->
      split_words_for_supporting words = (words, []))
  /\ ((3 < List.length words)%nat ->
      (2 <= List.length (fst (split_words_for_supporting words)))%nat
      /\ (2 <= List.length (snd (split_words_for_supporting words)))%nat).
Proof.
  unfold split_words_for_supporting.
  destruct (List.length words <=? 3)%nat eqn:E.
  - apply Nat.leb_le in E. cbn [fst snd].
    split; [apply app_nil_r|]. split; [reflexivity|lia].
  - apply Nat.leb_gt in E.
    destruct (find_split_index words 0 (List.length words)) as [i|] eqn:Ef.
    + apply find_split_index_spec in Ef. cbn [fst snd].
      split; [apply firstn_skipn|]. split; [lia|]. intros _.
      rewrite length_firstn, length_skipn. lia.
    + cbn [fst snd]. split; [apply firstn_skipn|]. split; [lia|]. intros _.
      rewrite length_firstn, length_skipn.
      assert (Hhalf : (List.length words / 2 <= List.length words - 2)%nat).
      { assert (H2 : (2 * (List.length words / 2) <= List.length words)%nat)
          by (apply Nat.Div0.mul_div_le).
        lia. }
      lia.
Qed.

Lemma split_words_for_supporting_result_witness :
  split_words_for_supporting ["growth"; "plan"] = (["growth"; "plan"], [])
  /\ (2 <= List.length
             (snd (split_words_for_supporting
                     ["fast"; "growth"; "and"; "steady"; "long"; "term"])))%nat.
Proof.
  split.
  - apply (proj1 (proj2 (split_words_for_supporting_result
                           ["growth"; "plan"]))).
    cbn. lia.
  - apply (proj2 (proj2 (split_words_for_supporting_result
                           ["fast"; "growth"; "and"; "steady"; "long";
                            "term"]))).
    cbn. lia.
Defined.

Lemma timing_warning_cases (format_2f : Q -> string) (tolerance : Q)
    (pair : segment * segment) :
  (timing_warning format_2f tolerance pair = []
   /\ - tolerance <= segment_gap (fst pair) (snd pair)
   /\ segment_gap (fst pair) (snd pair) <= tolerance)
  \/ ((exists w, timing_warning format_2f tolerance pair = [w])
      /\ (tolerance < segment_gap (fst pair) (snd pair)
          \/ segment_gap (fst pair) (snd pair) < - tolerance)).
Proof.
  destruct pair as [prev current]. unfold timing_warning. cbn [fst snd].
  destruct (Qltb tolerance (segment_gap prev current)) eqn:E1.
  - apply Qltb_true in E1. right. split; [eexists; reflexivity|left; exact E1].
  - apply Qltb_false in E1.
    destruct (Qltb (segment_gap prev current) (- tolerance)) eqn:E2.
    + apply Qltb_true in E2. right.
      split; [eexists; reflexivity|right; exact E2].
    + apply Qltb_false in E2. left. split; [reflexivity|]. split; assumption.
Qed.

(** [compute_timing_warnings] reports nothing exactly when every segment
    starts within the tolerance of the end of the segment before it, in
    either direction; it reports at most one warning for each pair of
    consecutive segments. *)
Theorem compute_timing_warnings_spec (format_2f : Q -> string)
    (segments : list segment) (tolerance : Q) :
  (compute_timing_warnings format_2f segments tolerance = []
   <-> gaps_within tolerance segments)
  /\ (List.length (compute_timing_warnings format_2f segments tolerance)
      <= List.length segments - 1)%nat.
Proof.
  unfold compute_timing_warnings, gaps_within.
  assert (Hlen : (List.length (combine segments (tl segments))
                  <= List.length segments - 1)%nat).
  { rewrite length_combine. destruct segments; cbn [tl List.length]; lia. }
  revert Hlen. generalize (List.length segments - 1)%nat.
  induction (combine segments (tl segments)) as [|pair rest IH];
    intros n Hlen; cbn [flat_map].
  - split; [|cbn; lia]. split; [constructor|reflexivity].
  - cbn [List.length] in Hlen.
    destruct (IH (n - 1)%nat ltac:(lia)) as [IH1 IH2].
    destruct (timing_warning_cases format_2f tolerance pair)
      as [(E & Hlo & Hhi)|((w & E) & Hout)]; rewrite E.
    + cbn [app]. split; [|lia]. split.
      * intro H. constructor; [split; assumption|apply IH1, H].
      * intro H. inversion H; subst. apply IH1. assumption.
    + cbn [app List.length]. split; [|lia]. split; [discriminate|].
      intro H. inversion H as [|? ? [Hlo Hhi] _]; subst. lra.
Qed.

Lemma first_positive_key_positive (container : dict) (keys : list string)
    (q : Q) :
  first_positive_key container keys = Some q -> 0 < q.
Proof.
  induction keys as [|k r IH]; cbn [first_positive_key].
  - discriminate.
  - destruct (positive_number (get container k)) as [q0|] eqn:E; [|exact IH].
    intro H. inversion H; subst. unfold positive_number in E.
    destruct (get container k) as [|b|x| | |]; try discriminate.
    + destruct b; [|discriminate]. inversion E. lra.
    + destruct (Qltb 0 x) eqn:Ex; [|discriminate].
      inversion E; subst. apply Qltb_true. exact Ex.
Qed.

(** [derive_duration_seconds] returns a positive duration whenever the
    fallback is positive, and at least 1.5 s when the element or the entry
    has text. Without text it returns the first positive number under
    [duration_seconds], [duration], [length] in the element, unless there is
    none or that number equals the fallback: then the first positive number
    of the entry is returned, and without one the number of the element or
    the fallback itself. *)
Theorem derive_duration_seconds_bounds (entry element : dict) (fallback : Q) :
  (0 < fallback -> 0 < derive_duration_seconds entry element fallback)
  /\ ((sanitize_text (get element "content") <> None
       \/ sanitize_text (get entry "text") <> None) ->
      15 # 10 <= derive_duration_seconds entry element fallback)
  /\ (sanitize_text (get element "content") = None ->
      sanitize_text (get entry "text") = None ->
      (forall q, first_positive_key element DURATION_KEYS = Some q ->
         ~ q == fallback ->
         derive_duration_seconds entry element fallback = q)
      /\ (forall q, first_positive_key element DURATION_KEYS = Some q ->
            q == fallback ->
            derive_duration_seconds entry element fallback
            = match first_positive_key entry DURATION_KEYS with
              | Some q' => q'
              | None => q
              end)
      /\ (first_positive_key element DURATION_KEYS = None ->
          derive_duration_seconds entry element fallback
          = match first_positive_key entry DURATION_KEYS with
            | Some q => q
            | None => fallback
            end)).
Proof.
  unfold derive_duration_seconds.
  set (base1 := match first_positive_key element DURATION_KEYS with
                | Some q => q
                | None => fallback
                end).
  set (base2 := if negb (Qeqb base1 fallback) then base1
                else match first_positive_key entry DURATION_KEYS with
                     | Some q => q
                     | None => base1
                     end).
  set (text := match sanitize_text (get element "content") with
               | Some t => Some t
               | None => sanitize_text (get entry "text")
               end).
  assert (Hbase1 : 0 < fallback -> 0 < base1).
  { intro Hf. unfold base1.
    destruct (first_positive_key element DURATION_KEYS) as [q|] eqn:E;
      [eapply first_positive_key_positive; exact E|exact Hf]. }
  assert (Hbase2 : 0 < fallback -> 0 < base2).
  { intro Hf. unfold base2. destruct (negb (Qeqb base1 fallback)); auto.
    destruct (first_positive_key entry DURATION_KEYS) as [q|] eqn:E;
      [eapply first_positive_key_positive; exact E|auto]. }
  split; [|split].
  - intro Hf. destruct text as [t|]; [|auto].
    cbv zeta. set (dyn := fmax (15 # 10) _).
    pose proof (fmax_lub_l base2 dyn). specialize (Hbase2 Hf). lra.
  - intro Ht. assert (Hsome : text <> None).
    { unfold text. destruct (sanitize_text (get element "content"));
        [discriminate|]. destruct Ht as [Ht|Ht]; [contradiction|exact Ht]. }
    destruct text as [t|]; [|contradiction]. cbv zeta.
    set (wc := inject_Z _ * _).
    pose proof (fmax_lub_r base2 (fmax (15 # 10) (fmin wc 5))).
    pose proof (fmax_lub_l (15 # 10) (fmin wc 5)). lra.
  - intros E1 E2. unfold text. rewrite E1, E2. split; [|split].
    + intros q Hq Hne. unfold base2, base1. rewrite Hq.
      destruct (Qeqb q fallback) eqn:E; [|reflexivity].
      apply Qeqb_true in E. contradiction.
    + intros q Hq He. unfold base2, base1. rewrite Hq.
      apply Qeqb_true in He. rewrite He. reflexivity.
    + intro Hn. unfold base2, base1. rewrite Hn.
      assert (E : Qeqb fallback fallback = true)
        by (apply Qeqb_true; reflexivity).
      rewrite E. reflexivity.
Qed.

Lemma derive_duration_seconds_bounds_witness :
  0 < derive_duration_seconds [] [("duration", VNum (-1))] 3
  /\ 15 # 10
     <= derive_duration_seconds [("text", VStr "one two")]
          [("duration", VNum (1 # 2))] 3
  /\ derive_duration_seconds [("length", VNum 7)] [("duration", VNum 3)] 3
     = 7.
Proof.
  split; [|split].
  - apply (proj1 (derive_duration_seconds_bounds []
                    [("duration", VNum (-1))] 3)).
    reflexivity.
  - apply (proj1 (proj2 (derive_duration_seconds_bounds
                           [("text", VStr "one two")]
                           [("duration", VNum (1 # 2))] 3))).
    right. vm_compute. discriminate.
  - apply (proj1 (proj2 (proj2 (proj2 (derive_duration_seconds_bounds
                      [("length", VNum 7)] [("duration", VNum 3)] 3))
                    eq_refl eq_refl)) 3 eq_refl).
    reflexivity.
Defined.

(** [parse_timestamp_to_seconds] never returns a negative time: a negative
    number, and a timestamp whose fields add up to a negative number, give
    nothing; so do null, lists, dictionaries, blank strings and strings
    with more than three fields. A non-negative number is returned as it
    is. *)
Theorem parse_timestamp_never_negative
    (float_of_string : string -> option Q) (v : value) :
  (forall s, parse_timestamp_to_seconds float_of_string v = Some s ->
     0 <= s)
  /\ (forall q, v = VNum q ->
        parse_timestamp_to_seconds float_of_string v
        = if Qleb 0 q then Some q else None)
  /\ (forall t, v = VStr t ->
        strip t = "" \/ (3 < List.length (split_on ":" (strip t)))%nat ->
        parse_timestamp_to_seconds float_of_string v = None)
  /\ (v = VNone \/ (exists l, v = VList l) \/ (exists d, v = VDict d) ->
      parse_timestamp_to_seconds float_of_string v = None).
Proof.
  assert (Hnn : forall q s,
            (if Qleb 0 q then Some q else None) = Some s -> 0 <= s).
  { intros q s. destruct (Qleb 0 q) eqn:E; [|discriminate].
    intro H. inversion H; subst. apply Qleb_true. exact E. }
  split; [|split; [|split]].
  - intro s. unfold parse_timestamp_to_seconds.
    destruct v as [|b|q|t|l|d]; try discriminate; try apply Hnn.
    destruct (String.eqb (strip t) ""); [discriminate|].
    destruct (float_parts float_of_string (split_on ":" (strip t)))
      as [[|a [|b [|c [|e r]]]]|]; try discriminate; apply Hnn.
  - intros q ->. reflexivity.
  - intros t -> H. unfold parse_timestamp_to_seconds.
    destruct (String.eqb (strip t) "") eqn:E; [reflexivity|].
    destruct H as [H|H]; [rewrite H in E; discriminate|].
    assert (Hlen : forall parts qs,
              float_parts float_of_string parts = Some qs ->
              List.length qs = List.length parts).
    { induction parts as [|p r IH]; intros qs Hq; cbn in Hq.
      - inversion Hq. reflexivity.
      - destruct (float_of_string p); [|discriminate].
        destruct (float_parts float_of_string r) as [qr|]; [|discriminate].
        inversion Hq; subst. cbn. f_equal. apply IH. reflexivity. }
    destruct (float_parts float_of_string (split_on ":" (strip t)))
      as [qs|] eqn:Ep; [|reflexivity].
    apply Hlen in Ep. rewrite <- Ep in H.
    destruct qs as [|a [|b [|c [|e r]]]]; cbn in H; try lia. reflexivity.
  - intros [->|[[l ->]|[d ->]]]; reflexivity.
Qed.

Lemma parse_timestamp_never_negative_witness :
  parse_timestamp_to_seconds no_float (VStr "1:2:3:4") = None.
Proof.
  apply (proj1 (proj2 (proj2 (parse_timestamp_never_negative no_float
                                (VStr "1:2:3:4")))) "1:2:3:4" eq_refl).
  right. vm_compute. lia.
Defined.
(* --------------------------------------------------------------------- *)
(** ** The two parsers of subtitle timecodes *)
(* --------------------------------------------------------------------- *)

Lemma digit_cases (c : ascii) :
  is_digit_ascii c = true ->
  In c ["0"; "1"; "2"; "3"; "4"; "5"; "6"; "7"; "8"; "9"]%char.
Proof.
  destruct c as [b0 b1 b2 b3 b4 b5 b6 b7].
  destruct b0, b1, b2, b3, b4, b5, b6, b7; intro H;
    try (vm_compute in H; discriminate H);
    cbn [In]; repeat (try (left; reflexivity); right).
Qed.

Ltac each_digit H :=
  apply digit_cases in H; cbn [In] in H; decompose [or] H; clear H;
  try contradiction; subst.

Lemma digit_not_colon (c : ascii) :
  is_digit_ascii c = true -> Ascii.eqb c ":" = false.
Proof. intro H. each_digit H; reflexivity. Qed.

Lemma digit_not_comma (c : ascii) :
  is_digit_ascii c = true -> Ascii.eqb c "," = false.
Proof. intro H. each_digit H; reflexivity. Qed.

Lemma py_int_two_digits (a b : ascii) :
  is_digit_ascii a = true -> is_digit_ascii b = true ->
  py_int (String a (String b "")) = Some (digit_value a * 10 + digit_value b)%Z.
Proof. intros Ha Hb. each_digit Ha; each_digit Hb; reflexivity. Qed.

Lemma py_int_three_digits (a b c : ascii) (tail : string) :
  is_digit_ascii a = true -> is_digit_ascii b = true ->
  is_digit_ascii c = true ->
  tail = "" \/ tail = String (ascii_of_nat 10) "" ->
  py_int (String a (String b (String c tail)))
  = Some ((digit_value a * 10 + digit_value b) * 10 + digit_value c)%Z.
Proof.
  intros Ha Hb Hc [->| ->]; each_digit Ha; each_digit Hb; each_digit Hc;
    reflexivity.
Qed.

Lemma split_on_aux_skip (sep c : ascii) (r cur : string) :
  Ascii.eqb c sep = false ->
  split_on_aux sep (String c r) cur = split_on_aux sep r (String c cur).
Proof. intro H. cbn [split_on_aux]. rewrite H. reflexivity. Qed.

Lemma split_on_aux_hit (sep : ascii) (r cur : string) :
  split_on_aux sep (String sep r) cur
  = string_rev cur :: split_on_aux sep r "".
Proof. cbn [split_on_aux]. rewrite Ascii.eqb_refl. reflexivity. Qed.

Lemma seconds_from_timecode_digits
    (h1 h2 m1 m2 s1 s2 k1 k2 k3 : ascii) (tail : string) :
  forallb is_digit_ascii [h1; h2; m1; m2; s1; s2; k1; k2; k3] = true ->
  tail = "" \/ tail = String (ascii_of_nat 10) "" ->
  seconds_from_timecode
    (String h1 (String h2 (String ":" (String m1 (String m2 (String ":"
       (String s1 (String s2 (String ","
          (String k1 (String k2 (String k3 tail))))))))))))
  = Ok (inject_Z ((digit_value h1 * 10 + digit_value h2) * 3600
                  + (digit_value m1 * 10 + digit_value m2) * 60
                  + (digit_value s1 * 10 + digit_value s2))
        + inject_Z ((digit_value k1 * 10 + digit_value k2) * 10
                    + digit_value k3) / 1000).
Proof.
  intros Hd Ht. cbn [forallb] in Hd.
  repeat (apply andb_true_iff in Hd;
          let H := fresh "D" in destruct Hd as [H Hd]).
  clear Hd.
  assert (Ecomma : Ascii.eqb "," ":" = false) by reflexivity.
  assert (Etail : split_on_aux ":" tail (String k3 (String k2 (String k1
                    (String "," (String s2 (String s1 ""))))))
                  = [String s1 (String s2 (String "," (String k1 (String k2
                       (String k3 tail)))))]).
  { destruct Ht as [->| ->]; reflexivity. }
  assert (E1 : split_on ":"
                 (String h1 (String h2 (String ":" (String m1 (String m2
                    (String ":" (String s1 (String s2 (String ","
                       (String k1 (String k2 (String k3 tail))))))))))))
               = [String h1 (String h2 "");
                  String m1 (String m2 "");
                  String s1 (String s2 (String "," (String k1 (String k2
                     (String k3 tail)))))]).
  { unfold split_on.
    rewrite (split_on_aux_skip ":" h1) by (apply digit_not_colon; assumption).
    rewrite (split_on_aux_skip ":" h2) by (apply digit_not_colon; assumption).
    rewrite split_on_aux_hit.
    rewrite (split_on_aux_skip ":" m1) by (apply digit_not_colon; assumption).
    rewrite (split_on_aux_skip ":" m2) by (apply digit_not_colon; assumption).
    rewrite split_on_aux_hit.
    rewrite (split_on_aux_skip ":" s1) by (apply digit_not_colon; assumption).
    rewrite (split_on_aux_skip ":" s2) by (apply digit_not_colon; assumption).
    rewrite (split_on_aux_skip ":" ",") by exact Ecomma.
    rewrite (split_on_aux_skip ":" k1) by (apply digit_not_colon; assumption).
    rewrite (split_on_aux_skip ":" k2) by (apply digit_not_colon; assumption).
    rewrite (split_on_aux_skip ":" k3) by (apply digit_not_colon; assumption).
    rewrite Etail. reflexivity. }
  assert (Etail2 : split_on_aux "," tail (String k3 (String k2 (String k1 "")))
                   = [String k1 (String k2 (String k3 tail))]).
  { destruct Ht as [->| ->]; reflexivity. }
  assert (E2 : split_on ","
                 (String s1 (String s2 (String "," (String k1 (String k2
                    (String k3 tail))))))
               = [String s1 (String s2 "");
                  String k1 (String k2 (String k3 tail))]).
  { unfold split_on.
    rewrite (split_on_aux_skip "," s1) by (apply digit_not_comma; assumption).
    rewrite (split_on_aux_skip "," s2) by (apply digit_not_comma; assumption).
    rewrite split_on_aux_hit.
    rewrite (split_on_aux_skip "," k1) by (apply digit_not_comma; assumption).
    rewrite (split_on_aux_skip "," k2) by (apply digit_not_comma; assumption).
    rewrite (split_on_aux_skip "," k3) by (apply digit_not_comma; assumption).
    rewrite Etail2. reflexivity. }
  unfold seconds_from_timecode. rewrite E1. cbv beta iota. rewrite E2.
  cbv beta iota.
  rewrite (py_int_two_digits h1 h2), (py_int_two_digits m1 m2),
    (py_int_two_digits s1 s2), (py_int_three_digits k1 k2 k3 tail)
    by assumption.
  reflexivity.
Qed.

Lemma append_assoc_string (a b c : string) :
  append (append a b) c = append a (append b c).
Proof.
  induction a as [|x r IH]; cbn [append]; [reflexivity|].
  rewrite IH. reflexivity.
Qed.

Lemma string_rev_app_append (s acc : string) :
  string_rev_app s acc = append (string_rev s) acc.
Proof.
  unfold string_rev. revert acc.
  induction s as [|c r IH]; intro acc; cbn [string_rev_app].
  - reflexivity.
  - rewrite (IH (String c acc)), (IH (String c "")).
    rewrite append_assoc_string. reflexivity.
Qed.

Lemma string_rev_app_append_one (s : string) (c : ascii) (acc : string) :
  string_rev_app (append s (String c "")) acc
  = String c (string_rev_app s acc).
Proof.
  revert acc. induction s as [|d r IH]; intro acc;
    cbn [append string_rev_app].
  - reflexivity.
  - apply IH.
Qed.

Lemma string_rev_append_one (s : string) (c : ascii) :
  string_rev (append s (String c "")) = String c (string_rev s).
Proof. apply string_rev_app_append_one. Qed.

Lemma string_rev_involutive (s : string) : string_rev (string_rev s) = s.
Proof.
  induction s as [|c r IH].
  - reflexivity.
  - unfold string_rev at 2. cbn [string_rev_app].
    rewrite string_rev_app_append, string_rev_append_one, IH. reflexivity.
Qed.

Lemma string_of_ascii_list (body : string) (l : list ascii) :
  list_ascii_of_string body = l -> body = string_of_list_ascii l.
Proof.
  intro H. rewrite <- H. symmetry. apply string_of_list_ascii_of_string.
Qed.

(** Whenever [parse_srt_timestamp] accepts a string, [seconds_from_timecode]
    of the normaliser accepts it too and returns the same time, which is
    hours * 3600 + minutes * 60 + seconds + milliseconds / 1000 and is never
    negative. *)
Theorem srt_timestamp_parsers_agree (value : string) (x : Q) :
  parse_srt_timestamp value = Some x ->
  seconds_from_timecode value = Ok x /\ 0 <= x.
Proof.
  unfold parse_srt_timestamp.
  set (body := match string_rev value with
               | String c r =>
                   if Ascii.eqb c (ascii_of_nat 10) then string_rev r
                   else value
               | EmptyString => value
               end).
  assert (Hvalue : value = body
                   \/ value = append body (String (ascii_of_nat 10) "")).
  { unfold body. destruct (string_rev value) as [|c r] eqn:Er;
      [left; reflexivity|].
    destruct (Ascii.eqb c (ascii_of_nat 10)) eqn:Ec; [|left; reflexivity].
    right. apply Ascii.eqb_eq in Ec. subst c.
    rewrite <- (string_rev_involutive value), Er.
    unfold string_rev at 1. cbn [string_rev_app].
    apply string_rev_app_append. }
  destruct (list_ascii_of_string body)
    as [|h1 [|h2 [|c1 [|m1 [|m2 [|c2 [|s1 [|s2 [|c3 [|k1 [|k2 [|k3 [|e r]]]]]]]]]]]]]
    eqn:El; try discriminate.
  apply string_of_ascii_list in El. cbn [string_of_list_ascii] in El.
  destruct (forallb is_digit_ascii [h1; h2; m1; m2; s1; s2; k1; k2; k3])
    eqn:Ed; [|discriminate].
  destruct (Ascii.eqb c1 ":") eqn:E1; [|discriminate].
  destruct (Ascii.eqb c2 ":") eqn:E2; [|discriminate].
  destruct (Ascii.eqb c3 ",") eqn:E3; [|discriminate].
  apply Ascii.eqb_eq in E1. apply Ascii.eqb_eq in E2.
  apply Ascii.eqb_eq in E3. subst c1 c2 c3.
  cbn [andb]. cbv zeta. intro H. inversion H; subst x; clear H.
  split.
  - destruct Hvalue as [Hv|Hv]; rewrite Hv, El; cbn [append];
      rewrite (seconds_from_timecode_digits h1 h2 m1 m2 s1 s2 k1 k2 k3 _ Ed);
      auto; f_equal; f_equal; f_equal; lia.
  - unfold digit_value.
    generalize (Z.of_nat (nat_of_ascii h1 - 48)) (Nat2Z.is_nonneg (nat_of_ascii h1 - 48)).
    generalize (Z.of_nat (nat_of_ascii h2 - 48)) (Nat2Z.is_nonneg (nat_of_ascii h2 - 48)).
    generalize (Z.of_nat (nat_of_ascii m1 - 48)) (Nat2Z.is_nonneg (nat_of_ascii m1 - 48)).
    generalize (Z.of_nat (nat_of_ascii m2 - 48)) (Nat2Z.is_nonneg (nat_of_ascii m2 - 48)).
    generalize (Z.of_nat (nat_of_ascii s1 - 48)) (Nat2Z.is_nonneg (nat_of_ascii s1 - 48)).
    generalize (Z.of_nat (nat_of_ascii s2 - 48)) (Nat2Z.is_nonneg (nat_of_ascii s2 - 48)).
    generalize (Z.of_nat (nat_of_ascii k1 - 48)) (Nat2Z.is_nonneg (nat_of_ascii k1 - 48)).
    generalize (Z.of_nat (nat_of_ascii k2 - 48)) (Nat2Z.is_nonneg (nat_of_ascii k2 - 48)).
    generalize (Z.of_nat (nat_of_ascii k3 - 48)) (Nat2Z.is_nonneg (nat_of_ascii k3 - 48)).
    intros. unfold Qle, Qplus, Qdiv, Qmult, Qinv, inject_Z. cbn. nia.
Qed.

Lemma srt_timestamp_parsers_agree_witness :
  seconds_from_timecode "00:01:02,500" = Ok (inject_Z 62 + inject_Z 500 / 1000).
Proof.
  apply (srt_timestamp_parsers_agree "00:01:02,500").
  vm_compute. reflexivity.
Defined.
(* --------------------------------------------------------------------- *)
(** ** Transitions of the normaliser *)
(* --------------------------------------------------------------------- *)

Ltac string_tests :=
  cbv beta iota zeta
    delta [mem_string existsb String.eqb Ascii.eqb Bool.eqb orb andb negb
           fst snd TRANSITION_TYPES TRANSITION_DIRECTIONS
           get get_default dict_find assoc has_key set_if dict_set
           py_or truthy lower_of as_str bind opt_str_truthy
           ensure_float float_of].

Ltac lower_literals :=
  repeat match goal with
         | |- context [lower ?s] =>
             let r := eval vm_compute in (lower s) in
             change (lower s) with r
         end.

Lemma clamp_round3_fixed (lo hi x : Q) :
  on_grid 1000 lo -> on_grid 1000 hi -> lo <= hi ->
  round3 (fmax lo (fmin (round3 (fmax lo (fmin x hi))) hi))
  = round3 (fmax lo (fmin x hi)).
Proof.
  intros Hlo Hhi Hle.
  destruct (round3_clamp lo hi x Hlo Hhi Hle) as [H1 H2].
  set (y := round3 (fmax lo (fmin x hi))) in *.
  assert (E : fmax lo (fmin y hi) == y).
  { destruct (fmin_cases y hi) as [[H3 ->]|[H3 ->]];
    destruct (fmax_cases lo hi) as [[H4 E4]|[H4 E4]];
    destruct (fmax_cases lo y) as [[H5 E5]|[H5 E5]];
    rewrite ?E4, ?E5; lra. }
  unfold round3 at 1. rewrite (round_at_proper 1000 _ _ E).
  apply round_at_idem.
Qed.

Lemma mem_string_In (s : string) (l : list string) :
  mem_string s l = true -> In s l.
Proof.
  unfold mem_string. intro H. apply existsb_exists in H.
  destruct H as (x & Hin & Hx). apply String.eqb_eq in Hx. subst. exact Hin.
Qed.

Section TransitionAgain.
Variable float_of_string : string -> option Q.

Lemma finish_transition_again (transition_type : string)
    (direction : option string) (duration_value intensity_value : option Q) :
  normalize_transition float_of_string
    (VDict (finish_transition transition_type direction duration_value
              intensity_value))
  = Ok (Some (finish_transition transition_type direction duration_value
                intensity_value))
  /\ canonical_transition
       (finish_transition transition_type direction duration_value
          intensity_value).
Proof.
  unfold finish_transition.
  set (td := if mem_string transition_type ["fade"; "dissolve"] then _ else _).
  destruct td as [ty dir].
  set (ty' := if mem_string ty TRANSITION_TYPES then ty else "cut").
  assert (Hty : In ty' TRANSITION_TYPES).
  { unfold ty'. destruct (mem_string ty TRANSITION_TYPES) eqn:E.
    - apply mem_string_In. exact E.
    - left. reflexivity. }
  clearbody ty'.
  set (dv := match duration_value with
             | Some d => if Qltb 0 d then d else 6 # 10
             | None => 6 # 10
             end).
  set (iv := match intensity_value with
             | Some i => if Qleb i 0 then None else Some _
             | None => None
             end).
  assert (Hd : 1 # 10 <= round3 (fmax (1 # 10) (fmin dv 3))).
  { apply round3_clamp; [exists 100%Z|exists 3000%Z|]; try reflexivity. lra. }
  assert (Hdfix : round3
                    (fmax (1 # 10)
                       (fmin (round3 (fmax (1 # 10) (fmin dv 3))) 3))
                  = round3 (fmax (1 # 10) (fmin dv 3))).
  { apply clamp_round3_fixed; [exists 100%Z|exists 3000%Z|]; try reflexivity.
    lra. }
  set (D := round3 (fmax (1 # 10) (fmin dv 3))) in *.
  assert (HDpos : Qltb 0 D = true) by (apply Qltb_true; lra).
  assert (Hiv : match iv with
                | Some i =>
                    Qleb i 0 = false
                    /\ round3 (fmax (5 # 100) (fmin i (6 # 10))) = i
                    /\ 5 # 100 <= i /\ i <= 6 # 10
                | None => True
                end).
  { unfold iv. destruct intensity_value as [i|]; [|exact I].
    destruct (Qleb i 0); [exact I|].
    assert (Hb : 5 # 100 <= round3 (fmax (5 # 100) (fmin i (6 # 10)))
                 /\ round3 (fmax (5 # 100) (fmin i (6 # 10))) <= 6 # 10).
    { apply round3_clamp; [exists 50%Z|exists 600%Z|]; try reflexivity.
      lra. }
    split; [apply Qleb_false; lra|]. split; [|exact Hb].
    apply clamp_round3_fixed; [exists 50%Z|exists 600%Z|];
      try reflexivity. lra. }
  clearbody iv D.
  cbn [In TRANSITION_TYPES] in Hty.
  decompose [or] Hty; clear Hty; try contradiction; subst ty'.
  all: destruct iv as [i|]; [destruct Hiv as (Hi1 & Hi2 & Hi3 & Hi4)|].
  all: destruct dir as [dr|].
  all: try (destruct (mem_string dr TRANSITION_DIRECTIONS) eqn:Em;
            [apply mem_string_In in Em; cbn [In TRANSITION_DIRECTIONS] in Em;
             decompose [or] Em; clear Em; try contradiction; subst dr|]).
  all: try (destruct (Qeqb i 0) eqn:Ez).
  all: split;
    [unfold normalize_transition; string_tests; lower_literals;
     unfold finish_transition; string_tests;
     rewrite ?HDpos, ?Hdfix, ?Hi1, ?Hi2, ?Ez, ?Em; string_tests;
     reflexivity|].
  all: unfold canonical_transition; string_tests; rewrite ?Em; string_tests.
  all: eexists; split; [reflexivity|].
  all: split; [cbn [In]; repeat (try (left; reflexivity); right)|].
  all: split; [first [intro H; discriminate H|intros _; reflexivity]|].
  all: split;
    [first [left; reflexivity
           |right; eexists; split; [reflexivity|]; split; [reflexivity|];
            cbn [In]; repeat (try (left; reflexivity); right)]|].
  all: first [left; reflexivity
             |right; eexists; split; [reflexivity|]; split;
              [cbn [In]; repeat (try (left; reflexivity); right)|];
              split; assumption].
Qed.

(** A transition the normaliser returns is in canonical form, and the
    normaliser returns it unchanged when it reads it back. *)
Theorem normalize_transition_fixed_point (v : value) (t : dict) :
  normalize_transition float_of_string v = Ok (Some t) ->
  normalize_transition float_of_string (VDict t) = Ok (Some t)
  /\ canonical_transition t.
Proof.
  destruct v as [| | |s|l|d]; cbn [normalize_transition]; try discriminate.
  - intro H. inversion H; subst. apply finish_transition_again.
  - destruct (lower_of _) as [ty|]; cbn [bind]; [|discriminate].
    destruct (lower_of _) as [dir|]; cbn [bind]; [|discriminate].
    intro H. inversion H; subst. apply finish_transition_again.
Qed.

End TransitionAgain.

Lemma normalize_transition_fixed_point_witness :
  normalize_transition no_float
    (VDict [("type", VStr "crossfade"); ("duration", VNum (round3 3))])
  = Ok (Some [("type", VStr "crossfade"); ("duration", VNum (round3 3))]).
Proof.
  apply (normalize_transition_fixed_point no_float
           (VDict [("type", VStr "Fade"); ("duration", VNum 9)])).
  vm_compute. reflexivity.
Defined.
(* --------------------------------------------------------------------- *)
(** ** The shape of a normalised plan *)
(* --------------------------------------------------------------------- *)

Lemma dict_find_setdefault_other (k k' : string) (v : value) (d : dict) :
  String.eqb k' k = false -> dict_find k' (setdefault k v d) = dict_find k' d.
Proof.
  intro H. unfold setdefault. destruct (has_key d k); [reflexivity|].
  apply dict_find_dict_set_other, H.
Qed.

Lemma dict_find_setdefault_opt_other (k k' : string) (o : option string)
    (d : dict) :
  String.eqb k' k = false ->
  dict_find k' (setdefault_opt k o d) = dict_find k' d.
Proof.
  intro H. destruct o; [|reflexivity]. apply dict_find_setdefault_other, H.
Qed.

Ltac find_key2 :=
  repeat first
    [ rewrite dict_find_set_if_other by reflexivity
    | rewrite dict_find_set_nonempty_other by reflexivity
    | rewrite dict_find_set_opt_other by reflexivity
    | rewrite dict_find_set_opt_dict_other by reflexivity
    | rewrite dict_find_setdefault_other by reflexivity
    | rewrite dict_find_dict_set_other by reflexivity ].

Lemma round3_nonneg (q : Q) : 0 <= q -> 0 <= round3 q.
Proof.
  intro H. apply Qle_trans with (round3 0).
  - vm_compute. discriminate.
  - apply round_at_mono. exact H.
Qed.

Section NormalizerShape.
Variable float_of_string : string -> option Q.
Variable repr_of : value -> string.
Variable normalize_sfx_name : value -> option string.

(** The blocks that complete a highlight dictionary leave the keys of its
    head alone. *)
Lemma add_typed_text_other (k : string) (raw : dict) (ty : option string)
    (a b c d e f : string) (h : dict) :
  mem_string k ["text"; "keyword"; "importance"; "showBottom"; "safeBottom";
                "safeInsetHorizontal"] = false ->
  dict_find k (add_typed_text raw ty a b c d e f h) = dict_find k h.
Proof.
  unfold mem_string. cbn [existsb]. intro H.
  repeat (apply orb_false_iff in H;
          let E := fresh "E" in destruct H as [E H]).
  assert (Fset : forall k0 v d0, String.eqb k k0 = false ->
            dict_find k (dict_set k0 v d0) = dict_find k d0).
  { intros. apply dict_find_dict_set_other. assumption. }
  assert (Fdef : forall k0 v d0, String.eqb k k0 = false ->
            dict_find k (setdefault k0 v d0) = dict_find k d0).
  { intros. apply dict_find_setdefault_other. assumption. }
  unfold add_typed_text.
  destruct (id_eqb ty (Some "noteBox")).
  - destruct (get raw "importance") as [| | |s| |];
      try destruct (String.eqb (strip s) "");
      repeat (first [rewrite Fset by assumption
                    |rewrite Fdef by assumption]);
      reflexivity.
  - destruct (id_eqb ty (Some "sectionTitle")).
    + destruct (format_section_title _ _).
      rewrite ?Fset by assumption. reflexivity.
    + unfold set_if. destruct (_ && _); [|reflexivity].
      rewrite Fset by assumption. reflexivity.
Qed.

Lemma add_variant_other (k : string) (raw h : dict) :
  String.eqb k "variant" = false ->
  dict_find k (add_variant repr_of raw h) = dict_find k h.
Proof.
  intro H. unfold add_variant. destruct (assoc _ _); [|reflexivity].
  apply dict_find_set_if_other, H.
Qed.

Lemma add_sfx_other (k : string) (raw h : dict) :
  String.eqb k "sfx" = false ->
  dict_find k (add_sfx normalize_sfx_name raw h) = dict_find k h.
Proof.
  intro H. unfold add_sfx. destruct (opt_str_truthy _); [|reflexivity].
  apply dict_find_dict_set_other, H.
Qed.

Lemma add_color_other (k : string) (raw : dict) (keys : list string)
    (k0 : string) (h : dict) :
  String.eqb k k0 = false ->
  dict_find k (add_color raw keys k0 h) = dict_find k h.
Proof.
  intro H. unfold add_color. destruct (or_list _); try reflexivity.
  apply dict_find_set_nonempty_other, H.
Qed.

Lemma add_layout_other (k : string) (l : option string) (s : string)
    (h : dict) :
  String.eqb k "layout" = false -> String.eqb k "showBottom" = false ->
  dict_find k (add_layout l s h) = dict_find k h.
Proof.
  intros H1 H2. unfold add_layout. destruct l; [|reflexivity].
  rewrite dict_find_set_if_other by exact H2.
  apply dict_find_dict_set_other, H1.
Qed.

Lemma add_stagger_other (k : string) (raw st h : dict) :
  String.eqb k "staggerLeft" = false -> String.eqb k "staggerRight" = false ->
  dict_find k (add_stagger float_of_string raw st h) = dict_find k h.
Proof.
  intros H1 H2. unfold add_stagger. destruct st; [reflexivity|].
  rewrite dict_find_set_if_other by exact H2.
  apply dict_find_setdefault_other, H1.
Qed.

Lemma add_radius_other (k : string) (raw h : dict) :
  String.eqb k "radius" = false ->
  dict_find k (add_radius float_of_string raw h) = dict_find k h.
Proof.
  intro H. unfold add_radius. destruct (try_float _ _); [|reflexivity].
  apply dict_find_set_if_other, H.
Qed.

Lemma add_volume_other (k : string) (raw h : dict) :
  String.eqb k "volume" = false ->
  dict_find k (add_volume float_of_string raw h) = dict_find k h.
Proof.
  intro H. unfold add_volume. destruct (try_float _ _); [|reflexivity].
  apply dict_find_set_if_other, H.
Qed.

Ltac highlight_key :=
  repeat first
    [ rewrite add_volume_other by reflexivity
    | rewrite add_radius_other by reflexivity
    | rewrite add_stagger_other by reflexivity
    | rewrite add_layout_other by reflexivity
    | rewrite add_color_other by reflexivity
    | rewrite add_sfx_other by reflexivity
    | rewrite add_variant_other by reflexivity
    | rewrite dict_find_set_if_other by reflexivity
    | rewrite dict_find_set_nonempty_other by reflexivity
    | rewrite dict_find_set_opt_other by reflexivity
    | rewrite dict_find_setdefault_other by reflexivity
    | rewrite dict_find_dict_set_other by reflexivity ].

Lemma highlight_timing_start (raw : dict) (e : option SrtEntry) (t : Q * Q) :
  highlight_timing float_of_string raw e = Ok t -> 0 <= fst t.
Proof.
  unfold highlight_timing.
  destruct (raw_highlight_timing float_of_string raw) as [start duration].
  destruct e as [e|].
  - destruct (seconds_from_timecode (srt_start e)) as [a|]; cbn [bind];
      [|discriminate].
    destruct (seconds_from_timecode (srt_end e)) as [b|]; cbn [bind];
      [|discriminate].
    destruct (Qltb 0 _); intro H; inversion H; subst; cbn [fst];
      apply fmax_lub_l.
  - intro H. inversion H; subst. cbn [fst]. apply fmax_lub_l.
Qed.

Lemma animation_known (key default : string) :
  In default HIGHLIGHT_ANIMATIONS ->
  In (match assoc key ANIMATION_MAP with
      | Some a => a
      | None => default
      end) HIGHLIGHT_ANIMATIONS.
Proof.
  intro Hd. unfold ANIMATION_MAP. cbn [assoc].
  repeat match goal with
         | |- context [if String.eqb key ?s then _ else _] =>
             destruct (String.eqb key s)
         end;
  first [exact Hd
        |cbn [In HIGHLIGHT_ANIMATIONS];
         repeat (try (left; reflexivity); right)].
Qed.

(** Every highlight [normalize_highlight_item] returns is in normal form. *)
Lemma normalize_highlight_item_normal (raw_value : value) (index : nat)
    (srt_lookup : list SrtEntry) (h : dict) :
  normalize_highlight_item float_of_string repr_of normalize_sfx_name
    raw_value index srt_lookup = Ok (Some h) ->
  normal_highlight h.
Proof.
  unfold normalize_highlight_item.
  destruct raw_value as [| | | | |raw]; try discriminate.
  intro H.
  apply bind_Ok in H. destruct H as (text_raw & _ & H).
  apply bind_Ok in H. destruct H as (title_raw & _ & H).
  apply bind_Ok in H. destruct H as (subtitle_raw & _ & H).
  apply bind_Ok in H. destruct H as (badge_raw & _ & H).
  apply bind_Ok in H. destruct H as (name_raw & _ & H).
  apply bind_Ok in H. destruct H as (icon_value & _ & H).
  destruct (String.eqb (first_nonempty _) ""); [discriminate|].
  apply bind_Ok in H. destruct H as (t & Ht & H).
  apply bind_Ok in H. destruct H as (position & _ & H).
  set (resolved := match opt_str_truthy (resolve_highlight_type raw) with
                   | Some t0 => Some t0
                   | None => _
                   end) in H.
  set (is_icon := id_eqb resolved (Some "icon")) in H.
  set (sanitized := if is_icon then "" else first_sanitized _) in H.
  set (assigned := match resolved with
                   | Some t0 => Some t0
                   | None => _
                   end) in H.
  destruct (id_eqb assigned (Some "noteBox") && String.eqb sanitized "")
    eqn:Enote; [discriminate|].
  apply bind_Ok in H. destruct H as (asset & _ & H).
  apply bind_Ok in H. destruct H as (side & _ & H).
  inversion H; subst h; clear H.
  assert (Htype : forall d0, dict_find "type" (set_opt "type" assigned d0)
                             = match assigned with
                               | Some a => Some (VStr a)
                               | None => dict_find "type" d0
                               end).
  { intro d0. destruct assigned; cbn [set_opt]; [|reflexivity].
    rewrite dict_find_set. reflexivity. }
  assert (Hicon : is_icon = true -> assigned = Some "icon").
  { unfold is_icon, assigned. intro E. apply id_eqb_eq in E. rewrite E.
    reflexivity. }
  match goal with
  | |- context [("position", VStr ?p)] => set (pos := p)
  end.
  assert (Hpos : In pos HIGHLIGHT_POSITIONS
                 /\ (pos = "center" -> is_icon = true)).
  { assert (Hgen : forall b : bool,
              In (if negb (mem_string position HIGHLIGHT_POSITIONS)
                    || negb b
                  then if b then "center" else "bottom"
                  else position) HIGHLIGHT_POSITIONS
              /\ ((if negb (mem_string position HIGHLIGHT_POSITIONS)
                      || negb b
                   then if b then "center" else "bottom"
                   else position) = "center" -> b = true)).
    { intro b.
      destruct (mem_string position HIGHLIGHT_POSITIONS) eqn:Em;
        destruct b; cbn [negb orb].
      - split; [apply mem_string_In; exact Em|reflexivity].
      - split; [left; reflexivity|discriminate].
      - split; [right; left; reflexivity|reflexivity].
      - split; [left; reflexivity|discriminate]. }
    exact (Hgen is_icon). }
  match goal with
  | |- context [("animation", VStr ?a)] => set (anim := a)
  end.
  assert (Hanim : In anim HIGHLIGHT_ANIMATIONS).
  { unfold anim. apply animation_known.
    assert (Hgen : forall b : bool,
              In (if b then "pop" else "fade") HIGHLIGHT_ANIMATIONS).
    { intro b. destruct b; cbn [In HIGHLIGHT_ANIMATIONS];
        repeat (try (left; reflexivity); right). }
    exact (Hgen is_icon). }
  clearbody pos anim.
  clearbody assigned. clearbody sanitized. clearbody is_icon.
  clearbody resolved.
  unfold normal_highlight, get.
  split; [|split; [|split; [|split]]].
  - highlight_key. rewrite add_typed_text_other by reflexivity.
    highlight_key. eexists. reflexivity.
  - highlight_key. rewrite add_typed_text_other by reflexivity.
    highlight_key. eexists. split; [reflexivity|].
    apply round3_nonneg. eapply highlight_timing_start. exact Ht.
  - highlight_key. rewrite add_typed_text_other by reflexivity.
    highlight_key. exists pos. split; [reflexivity|].
    split; [apply Hpos|]. intro Hc.
    highlight_key. rewrite add_typed_text_other by reflexivity.
    rewrite Htype, (Hicon (proj2 Hpos Hc)). reflexivity.
  - highlight_key. rewrite add_typed_text_other by reflexivity.
    highlight_key. exists anim. split; [reflexivity|exact Hanim].
  - highlight_key. rewrite add_typed_text_other by reflexivity.
    rewrite Htype. intro Ha.
    assert (Ea : assigned = Some "noteBox").
    { destruct assigned as [a|]; [|discriminate]. inversion Ha. reflexivity. }
    assert (Eid : id_eqb assigned (Some "noteBox") = true)
      by (apply id_eqb_eq; exact Ea).
    rewrite Eid in Enote. cbn [andb] in Enote.
    exists sanitized. split; [intro E; rewrite E in Enote; discriminate|].
    highlight_key. unfold add_typed_text. rewrite Eid.
    split.
    + destruct (get raw "importance") as [| | |s| |];
        try destruct (String.eqb (strip s) "");
        highlight_key; rewrite dict_find_set; reflexivity.
    + destruct (get raw "importance") as [| | |s| |];
        try destruct (String.eqb (strip s) "");
        highlight_key; rewrite dict_find_set; reflexivity.
Qed.
End NormalizerShape.

(* --------------------------------------------------------------------- *)
(** ** The lists of a normalised plan *)
(* --------------------------------------------------------------------- *)

Lemma Sorted_map_rel {A B : Type} (R1 : A -> A -> Prop)
    (R2 : B -> B -> Prop) (f : A -> B) (l : list A) :
  (forall a b, In a l -> In b l -> R1 a b -> R2 (f a) (f b)) ->
  Sorted R1 l -> Sorted R2 (map f l).
Proof.
  intros HR Hs. induction Hs as [|a l Hs IH Hhd]; [constructor|].
  cbn [map]. constructor.
  - apply IH. intros x y Hx Hy. apply HR; right; assumption.
  - destruct Hhd as [|b l' Hab]; constructor.
    apply HR; [left; reflexivity|right; left; reflexivity|exact Hab].
Qed.

Section NormalizerPlan.
Variable float_of_string : string -> option Q.
Variable repr_of : value -> string.
Variable normalize_sfx_name : value -> option string.

Lemma normalize_camera_movement_cases (v : value) :
  normalize_camera_movement repr_of v = None
  \/ normalize_camera_movement repr_of v = Some "zoomIn"
  \/ normalize_camera_movement repr_of v = Some "zoomOut".
Proof.
  unfold normalize_camera_movement.
  destruct v; try (left; reflexivity); cbv zeta;
    repeat match goal with
           | |- context [if ?c then _ else _] => destruct c
           end;
    auto.
Qed.

Lemma normalize_segment_normal (raw : dict) (index : nat) (tl : Q)
    (seg : dict) :
  normalize_segment float_of_string repr_of (VDict raw) index
  = Ok (Some (tl, seg)) ->
  normal_segment seg /\ stored_timing seg.
Proof.
  intro H.
  destruct (normalize_segment_timing float_of_string repr_of _ _ _ _ H)
    as (d & Hd & Hs & Hdur).
  destruct (normalize_segment_shape float_of_string repr_of _ _ _ _ H)
    as (_ & Hid & _).
  apply segment_duration_positive in Hd.
  assert (Ht : stored_timing seg).
  { unfold stored_timing, get. rewrite Hs, Hdur.
    split; [eexists; reflexivity|].
    eexists. split; [reflexivity|]. apply round3_nonneg. lra. }
  split; [|exact Ht].
  unfold normal_segment, get.
  split; [rewrite Hid; eexists; reflexivity|].
  clear Hs Hdur Hid Ht.
  revert H. unfold normalize_segment.
  destruct (segment_duration float_of_string raw) as [duration|];
    [|discriminate].
  intro H.
  apply bind_Ok in H. destruct H as (label & _ & H).
  apply bind_Ok in H. destruct H as (tin & _ & H).
  apply bind_Ok in H. destruct H as (tout & _ & H).
  inversion H; subst; clear H.
  split.
  { find_key. rewrite dict_find_set. eexists. reflexivity. }
  split.
  { find_key.
    match goal with
    | |- context [normalize_camera_movement repr_of ?v] =>
        destruct (normalize_camera_movement_cases v) as [E|[E|E]]
    end;
      rewrite E; cbn [set_opt].
    - left. find_key. reflexivity.
    - right. left. rewrite dict_find_set. reflexivity.
    - right. right. rewrite dict_find_set. reflexivity. }
  find_key. unfold set_if at 1.
  destruct (negb _ && Qltb _ _).
  - right. rewrite dict_find_set. eexists. split; [reflexivity|].
    apply round3_nonneg.
    destruct (Qleb _ 0) eqn:E; [lra|]. apply Qleb_false in E. lra.
  - left. find_key. reflexivity.
Qed.

Lemma normalize_highlights_loop_length (srt_lookup : list SrtEntry)
    (raw_highlights : list value) :
  forall idx acc out,
    (List.length acc < MAX_HIGHLIGHTS)%nat ->
    normalize_highlights_loop float_of_string repr_of normalize_sfx_name
      srt_lookup raw_highlights idx acc = Ok out ->
    (List.length out <= MAX_HIGHLIGHTS)%nat.
Proof.
  induction raw_highlights as [|r rest IH]; intros idx acc out Hacc H.
  - inversion H; subst. lia.
  - rewrite normalize_highlights_loop_cons in H.
    apply bind_Ok in H. destruct H as (n & _ & H). cbv zeta in H.
    set (acc' := match n with
                 | Some h => if truthy (VDict h) then acc ++ [h] else acc
                 | None => acc
                 end) in *.
    assert (Hacc' : (List.length acc' <= S (List.length acc))%nat).
    { unfold acc'. destruct n as [h|]; [|lia].
      destruct (truthy (VDict h)); [|lia].
      rewrite length_app. simpl. lia. }
    clearbody acc'.
    destruct (MAX_HIGHLIGHTS <=? List.length acc')%nat eqn:E.
    + inversion H; subst. lia.
    + apply Nat.leb_gt in E. eapply IH; [exact E|exact H].
Qed.

(** The highlights of a normalised plan: at most eighteen, in the order of
    their starts, each one with an id, a start that is not negative, a
    known position (the centre for icons only) and a known animation, and
    each note box with a phrase that is not empty. *)
Theorem normalize_plan_highlights_shape (plan : value)
    (srt_entries : list SrtEntry) (out : dict) :
  normalize_plan float_of_string repr_of normalize_sfx_name plan srt_entries
  = Ok out ->
  exists hls,
    get out "highlights" = VList (map VDict hls)
    /\ (List.length hls <= MAX_HIGHLIGHTS)%nat
    /\ Sorted highlight_start_le hls
    /\ Forall normal_highlight hls.
Proof.
  unfold normalize_plan. destruct plan as [| | | | |p]; try discriminate.
  intro H.
  apply bind_Ok in H. destruct H as (segs & _ & H).
  apply bind_Ok in H. destruct H as (raw_hls & _ & H).
  apply bind_Ok in H. destruct H as (hls & Hhls & H).
  inversion H; subst; clear H.
  eexists. split.
  { rewrite get_set_if. cbn [String.eqb Ascii.eqb Bool.eqb].
    rewrite andb_false_r. reflexivity. }
  split.
  { rewrite stable_sort_length.
    eapply normalize_highlights_loop_length; [|exact Hhls].
    unfold MAX_HIGHLIGHTS. simpl. lia. }
  split.
  { exact (sort_by_key_Sorted
             (fun a : dict => num_of (get_default a "start" (VNum 0))) hls). }
  assert (Hall : Forall normal_highlight hls).
  { eapply normalize_highlights_loop_Forall; [|constructor|exact Hhls].
    intros rv i h Hn.
    eapply normalize_highlight_item_normal. exact Hn. }
  rewrite Forall_forall in *. intros h Hh. apply Hall.
  eapply stable_sort_In. exact Hh.
Qed.

(** The segments of a normalised plan: each one has an id, a boolean
    silence flag, a camera movement that is absent, zoomIn or zoomOut, and
    a playback rate that is absent or not negative.  When every raw segment
    gives its timing fields as numbers or not at all, each segment stores a
    source start and a duration that is not negative; when in addition no
    raw segment gives a timeline start, the segments are in the order of
    their source starts. *)
Theorem normalize_plan_segments_shape (p : dict)
    (srt_entries : list SrtEntry) (out : dict) :
  normalize_plan float_of_string repr_of normalize_sfx_name (VDict p)
    srt_entries = Ok out ->
  exists segs,
    get out "segments" = VList (map VDict segs)
    /\ Forall normal_segment segs
    /\ (Forall numeric_timing (value_items (get p "segments")) ->
        Forall stored_timing segs
        /\ (Forall no_timeline_start (value_items (get p "segments")) ->
            Sorted source_start_le segs)).
Proof.
  intro H. apply normalize_plan_shape in H.
  destruct H as (p' & segs & raw_hls & hls & Ep & Hsegs & _ & Es & _).
  injection Ep as <-.
  exists segs. split; [exact Es|]. split; [|intros _; split].
  - eapply normalize_segments_Forall; [|exact Hsegs].
    intros rv i tl seg Hn.
    destruct rv as [| | | | |raw]; try discriminate.
    eapply normalize_segment_normal. exact Hn.
  - eapply normalize_segments_Forall; [|exact Hsegs].
    intros rv i tl seg Hn.
    destruct rv as [| | | | |raw]; try discriminate.
    eapply normalize_segment_normal. exact Hn.
  - intro Hraw. revert Hsegs. unfold normalize_segments.
    destruct (get p "segments") as [| | | |l|];
      try (intro H; inversion H; constructor).
    intro H. cbn [value_items] in Hraw.
    apply bind_Ok in H. destruct H as (items & Hitems & H).
    inversion H; subst; clear H.
    apply normalize_segments_loop_origin in Hitems.
    assert (Hkeyed : forall it,
              In it (stable_sort segment_item_leb items) ->
              keyed_by_source_start it).
    { intros [tl seg] Hin. apply stable_sort_In in Hin.
      rewrite Forall_forall in Hitems, Hraw.
      destruct (Hitems _ Hin) as (raw & i & Hr & Hn).
      destruct (normalize_segment_shape _ _ _ _ _ _ Hn) as (Etl & _).
      destruct (normalize_segment_timing _ _ _ _ _ _ Hn)
        as (d & _ & Hs & _).
      destruct (Hraw _ Hr) as [N1 N2].
      unfold keyed_by_source_start. cbn [fst snd].
      rewrite Hs, Etl. unfold get_default, get.
      unfold has_key in N1, N2.
      destruct (dict_find "timelineStart" raw); [discriminate|].
      destruct (dict_find "timeline_start" raw); [discriminate|].
      reflexivity. }
    eapply Sorted_map_rel;
      [|apply (stable_sort_Sorted segment_item_leb),
          segment_item_leb_total].
    intros a b Ha Hb Hab.
    pose proof (Hkeyed a Ha) as Ka. pose proof (Hkeyed b Hb) as Kb.
    apply (segment_item_leb_spec a b Ka Kb) in Hab.
    unfold source_start_le, get.
    unfold keyed_by_source_start in Ka, Kb. rewrite Ka, Kb. cbn [num_of].
    apply round_at_mono. exact Hab.
Qed.

End NormalizerPlan.

Lemma normalize_plan_highlights_shape_witness :
  exists out hls,
    normalize_plan no_float plain_repr no_sfx (VDict crowded_raw_plan) []
    = Ok out
    /\ get out "highlights" = VList (map VDict hls)
    /\ (List.length hls <= MAX_HIGHLIGHTS)%nat
    /\ Sorted highlight_start_le hls
    /\ Forall normal_highlight hls.
Proof.
  pose (out :=
          match normalize_plan no_float plain_repr no_sfx
                  (VDict crowded_raw_plan) [] with
          | Ok d => d
          | Raise _ => []
          end).
  assert (H1 : normalize_plan no_float plain_repr no_sfx
                 (VDict crowded_raw_plan) [] = Ok out).
  { vm_compute. reflexivity. }
  destruct (normalize_plan_highlights_shape no_float plain_repr no_sfx
              (VDict crowded_raw_plan) [] out H1) as (hls & H).
  exists out, hls. split; [exact H1|exact H].
Defined.

Lemma normalize_plan_segments_shape_witness :
  exists out segs,
    normalize_plan no_float plain_repr no_sfx (VDict source_ordered_plan) []
    = Ok out
    /\ get out "segments" = VList (map VDict segs)
    /\ Forall normal_segment segs
    /\ Forall stored_timing segs
    /\ Sorted source_start_le segs.
Proof.
  pose (out :=
          match normalize_plan no_float plain_repr no_sfx
                  (VDict source_ordered_plan) [] with
          | Ok d => d
          | Raise _ => []
          end).
  assert (H1 : normalize_plan no_float plain_repr no_sfx
                 (VDict source_ordered_plan) [] = Ok out).
  { vm_compute. reflexivity. }
  assert (H2 : Forall no_timeline_start
                 (value_items (get source_ordered_plan "segments"))).
  { repeat constructor. }
  assert (H3 : Forall numeric_timing
                 (value_items (get source_ordered_plan "segments"))).
  { repeat first
      [ apply Forall_nil
      | apply Forall_cons
      | progress (cbv beta iota delta [numeric_timing])
      | left; reflexivity
      | right; eexists; reflexivity ]. }
  destruct (normalize_plan_segments_shape no_float plain_repr no_sfx
              source_ordered_plan [] out H1) as (segs & Es & Hn & Hs).
  destruct (Hs H3) as [Ht Ho].
  exists out, segs. split; [exact H1|]. split; [exact Es|].
  split; [exact Hn|]. split; [exact Ht|exact (Ho H2)].
Defined.

(* --------------------------------------------------------------------- *)
(** ** Durations and transitions through the enrichment *)
(* --------------------------------------------------------------------- *)

Lemma min_duration_le_bound (d : Q) :
  MIN_DURATION <= round2 (fmax MIN_DURATION d).
Proof.
  apply Qle_trans with (round2 MIN_DURATION).
  - rewrite (round_at_fix 100 MIN_DURATION default_duration_grid). lra.
  - apply round_at_mono. apply fmax_lub_l.
Qed.

Lemma round2_le_bound (x d : Q) :
  x <= round2 (fmax MIN_DURATION d) ->
  round2 x <= round2 (fmax MIN_DURATION d).
Proof.
  intro H. unfold round2 in *.
  rewrite <- (round_at_idem 100 (fmax MIN_DURATION d)).
  apply round_at_mono. exact H.
Qed.

Lemma resolve_against_bounded (input : list highlight) (start duration : Q)
    (sec : bool) (filtered : list highlight) :
  Forall (bounded_from input) filtered ->
  Forall (bounded_from input)
    (resolve_against MIN_GAP MIN_DURATION start duration sec filtered).
Proof.
  induction filtered as [|previous rest IH]; intro H;
    cbn [resolve_against].
  - constructor.
  - inversion H as [|? ? Hp Hr]; subst.
    specialize (IH Hr).
    destruct Hp as (h & s & d & d' & Hin & Hs & Hd & E & Hb).
    assert (Hset : forall x,
              x <= round2 (fmax MIN_DURATION d) ->
              bounded_from input (set_hl_duration previous x)).
    { intros x Hx. exists h, s, d, x. rewrite E.
      repeat split; assumption. }
    assert (Estart : numd (hl_start previous) 0 = round2 s)
      by (rewrite E; reflexivity).
    assert (Edur : numd (hl_duration previous) MIN_DURATION = d')
      by (rewrite E; reflexivity).
    rewrite Estart, Edur. clear Estart Edur.
    pose proof (min_duration_le_bound d) as Hm.
    destruct (Qleb (round2 s + fmax MIN_DURATION d' + MIN_GAP) start)
      eqn:E0; [exact H|].
    apply Qleb_false in E0.
    assert (Hav : start - MIN_GAP - round2 s
                  <= round2 (fmax MIN_DURATION d)).
    { destruct (fmax_cases MIN_DURATION d') as [[_ E']|[_ E']];
        rewrite E' in E0; lra. }
    destruct (Qleb MIN_DURATION (start - MIN_GAP - round2 s)).
    { constructor; [|exact Hr]. apply Hset, round2_le_bound, Hav. }
    destruct (sec && negb (is_section_title previous)); [exact IH|].
    destruct (negb sec && is_section_title previous); [exact H|].
    destruct (Qltb (4 # 10) (start - MIN_GAP - round2 s)).
    { constructor; [|exact Hr]. apply Hset, round2_le_bound.
      destruct (fmax_cases MIN_DURATION (start - MIN_GAP - round2 s))
        as [[_ ->]|[_ ->]]; assumption. }
    destruct (Qltb (fmax MIN_DURATION d') duration); [exact IH|].
    exact H.
Qed.

Lemma spacing_fold_bounded (input ordered filtered : list highlight) :
  incl ordered input ->
  Forall (bounded_from input) filtered ->
  Forall (bounded_from input)
    (fold_left (spacing_step MIN_GAP MIN_DURATION) ordered filtered).
Proof.
  revert filtered.
  induction ordered as [|c r IH]; intros filtered Hin H; cbn [fold_left].
  - exact H.
  - apply IH; [intros x Hx; apply Hin; right; exact Hx|].
    unfold spacing_step.
    destruct (hl_start c) as [start|] eqn:Es; [|exact H].
    destruct (hl_duration c) as [d|] eqn:Ed; [|exact H].
    pose proof (resolve_against_bounded input start (fmax MIN_DURATION d)
                  (is_section_title c) filtered H) as H1.
    destruct (match resolve_against _ _ _ _ _ _ with
              | [] => false
              | prev_last :: _ => _
              end); [exact H1|].
    constructor; [|exact H1].
    exists c, start, d, (round2 (fmax MIN_DURATION d)).
    split; [apply Hin; left; reflexivity|].
    split; [exact Es|]. split; [exact Ed|]. split; [reflexivity|].
    lra.
Qed.

Lemma enforce_highlight_spacing_bounded (p : plan) :
  Forall (bounded_from (plan_highlights p))
    (plan_highlights (enforce_highlight_spacing p)).
Proof.
  unfold enforce_highlight_spacing, enforce_highlight_spacing_with.
  destruct (plan_highlights p) as [|h hs] eqn:Eh.
  - rewrite Eh. constructor.
  - cbn [plan_highlights set_highlights]. unfold spacing_loop.
    apply Forall_rev. apply spacing_fold_bounded; [|constructor].
    intros x Hx. unfold sort_by_key in Hx.
    apply stable_sort_In in Hx. exact Hx.
Qed.

Lemma sfx_for_highlight_core (available : list string) (h : highlight) :
  hl_id (sfx_for_highlight available h) = hl_id h
  /\ hl_type (sfx_for_highlight available h) = hl_type h.
Proof.
  unfold sfx_for_highlight.
  destruct (truthy_str (hl_sfx h)); [split; reflexivity|].
  destruct (String.eqb _ ""); [split; reflexivity|].
  destruct (pick_sfx_rule _ _ _) as [[? ?]|]; split; reflexivity.
Qed.

Lemma strip_sfx_of_core (h : highlight) :
  hl_id (strip_sfx_of h) = hl_id h /\ hl_type (strip_sfx_of h) = hl_type h.
Proof.
  unfold strip_sfx_of.
  destruct (id_eqb _ _); [split; reflexivity|].
  destruct (audio_kept _); split; reflexivity.
Qed.

Lemma finalize_plan_highlights (broll_catalog : option (list broll_item))
    (rules : option motion_rules) (sfx_catalog : option (list sfx_item))
    (p : plan) :
  exists keep,
    plan_highlights (finalize_plan broll_catalog rules sfx_catalog p)
    = map strip_sfx_of
        (map (sfx_for_highlight (sfx_available sfx_catalog))
           (filter keep (plan_highlights (enforce_highlight_spacing p)))).
Proof.
  destruct (finalize_plan_selects broll_catalog rules sfx_catalog
              (enforce_highlight_spacing p) (enforce_well_spaced p))
    as [_ (keep & Ek & _)].
  exists keep. unfold finalize_plan, strip_non_section_sfx,
    ensure_highlight_sfx.
  cbn [plan_highlights set_highlights].
  rewrite ensure_motion_highlights, ensure_broll_highlights, Ek.
  reflexivity.
Qed.

Lemma five_second_bound (d d' : Q) :
  d' <= round2 (fmax MIN_DURATION d) -> d <= 5 -> d' <= 5.
Proof.
  intros H Hd. apply Qle_trans with (round2 (fmax MIN_DURATION d)).
  - exact H.
  - apply Qle_trans with (round2 5).
    + apply round_at_mono.
      destruct (fmax_cases MIN_DURATION d) as [[_ ->]|[_ ->]];
        [exact Hd|unfold MIN_DURATION; lra].
    + assert (G : on_grid 100 5) by (exists 500%Z; reflexivity).
      rewrite (round_at_fix 100 5 G). lra.
Qed.

Lemma finalize_plan_durations (broll_catalog : option (list broll_item))
    (rules : option motion_rules) (sfx_catalog : option (list sfx_item))
    (p : plan) :
  Forall
    (fun hf => exists h, In h (plan_highlights p) /\ final_duration_of h hf)
    (plan_highlights (finalize_plan broll_catalog rules sfx_catalog p)).
Proof.
  apply Forall_forall. intros hf Hin.
  pose proof (finalize_plan_min_duration broll_catalog rules sfx_catalog p
                hf Hin) as Hmin.
  destruct (finalize_plan_highlights broll_catalog rules sfx_catalog p)
    as [keep E].
  rewrite E in Hin. apply in_map_iff in Hin.
  destruct Hin as (h1 & <- & Hin). apply in_map_iff in Hin.
  destruct Hin as (e & <- & Hin). apply filter_In in Hin.
  destruct Hin as [Hin _].
  pose proof (enforce_highlight_spacing_bounded p) as Hb.
  rewrite Forall_forall in Hb.
  destruct (Hb e Hin) as (h & s & d & d' & Hh & Hs & Hd & -> & Hd').
  set (e := set_hl_duration (set_hl_start h (round2 s)) d') in *.
  set (hf := strip_sfx_of (sfx_for_highlight _ e)) in *.
  assert (Hcore : hl_id hf = hl_id h /\ hl_type hf = hl_type h).
  { unfold hf.
    destruct (strip_sfx_of_core
                (sfx_for_highlight (sfx_available sfx_catalog) e))
      as [-> ->].
    destruct (sfx_for_highlight_core (sfx_available sfx_catalog) e)
      as [-> ->].
    split; reflexivity. }
  assert (Htime : timing hf = (Some (round2 s), Some d')).
  { unfold hf. rewrite strip_sfx_of_timing, sfx_for_highlight_timing.
    reflexivity. }
  unfold timing in Htime. injection Htime as Hts Htd.
  exists h. split; [exact Hh|].
  split; [apply Hcore|]. split; [apply Hcore|].
  exists s, d, d'.
  split; [exact Hs|]. split; [exact Hd|]. split; [exact Hts|].
  split; [exact Htd|].
  split.
  { unfold stored_duration in Hmin. rewrite Htd in Hmin. cbn [numd] in Hmin.
    unfold MIN_DURATION. exact Hmin. }
  split; [exact Hd'|].
  apply five_second_bound. exact Hd'.
Qed.

Lemma Forall2_weaken {A : Type} (R S : A -> A -> Prop) (l l' : list A) :
  (forall x y, R x y -> S x y) -> Forall2 R l l' -> Forall2 S l l'.
Proof. intros HRS H. induction H; constructor; auto. Qed.

Lemma Forall2_compose {A : Type} (R : A -> A -> Prop) (a b c : list A) :
  (forall x y z, R x y -> R y z -> R x z) ->
  Forall2 R a b -> Forall2 R b c -> Forall2 R a c.
Proof.
  intros HR H. revert c. induction H as [|x y l l' Hxy Hl IH]; intros c Hc.
  - inversion Hc. constructor.
  - inversion Hc; subst. constructor; [eapply HR; eauto|apply IH; assumption].
Qed.

Lemma segment_core_transitions (s s' : segment) :
  segment_core s' = segment_core s -> same_transitions s s'.
Proof.
  unfold segment_core, same_transitions. intro H.
  injection H as _ _ _ _ _ _ _ Hin Hout. split; assumption.
Qed.

Lemma same_transitions_trans (x y z : segment) :
  same_transitions x y -> same_transitions y z -> same_transitions x z.
Proof.
  unfold same_transitions. intros [H1 H2] [H3 H4].
  split; congruence.
Qed.

Lemma ensure_broll_transitions (broll_catalog : option (list broll_item))
    (p : plan) :
  Forall2 same_transitions (plan_segments p)
    (plan_segments (ensure_broll_from_highlights broll_catalog p)).
Proof.
  assert (Hrefl : Forall2 same_transitions (plan_segments p)
                    (plan_segments p)).
  { apply Forall2_same. intro. split; reflexivity. }
  unfold ensure_broll_from_highlights.
  destruct broll_catalog as [[|it items]|]; try exact Hrefl.
  destruct (plan_segments p) as [|s ss] eqn:Es;
    [rewrite Es; constructor|].
  destruct (plan_highlights p) as [|h hs] eqn:Eh;
    [rewrite Es in *; exact Hrefl|].
  cbn [plan_segments set_segments].
  apply Forall2_weaken with (R := broll_added (it :: items)).
  - intros x y (Hc & _). apply segment_core_transitions. exact Hc.
  - apply (broll_fold_added (it :: items) _ (s :: ss) (h :: hs)
             (s :: ss, fun _ => O)).
    apply Forall2_same. intro. apply broll_added_refl.
Qed.

Lemma ensure_motion_transitions (rules : option motion_rules) (p : plan) :
  Forall2 same_transitions (plan_segments p)
    (plan_segments (ensure_motion_from_highlights rules p)).
Proof.
  assert (Hrefl : Forall2 same_transitions (plan_segments p)
                    (plan_segments p)).
  { apply Forall2_same. intro. split; reflexivity. }
  unfold ensure_motion_from_highlights.
  destruct (plan_segments p) as [|s ss] eqn:Es;
    [rewrite Es; constructor|].
  destruct (plan_highlights p) as [|h hs] eqn:Eh;
    [rewrite Es in *; exact Hrefl|].
  cbn [plan_segments set_segments].
  apply Forall2_weaken with (R := motion_added).
  - intros x y (Hc & _). apply segment_core_transitions. exact Hc.
  - match goal with
    | |- Forall2 _ _ (fst (fst (motion_loop ?r ?m ?hl ?st))) =>
        apply (motion_loop_inv r m (Nat.max (cued_segments (s :: ss)) m)
                 (s :: ss) hl st)
    end.
    + apply Nat.le_max_r.
    + cbn [fst snd]. split; [|split].
      * apply Forall2_same. intro. apply motion_added_refl.
      * reflexivity.
      * apply Nat.le_max_l.
Qed.

Lemma highlight_passes_keep_segments (p : plan) :
  plan_segments
    (trim_highlights_to_segments
       (prune_highlights (enforce_highlight_spacing p)))
  = plan_segments p.
Proof.
  assert (E1 : plan_segments (enforce_highlight_spacing p)
               = plan_segments p).
  { unfold enforce_highlight_spacing, enforce_highlight_spacing_with.
    destruct (plan_highlights p); reflexivity. }
  assert (E2 : forall q, plan_segments (prune_highlights q)
                         = plan_segments q).
  { intro q. unfold prune_highlights, prune_highlights_with. cbv zeta.
    destruct (_ <=? _)%nat; reflexivity. }
  assert (E3 : forall q, plan_segments (trim_highlights_to_segments q)
                         = plan_segments q).
  { intro q. unfold trim_highlights_to_segments,
      trim_highlights_to_segments_with.
    destruct (plan_segments q) eqn:Es; [exact Es|].
    destruct (plan_highlights q); [exact Es|].
    cbn [plan_segments set_highlights]. exact Es. }
  rewrite E3, E2, E1. reflexivity.
Qed.

Lemma finalize_plan_transitions (broll_catalog : option (list broll_item))
    (rules : option motion_rules) (sfx_catalog : option (list sfx_item))
    (p : plan) :
  Forall2 same_transitions (plan_segments p)
    (plan_segments (finalize_plan broll_catalog rules sfx_catalog p)).
Proof.
  unfold finalize_plan, strip_non_section_sfx, ensure_highlight_sfx.
  cbn [plan_segments set_highlights].
  set (q := trim_highlights_to_segments
              (prune_highlights (enforce_highlight_spacing p))).
  rewrite <- (highlight_passes_keep_segments p). fold q.
  eapply Forall2_compose.
  - exact same_transitions_trans.
  - apply (ensure_broll_transitions broll_catalog q).
  - apply ensure_motion_transitions.
Qed.

Lemma enrich_plan_segments_transitions (p : plan)
    (scene_segments : list scene)
    (broll_catalog : option (list broll_item))
    (rules : option motion_rules) (broll_threshold : Q) :
  Forall2 same_transitions (plan_segments p)
    (plan_segments
       (enrich_plan_segments p scene_segments broll_catalog rules
          broll_threshold)).
Proof.
  unfold enrich_plan_segments. cbn [plan_segments set_segments].
  pose proof (enrich_segments_loop_spec scene_segments broll_catalog rules
                broll_threshold (List.length (plan_segments p))
                (plan_segments p) 0) as H.
  cbv zeta in H. destruct H as [H _].
  eapply Forall2_weaken; [|exact H].
  intros x y Hxy. unfold scene_enriched in Hxy.
  destruct Hxy as (_ & _ & _ & _ & _ & _ & _ & _ & _ & _ & Hin & Hout).
  split; assumption.
Qed.

(** C5, as amended. Every transition of a plan the Schema Normalizer returns
    is a cut or has a duration in [0.1, 3.0], and every highlight of that
    plan has a duration in [1.5, 5.0]. The scene-driven loop and the final
    passes of the enrichment leave the transitions of every segment as they
    are. A highlight of the final plan is a highlight that entered the
    final passes, with a duration of at least 0.6 s and at most
    [round(max(0.6, d), 2)] for the duration [d] it entered with, hence at
    most 5.0 s when it entered with at most 5.0 s. *)
Theorem duration_bounds_by_stage
    (float_of_string : string -> option Q) (repr_of : value -> string)
    (normalize_sfx_name : value -> option string) :
  (forall P srt_entries out,
     normalize_plan float_of_string repr_of normalize_sfx_name P srt_entries
     = Ok out ->
     exists segs hls,
       get out "segments" = VList (map VDict segs)
       /\ get out "highlights" = VList (map VDict hls)
       /\ Forall
            (fun seg =>
               transition_value_within (1 # 10) 3 (get seg "transitionIn")
               /\ transition_value_within (1 # 10) 3
                    (get seg "transitionOut"))
            segs
       /\ Forall (duration_within (15 # 10) 5) hls)
  /\ (forall p scene_segments broll_catalog rules broll_threshold,
        Forall2 same_transitions (plan_segments p)
          (plan_segments
             (enrich_plan_segments p scene_segments broll_catalog rules
                broll_threshold)))
  /\ (forall broll_catalog rules sfx_catalog p,
        Forall2 same_transitions (plan_segments p)
          (plan_segments (finalize_plan broll_catalog rules sfx_catalog p))
        /\ Forall
             (fun hf =>
                exists h, In h (plan_highlights p) /\ final_duration_of h hf)
             (plan_highlights
                (finalize_plan broll_catalog rules sfx_catalog p))).
Proof.
  split; [|split].
  - apply normalize_plan_durations.
  - apply enrich_plan_segments_transitions.
  - intros broll_catalog rules sfx_catalog p. split.
    + apply finalize_plan_transitions.
    + apply finalize_plan_durations.
Qed.

Lemma duration_bounds_by_stage_witness :
  exists out segs hls,
    normalize_plan no_float plain_repr no_sfx raw_plan_example [] = Ok out
    /\ get out "segments" = VList (map VDict segs)
    /\ get out "highlights" = VList (map VDict hls)
    /\ Forall
         (fun seg =>
            transition_value_within (1 # 10) 3 (get seg "transitionIn")
            /\ transition_value_within (1 # 10) 3 (get seg "transitionOut"))
         segs
    /\ Forall (duration_within (15 # 10) 5) hls.
Proof.
  destruct (normalize_plan no_float plain_repr no_sfx raw_plan_example [])
    as [out|e] eqn:E; [|vm_compute in E; discriminate E].
  destruct (proj1 (duration_bounds_by_stage no_float plain_repr no_sfx)
              raw_plan_example [] out E) as (segs & hls & H).
  exists out, segs, hls. split; [reflexivity|exact H].
Defined.

(** The claim C5 as stated fails in the final plan at both ends. The
    resolver shortens a textual highlight below 1.5 s: of two note boxes at
    10 s and 11 s the first leaves the pipeline with 0.8 s. And
    [snap_highlights_to_transcript], which runs before the final passes,
    stretches a highlight over the transcript entries it overlaps: a note
    box of 2 s over an entry of 10 s leaves the pipeline with 10 s. *)
Lemma final_durations_leave_bounds :
  (exists a b,
     plan_highlights (finalize_plan None None None tight_plan) = [a; b]
     /\ hl_type a = Some "noteBox"
     /\ stored_duration a == 8 # 10
     /\ stored_duration a < 15 # 10)
  /\ (exists c,
        plan_highlights
          (finalize_plan None None None
             (fst (snap_highlights_to_transcript stretched_plan
                     [long_entry])))
        = [c]
        /\ hl_type c = Some "noteBox"
        /\ stored_duration c == 10
        /\ 5 < stored_duration c).
Proof.
  split.
  - eexists. eexists. split; [vm_compute; reflexivity|].
    split; [reflexivity|]. split; vm_compute; reflexivity.
  - eexists. split; [vm_compute; reflexivity|].
    split; [reflexivity|]. split; vm_compute; reflexivity.
Qed.
